(** * DenSPI phrase model ([phrase.py]): embedding and verified properties

    The development follows [phrase.py] function by function:
    [encode_phrase], [get_logits], [PhraseModel.forward],
    [CrossEntropyLossWithDefault] and [BoundaryFilter].

    - Float tensors hold IEEE-754 binary32 values ([SpecFloat], precision 24,
      [emax] 128): the dtype [torch] uses by default and the one [.float()]
      forces on the mask term.
    - Integer tensors hold [int64] values, written as [Z] with the
      wrap-around of every arithmetic operation spelled out.
    - A tensor is its [shape] together with its contents, read by index.
    - The position tensors are the only objects the code updates in place
      ([clamp_]); they live in a store addressed by reference, so that
      aliasing and the caller's view after the call are visible.
    - The kernels of the tensor library whose reduction order is not fixed
      ([sum], [mean], [matmul]'s dot product), the learned weights of the two
      linear layers, the encoder, and the two library losses are parameters
      of the model. *)

From Stdlib Require Import ZArith List Bool Lia SpecFloat.
From stdpp Require Import base option list gmap strings.
From Equations Require Import Equations.

Local Open Scope Z_scope.

(** ** Scalars *)

Module F32.
Definition prec : Z := 24.
Definition emax : Z := 128.

Definition add : spec_float → spec_float → spec_float := SFadd prec emax.
Definition sub : spec_float → spec_float → spec_float := SFsub prec emax.
Definition mul : spec_float → spec_float → spec_float := SFmul prec emax.

(** Conversion of an integer, rounding to nearest even ([.float()], and the
    conversion of a Python scalar operand to the tensor's dtype). *)
Definition of_Z (z : Z) : spec_float := binary_normalize prec emax z 0 false.

Definition zero : spec_float := S754_zero false.
Definition neg_zero : spec_float := S754_zero true.
Definition one : spec_float := Eval vm_compute in of_Z 1.
(** [0.5] *)
Definition half : spec_float := Eval vm_compute in binary_normalize prec emax 1 (-1) false.
(** [-1e9]; [10^9 = 15625000 * 2^6] fits the 24-bit mantissa exactly. *)
Definition neg_1e9 : spec_float := Eval vm_compute in SFopp (of_Z 1000000000).
End F32.

Module I64.
Definition wrap (z : Z) : Z := (z + 2 ^ 63) mod 2 ^ 64 - 2 ^ 63.
Definition add (x y : Z) : Z := wrap (x + y).
Definition sub (x y : Z) : Z := wrap (x - y).
Definition mul (x y : Z) : Z := wrap (x * y).
(** [torch.clamp(x, lo, hi)] is [min(max(x, lo), hi)]. *)
Definition clamp (lo hi x : Z) : Z := Z.min (Z.max x lo) hi.
(** bitwise [&] on two's-complement values *)
Definition band (x y : Z) : Z := Z.land x y.
End I64.

(** ** Exceptions *)

Inductive exn : Type :=
| ValueError (msg : string)
| AssertionError (msg : option (Z * Z))
| RuntimeError
| IndexError
| AttributeError
| TypeError
| UnboundLocalError.

Inductive result (A : Type) : Type :=
| Ok (a : A)
| Err (e : exn).
Arguments Ok {A} a.
Arguments Err {A} e.

Definition rbind {A B} (r : result A) (k : A → result B) : result B :=
  match r with
  | Ok a => k a
  | Err e => Err e
  end.

#[global] Instance result_ret : MRet result := @Ok.
#[global] Instance result_bind : MBind result := fun A B k r => rbind r k.
#[global] Instance result_fmap : FMap result :=
  fun A B f r => rbind r (fun a => Ok (f a)).

(** ** Tensors *)

Record tensor (A : Type) : Type := Tensor {
  shape : list nat;
  at_ : list nat → A
}.
Arguments Tensor {A} shape at_.
Arguments shape {A} t.
Arguments at_ {A} t idx.

Definition rank {A} (t : tensor A) : nat := length (shape t).

(** [t.size(d)] for a non-negative [d] *)
Definition size {A} (t : tensor A) (d : nat) : result nat :=
  match shape t !! d with
  | Some n => Ok n
  | None => Err IndexError
  end.

Definition numel_of (sh : list nat) : nat := foldr Nat.mul 1%nat sh.

(** All indices of a shape, in row-major order. *)
Fixpoint indices (sh : list nat) : list (list nat) :=
  match sh with
  | [] => [[]]
  | n :: sh' => i ← seq 0 n; (cons i) <$> indices sh'
  end.

Definition elements {A} (t : tensor A) : list A := at_ t <$> indices (shape t).

Definition tmap {A B} (f : A → B) (t : tensor A) : tensor B :=
  Tensor (shape t) (fun idx => f (at_ t idx)).

(** *** Broadcasting *)

(** Shapes are aligned from the last dimension; two sizes are compatible
    when they are equal or one of them is 1. *)
Fixpoint broadcast_rev (r1 r2 : list nat) : option (list nat) :=
  match r1, r2 with
  | [], _ => Some r2
  | _, [] => Some r1
  | d1 :: r1', d2 :: r2' =>
      r ← broadcast_rev r1' r2';
      if (d1 =? d2)%nat then Some (d1 :: r)
      else if (d1 =? 1)%nat then Some (d2 :: r)
      else if (d2 =? 1)%nat then Some (d1 :: r)
      else None
  end.

Definition broadcast_shapes (s1 s2 : list nat) : option (list nat) :=
  reverse <$> broadcast_rev (reverse s1) (reverse s2).

(** The index at which an operand of shape [sh] is read for the index [idx]
    of the broadcast result: the trailing [length sh] components, with 0 on
    every dimension of size 1. *)
Definition bsel (d i : nat) : nat := if (d =? 1)%nat then 0%nat else i.

Definition bidx (sh : list nat) (idx : list nat) : list nat :=
  zip_with bsel sh (drop (length idx - length sh) idx).

Definition map2 {A B C} (f : A → B → C) (a : tensor A) (b : tensor B)
  : result (tensor C) :=
  match broadcast_shapes (shape a) (shape b) with
  | Some sh =>
      Ok (Tensor sh (fun idx => f (at_ a (bidx (shape a) idx))
                                  (at_ b (bidx (shape b) idx))))
  | None => Err RuntimeError
  end.

(** *** Shape manipulation *)

(** A Python dimension argument [d] of an operation that accepts [n]
    positions: negative values count from the end. *)
Definition norm_dim (n : nat) (d : Z) : result nat :=
  if (0 <=? d) && (d <? Z.of_nat n) then Ok (Z.to_nat d)
  else if (d <? 0) && (- Z.of_nat n <=? d) then Ok (Z.to_nat (d + Z.of_nat n))
  else Err IndexError.

(** [t.unsqueeze(d)] *)
Definition unsqueeze {A} (d : Z) (t : tensor A) : result (tensor A) :=
  k ← norm_dim (S (rank t)) d;
  mret (Tensor (take k (shape t) ++ 1%nat :: drop k (shape t))
               (fun idx => at_ t (take k idx ++ drop (S k) idx))).

(** [t.squeeze(-1)]: drops the last dimension when its size is 1. *)
Definition squeeze_last_shape (sh : list nat) : list nat :=
  match reverse sh with
  | 1%nat :: r => reverse r
  | _ => sh
  end.

Definition squeeze_last {A} (t : tensor A) : tensor A :=
  match reverse (shape t) with
  | 1%nat :: r => Tensor (reverse r) (fun idx => at_ t (idx ++ [0%nat]))
  | _ => t
  end.

(** Python slice bounds on a dimension of size [n]: [lo] and the length. *)
Definition slice_bound (n : nat) (z : Z) : nat :=
  if z <? 0 then Z.to_nat (Z.max (z + Z.of_nat n) 0)
  else Z.to_nat (Z.min z (Z.of_nat n)).

Definition slice_range (n : nat) (start stop : option Z) : nat * nat :=
  let lo := from_option (slice_bound n) 0%nat start in
  let hi := from_option (slice_bound n) n stop in
  (lo, (hi - lo)%nat).

(** [t.narrow(d, lo, len)]: the view of [len] entries from [lo] on
    dimension [d]. *)
Definition narrow {A} (d lo len : nat) (t : tensor A) : tensor A :=
  Tensor (<[d := len]> (shape t))
         (fun idx => at_ t (alter (Nat.add lo) d idx)).

(** [t[..., start:stop, ...]] with the slice on dimension [d]; indexing
    more dimensions than the tensor has raises [IndexError]. *)
Definition slice_dim {A} (d : nat) (start stop : option Z) (t : tensor A)
  : result (tensor A) :=
  n ← size t d;
  let '(lo, len) := slice_range n start stop in
  mret (narrow d lo len t).

(** [t.chunk(2, dim=d)]: pieces of size [ceil(n/2)]; a dimension of size 1
    gives a single piece, a dimension of size 0 two empty ones. *)
Definition chunk2 {A} (d : nat) (t : tensor A) : result (list (tensor A)) :=
  n ← size t d;
  let split_size := ((n + 1) / 2)%nat in
  mret (if (n =? 0)%nat then [narrow d 0 0 t; narrow d 0 0 t]
        else if (n <=? split_size)%nat then [narrow d 0 n t]
        else [narrow d 0 split_size t; narrow d split_size (n - split_size) t]).

(** Tuple unpacking [x, y = l] *)
Definition unpack2 {A} (l : list A) : result (A * A) :=
  match l with
  | [x; y] => Ok (x, y)
  | [] | [_] => Err (ValueError "not enough values to unpack")
  | _ => Err (ValueError "too many values to unpack")
  end.

(** [t.transpose(1, 2)] *)
Definition transpose12 {A} (t : tensor A) : result (tensor A) :=
  match shape t with
  | b :: n :: m :: sh =>
      Ok (Tensor (b :: m :: n :: sh)
                 (fun idx => match idx with
                             | ib :: i :: j :: r => at_ t (ib :: j :: i :: r)
                             | _ => at_ t idx
                             end))
  | _ => Err IndexError
  end.

(** [t.view(t.size(0), -1)]: the rows of the flattened trailing dimensions. *)
Fixpoint unravel (dims : list nat) (k : nat) : list nat :=
  match dims with
  | [] => []
  | _ :: ds => (k / numel_of ds)%nat :: unravel ds (k mod numel_of ds)%nat
  end.

Definition view_rows {A} (t : tensor A) : result (tensor A) :=
  match shape t with
  | [] => Err IndexError
  | O :: _ => Err RuntimeError
  | b :: ds =>
      Ok (Tensor [b; numel_of ds]
                 (fun idx => at_ t (nth 0 idx 0%nat :: unravel ds (nth 1 idx 0%nat))))
  end.

(** [torch.cat([a, b], 1)] on matrices *)
Definition cat1 {A} (a b : tensor A) : result (tensor A) :=
  match shape a, shape b with
  | [ra; m], [rb; n] =>
      if (ra =? rb)%nat then
        Ok (Tensor [ra; (m + n)%nat]
                   (fun idx =>
                      let j := nth 1 idx 0%nat in
                      if (j <? m)%nat then at_ a idx
                      else at_ b [nth 0 idx 0%nat; (j - m)%nat]))
      else Err RuntimeError
  | _, _ => Err RuntimeError
  end.

(** [t.repeat(r, 1)]: a tensor of fewer than two dimensions is read as a
    matrix with leading dimensions of size 1; one of more than two is
    rejected. *)
Definition repeat_rows {A} (r : nat) (t : tensor A) : result (tensor A) :=
  match shape t with
  | [n; m] =>
      Ok (Tensor [(r * n)%nat; m]
                 (fun idx => at_ t [(nth 0 idx 0 mod n)%nat; nth 1 idx 0%nat]))
  | [m] => Ok (Tensor [r; m] (fun idx => at_ t [nth 1 idx 0%nat]))
  | [] => Ok (Tensor [r; 1%nat] (fun idx => at_ t []))
  | _ => Err RuntimeError
  end.

(** ** The tensor library's kernels *)

Section Kernels.
(** Reductions: the order in which the library accumulates is not fixed
    by its interface. *)
Variable reduce_sum : list spec_float → spec_float.
Variable reduce_mean : list spec_float → spec_float.
Variable dot : list spec_float → list spec_float → spec_float.

(** [t.sum(-1)] *)
Definition sum_last (t : tensor spec_float) : tensor spec_float :=
  match reverse (shape t) with
  | [] => Tensor [] (fun idx => reduce_sum [at_ t idx])
  | n :: r =>
      Tensor (reverse r)
             (fun idx => reduce_sum ((fun k => at_ t (idx ++ [k])) <$> seq 0 n))
  end.

(** [t.mean(d)] for a non-negative [d] *)
Definition mean_dim (d : nat) (t : tensor spec_float) : result (tensor spec_float) :=
  n ← size t d;
  mret (Tensor (delete d (shape t))
               (fun idx => reduce_mean
                   ((fun k => at_ t (take d idx ++ k :: drop d idx)) <$> seq 0 n))).

(** [a.matmul(b)] on two batches of matrices *)
Definition matmul (a b : tensor spec_float) : result (tensor spec_float) :=
  match shape a, shape b with
  | [ba; n; k], [bb; k'; m] =>
      if (k =? k')%nat then
        match broadcast_shapes [ba] [bb] with
        | Some [bo] =>
            Ok (Tensor [bo; n; m]
                  (fun idx =>
                     let ib := nth 0 idx 0%nat in
                     let i := nth 1 idx 0%nat in
                     let j := nth 2 idx 0%nat in
                     dot ((fun x => at_ a (bidx [ba] [ib] ++ [i; x])) <$> seq 0 k)
                         ((fun x => at_ b (bidx [bb] [ib] ++ [x; j])) <$> seq 0 k)))
        | _ => Err RuntimeError
        end
      else Err RuntimeError
  | _, _ => Err RuntimeError
  end.

(** *** [encode_phrase] *)

Definition encode_phrase (layer : tensor spec_float) (phrase_size : Z)
    (get_first_only : bool)
  : result (tensor spec_float * tensor spec_float * tensor spec_float) :=
  (* the subscript [layer[:, :, ...]] needs three dimensions *)
  _ ← size layer 2;
  boundary_layer ← slice_dim 2 None (Some (phrase_size - 1)) layer;
  span_layer ← slice_dim 2 (Some (phrase_size - 1)) None layer;
  '(start, end_) ← chunk2 2 boundary_layer ≫= unpack2;
  '(span_start, span_end) ← chunk2 2 span_layer ≫= unpack2;
  span_logits ← transpose12 span_end ≫= matmul span_start;
  if get_first_only then
    start ← slice_dim 1 None (Some 1) start;
    end_ ← slice_dim 1 None (Some 1) end_;
    span_logits ← slice_dim 1 None (Some 1) span_logits ≫= slice_dim 2 None (Some 1);
    mret (start, end_, span_logits)
  else mret (start, end_, span_logits).

(** *** [get_logits] *)

Definition metric_depth (metric : string) : nat :=
  if decide (metric = "l2") then 1%nat else 0%nat.

Equations get_logits (a b : tensor spec_float) (metric : string)
  : result (tensor spec_float) by wf (metric_depth metric) lt :=
get_logits a b metric with decide (metric = "ip") => {
  | left _ => sum_last <$> map2 F32.mul a b
  | right _ with decide (metric = "l2") => {
    | left _ =>
        ab ← get_logits a b "ip";
        aa ← get_logits a a "ip";
        bb ← get_logits b b "ip";
        s ← map2 F32.add aa bb;
        map2 F32.sub ab (tmap (fun x => F32.mul x F32.half) s)
    | right _ => Err (ValueError metric) } }.

End Kernels.

(** ** Integer tensors updated in place *)

(** The storage of the integer tensors the caller owns, by reference. *)
Abbreviation store := (gmap nat (list Z)).

(** A tensor object: a view, of shape [view_shape], of the storage at
    [loc]. [squeeze] is_ok a second view of the same storage. *)
Record ref : Type := Ref {
  loc : nat;
  view_shape : list nat
}.

Fixpoint ravel (sh idx : list nat) : nat :=
  match sh, idx with
  | _ :: sh', i :: idx' => (i * numel_of sh' + ravel sh' idx')%nat
  | _, _ => 0%nat
  end.

(** Computations that read and update the store and may raise; the store
    keeps the updates made before an exception. *)
Definition St (A : Type) : Type := store → result A * store.

#[global] Instance St_ret : MRet St := fun A a σ => (Ok a, σ).
#[global] Instance St_bind : MBind St := fun A B k m σ =>
  match m σ with
  | (Ok a, σ') => k a σ'
  | (Err e, σ') => (Err e, σ')
  end.

Definition lift {A} (r : result A) : St A := fun σ => (r, σ).

(** The current contents of a view. *)
Definition deref (h : ref) : St (tensor Z) := fun σ =>
  match σ !! loc h with
  | Some data =>
      (Ok (Tensor (view_shape h) (fun idx => nth (ravel (view_shape h) idx) data 0)), σ)
  | None => (Err RuntimeError, σ)
  end.

(** [h.clamp_(lo, hi)]: every entry of the storage is overwritten. *)
Definition clamp_ (h : ref) (lo hi : Z) : St unit := fun σ =>
  match σ !! loc h with
  | Some data => (Ok (), <[loc h := I64.clamp lo hi <$> data]> σ)
  | None => (Err RuntimeError, σ)
  end.

(** [h.squeeze(-1)] *)
Definition squeeze_ref (h : ref) : ref :=
  Ref (loc h) (squeeze_last_shape (view_shape h)).

(** [t.min().item()] *)
Definition tmin (t : tensor Z) : result Z :=
  match elements t with
  | [] => Err RuntimeError
  | x :: l => Ok (foldl Z.min x l)
  end.

(** [torch.eye(n)] *)
Definition eye (n : nat) : tensor spec_float :=
  Tensor [n; n] (fun idx => if (nth 0 idx 0 =? nth 1 idx 0)%nat
                            then F32.one else F32.zero).

(** [embedding(input, weight)]: the rows of the matrix [weight] selected by
    [input]; an index outside the rows raises. *)
Definition embedding (input : tensor Z) (weight : tensor spec_float)
  : result (tensor spec_float) :=
  match shape weight with
  | [rows; cols] =>
      if forallb (fun i => (0 <=? i) && (i <? Z.of_nat rows)) (elements input) then
        Ok (Tensor (shape input ++ [cols])
                   (fun idx =>
                      let n := length (shape input) in
                      at_ weight (Z.to_nat (at_ input (take n idx)) :: drop n idx)))
      else Err IndexError
  | _ => Err RuntimeError
  end.

(** ** The model *)

Section Model.
Variable reduce_sum : list spec_float → spec_float.
Variable reduce_mean : list spec_float → spec_float.
Variable dot : list spec_float → list spec_float → spec_float.

(** [nn.CrossEntropyLoss.forward] of the tensor library, for a given
    [ignore_index], on a matrix of logits and a tensor of targets. *)
Variable cross_entropy : Z → tensor spec_float → tensor Z → result spec_float.

(** [binary_cross_entropy_with_logits(input, target, pos_weight=...)] of
    the tensor library, on operands of equal shape. *)
Variable bce_with_logits : tensor spec_float → tensor spec_float → Z → spec_float.

(** *** [CrossEntropyLossWithDefault] *)

Record CrossEntropyLossWithDefault : Type := {
  ignore_index : Z;
  cel_default_value : tensor spec_float
}.

Definition cel_init (default_value : tensor spec_float) (ignore_index : Z)
  : CrossEntropyLossWithDefault :=
  {| ignore_index := if 0 <=? ignore_index then ignore_index + 1 else ignore_index;
     cel_default_value := default_value |}.

Definition cel_forward (self : CrossEntropyLossWithDefault)
    (input_ : tensor spec_float) (target : tensor Z) : result spec_float :=
  (* the first assertion has no message; the second carries the pair of
     minima *)
  if negb (rank input_ =? 2)%nat then Err (AssertionError None) else
  default_value ← unsqueeze 0 (cel_default_value self);
  rows ← size input_ 0;
  default_value ← repeat_rows rows default_value;
  new_input ← cat1 default_value input_;
  let new_target := tmap (fun t => I64.add t 1) target in
  m ← tmin new_target;
  if negb (0 <=? m)
  then (target_min ← tmin target; Err (AssertionError (Some (m, target_min))))
  else
  cross_entropy (ignore_index self) new_input new_target.

(** *** [BoundaryFilter] *)

(** [nn.Linear(in_features, 1)]: [affine] is the learned map from a
    feature vector to its projection. *)
Record Linear : Type := {
  in_features : nat;
  affine : list spec_float → spec_float
}.

Definition linear_forward (self : Linear) (x : tensor spec_float)
  : result (tensor spec_float) :=
  match reverse (shape x) with
  | k :: r =>
      if (k =? in_features self)%nat then
        Ok (Tensor (reverse (1%nat :: r))
              (fun idx => affine self
                 ((fun j => at_ x (take (length r) idx ++ [j])) <$> seq 0 k)))
      else Err RuntimeError
  | [] => Err RuntimeError
  end.

Record BoundaryFilter : Type := {
  start_linear : Linear;
  end_linear : Linear
}.

Inductive filter_output : Type :=
| FilterLogits (start_logits end_logits : tensor spec_float)
| FilterLoss (loss : spec_float).

Definition bce (input target : tensor spec_float) (pos_weight : Z)
  : result spec_float :=
  if decide (shape target = shape input)
  then Ok (bce_with_logits input target pos_weight)
  else Err (ValueError "Target size must be the same as input size").

Definition one_hot (positions : tensor Z) (length : nat)
  : result (tensor spec_float) :=
  embedding (tmap (fun p => I64.add p 1) positions) (eye (length + 2))
    ≫= slice_dim 1 (Some 1) (Some (-1)).

Definition filter_forward (self : BoundaryFilter)
    (start_vec end_vec : tensor spec_float)
    (start_positions end_positions : option ref) : St filter_output :=
  start_logits ← lift (squeeze_last <$> linear_forward (start_linear self) start_vec);
  end_logits ← lift (squeeze_last <$> linear_forward (end_linear self) end_vec);
  match start_positions, end_positions with
  | None, None => mret (FilterLogits start_logits end_logits)
  | _, _ =>
      ignored_index ← lift (size start_logits 1);
      sp ← lift (from_option Ok (Err AttributeError) start_positions);
      _ ← clamp_ sp (-1) (Z.of_nat ignored_index);
      ep ← lift (from_option Ok (Err AttributeError) end_positions);
      _ ← clamp_ ep (-1) (Z.of_nat ignored_index);
      let length := ignored_index in
      s ← deref sp;
      start_1hot ← lift (one_hot s length);
      e ← deref ep;
      end_1hot ← lift (one_hot e length);
      start_loss ← lift (bce start_logits start_1hot (Z.of_nat length));
      end_loss ← lift (bce end_logits end_1hot (Z.of_nat length));
      mret (FilterLoss (F32.add (F32.mul start_loss F32.half)
                                (F32.mul end_loss F32.half)))
  end.

(** *** [PhraseModel] *)

Record PhraseModel : Type := {
  encoder : tensor Z → option (tensor Z) → result (tensor spec_float);
  boundary_size : Z;
  phrase_size : Z;
  default_value : tensor spec_float;
  filter : BoundaryFilter;
  metric : string
}.

(** [PhraseModel.__init__]. [init_default] is the draw of [torch.randn(1)],
    [init_start] and [init_end] the initial weights of the two linear
    layers. [int((phrase_size - 1) / 2)] truncates towards zero. *)
Definition phrase_init
    (encoder : tensor Z → option (tensor Z) → result (tensor spec_float))
    (phrase_size : Z) (metric : string)
    (init_default : spec_float)
    (init_start init_end : list spec_float → spec_float) : result PhraseModel :=
  let boundary_size := Z.quot (phrase_size - 1) 2 in
  if boundary_size <? 0 then Err RuntimeError else
  Ok {| encoder := encoder;
        boundary_size := boundary_size;
        phrase_size := phrase_size;
        default_value := Tensor [1%nat] (fun _ => init_default);
        filter := {| start_linear := {| in_features := Z.to_nat boundary_size;
                                        affine := init_start |};
                     end_linear := {| in_features := Z.to_nat boundary_size;
                                      affine := init_end |} |};
        metric := metric |}.

Inductive output : Type :=
| OutContext (start end_ span_logits start_filter_logits end_filter_logits
                : tensor spec_float)
| OutQuery (query_start query_end q_span_logits : tensor spec_float)
| OutTrain (loss filter_loss : spec_float)
| OutInference (all_logits start_filter_logits end_filter_logits
                  : tensor spec_float).

(** Lines 84-86: the score matrix and its additive mask. *)
Definition exp_mask (context_mask : option (tensor Z)) : result (tensor spec_float) :=
  cm ← from_option Ok (Err AttributeError) context_mask;
  m1 ← unsqueeze 1 cm;
  m2 ← unsqueeze (-1) cm;
  both ← map2 I64.band m1 m2;
  mret (tmap (fun x => F32.mul (F32.sub F32.one (F32.of_Z x)) F32.neg_1e9) both).

Definition score_matrix (start_logits end_logits cross_logits : tensor spec_float)
    (context_mask : option (tensor Z)) : result (tensor spec_float) :=
  s ← unsqueeze 2 start_logits;
  e ← unsqueeze 1 end_logits;
  se ← map2 F32.add s e;
  all_logits ← map2 F32.add se cross_logits;
  mask ← exp_mask context_mask;
  map2 F32.add all_logits mask.

(** Lines 80-86. *)
Definition joint_logits (self : PhraseModel)
    (start end_ span_logits query_start query_end q_span_logits : tensor spec_float)
    (context_mask : option (tensor Z))
  : result (tensor spec_float * tensor spec_float) :=
  start_logits ← get_logits reduce_sum start query_start (metric self);
  end_logits ← get_logits reduce_sum end_ query_end (metric self);
  sl ← unsqueeze (-1) span_logits;
  ql ← unsqueeze (-1) q_span_logits;
  cross_logits ← get_logits reduce_sum sl ql (metric self);
  all_logits ← score_matrix start_logits end_logits cross_logits context_mask;
  mret (start_logits, all_logits).

(** Lines 105-109: the flattened joint target. [span_target] is a fresh
    tensor, so its in-place clamp is not visible outside. *)
Definition span_target_of (ignored_index : Z) (s e : Z) : Z :=
  let span_ignored_index := ignored_index ^ 2 in
  let span_target := I64.add (I64.mul s ignored_index) e in
  let span_target := I64.clamp (-1) span_ignored_index span_target in
  let valid := (s <? ignored_index) && (e <? ignored_index) in
  let valid_long := if valid then 1 else 0 in
  I64.add (I64.mul valid_long span_target)
          (I64.mul (I64.sub 1 valid_long) span_ignored_index).

Definition span_target (ignored_index : Z) (start_positions end_positions : tensor Z)
  : result (tensor Z) :=
  let span_ignored_index := ignored_index ^ 2 in
  span_target ← map2 I64.add (tmap (fun s => I64.mul s ignored_index) start_positions)
                             end_positions;
  let span_target := tmap (I64.clamp (-1) span_ignored_index) span_target in
  valid ← map2 (fun s e => (s <? ignored_index) && (e <? ignored_index))
               start_positions end_positions;
  let valid_long := tmap (fun v : bool => if v then 1 else 0) valid in
  kept ← map2 I64.mul valid_long span_target;
  map2 I64.add kept
       (tmap (fun v => I64.mul (I64.sub 1 v) span_ignored_index) valid_long).

(** Lines 88-120, once both position tensors are known to be given. *)
Definition train (self : PhraseModel)
    (start end_ start_logits all_logits : tensor spec_float)
    (start_positions end_positions : ref) : St output :=
  let start_positions :=
    if (1 <? length (view_shape start_positions))%nat
    then squeeze_ref start_positions else start_positions in
  let end_positions :=
    if (1 <? length (view_shape end_positions))%nat
    then squeeze_ref end_positions else end_positions in
  ignored_index ← lift (Z.of_nat <$> size start_logits 1);
  let span_ignored_index := ignored_index ^ 2 in
  _ ← clamp_ start_positions (-1) ignored_index;
  _ ← clamp_ end_positions (-1) ignored_index;
  let cel_1d := cel_init (default_value self) ignored_index in
  let cel_2d := cel_init (default_value self) span_ignored_index in
  s ← deref start_positions;
  e ← deref end_positions;
  target ← lift (span_target ignored_index s e);
  true_loss ← lift (flat ← view_rows all_logits; cel_forward cel_2d flat target);
  start_loss ← lift (pooled ← mean_dim reduce_mean 2 all_logits;
                     cel_forward cel_1d pooled s);
  end_loss ← lift (pooled ← mean_dim reduce_mean 1 all_logits;
                   cel_forward cel_1d pooled e);
  let help_loss := F32.mul (F32.add start_loss end_loss) F32.half in
  let loss := F32.add true_loss help_loss in
  out ← filter_forward (filter self) start end_
          (Some start_positions) (Some end_positions);
  match out with
  | FilterLoss filter_loss => mret (OutTrain loss filter_loss)
  | FilterLogits _ _ => lift (Err TypeError)
  end.

(** Lines 61-63. *)
Definition embed_context (self : PhraseModel)
    (context_ids : tensor Z) (context_mask : option (tensor Z))
  : St (tensor spec_float * tensor spec_float * tensor spec_float
        * tensor spec_float * tensor spec_float) :=
  '(start, end_, span_logits) ←
     lift (context_layer ← encoder self context_ids context_mask;
           encode_phrase dot context_layer (phrase_size self) false);
  out ← filter_forward (filter self) start end_ None None;
  match out with
  | FilterLogits start_filter_logits end_filter_logits =>
      mret (start, end_, span_logits, start_filter_logits, end_filter_logits)
  | FilterLoss _ => lift (Err TypeError)
  end.

(** Lines 70-72. *)
Definition embed_query (self : PhraseModel)
    (query_ids : tensor Z) (query_mask : option (tensor Z))
  : result (tensor spec_float * tensor spec_float * tensor spec_float) :=
  question_layer ← encoder self query_ids query_mask;
  encode_phrase dot question_layer (phrase_size self) true.

Definition forward (self : PhraseModel)
    (context_ids context_mask query_ids query_mask : option (tensor Z))
    (start_positions end_positions : option ref) : St output :=
  match context_ids, query_ids with
  | Some cids, None =>
      '(start, end_, span_logits, sfl, efl) ← embed_context self cids context_mask;
      mret (OutContext start end_ span_logits sfl efl)
  | None, Some qids =>
      '(query_start, query_end, q_span_logits) ← lift (embed_query self qids query_mask);
      mret (OutQuery query_start query_end q_span_logits)
  | None, None =>
      (* line 80 reads [start], which no branch has bound *)
      lift (Err UnboundLocalError)
  | Some cids, Some qids =>
      '(start, end_, span_logits, sfl, efl) ← embed_context self cids context_mask;
      '(query_start, query_end, q_span_logits) ← lift (embed_query self qids query_mask);
      '(start_logits, all_logits) ←
         lift (joint_logits self start end_ span_logits
                 query_start query_end q_span_logits context_mask);
      match start_positions, end_positions with
      | Some sp, Some ep => train self start end_ start_logits all_logits sp ep
      | _, _ => mret (OutInference all_logits sfl efl)
      end
  end.

End Model.

(** ** Statements about outcomes *)

(** The rule of broadcasting, dimension by dimension. *)
Definition bdim (d1 d2 d : nat) : Prop :=
  (d1 = d2 ∧ d = d1) ∨ (d1 = 1%nat ∧ d = d2) ∨ (d2 = 1%nat ∧ d = d1).

(** The inner product of two vectors of length [n], as the library computes
    it: the reduction of the elementwise products. *)
Definition inner_product (reduce_sum : list spec_float → spec_float) (n : nat)
    (x y : tensor spec_float) : spec_float :=
  reduce_sum ((fun k => F32.mul (at_ x [k]) (at_ y [k])) <$> seq 0 n).

(** The outcome is not the failure of the assertion on the minimum shifted
    target, the only assertion that carries a message. *)
Definition min_assertion_holds {A} (r : result A) : Prop :=
  ∀ msg, r ≠ Err (AssertionError (Some msg)).

(** The call returned normally. *)
Definition is_ok {A} (r : result A) : bool :=
  match r with
  | Ok _ => true
  | Err _ => false
  end.

(** ** A small instance

    Concrete kernels and a concrete encoder, on which the model can be run:
    left-to-right accumulation for the reductions, and stand-ins for the two
    library losses. *)

Module Fixture.
Definition reduce_sum (l : list spec_float) : spec_float :=
  foldl F32.add F32.zero l.
Definition reduce_mean (l : list spec_float) : spec_float :=
  SFdiv F32.prec F32.emax (reduce_sum l) (F32.of_Z (Z.of_nat (length l))).
Definition dot (x y : list spec_float) : spec_float :=
  reduce_sum (zip_with F32.mul x y).

(** Stand-ins for the library losses: the number of targets that are not
    ignored, and the sum of the target entries. *)
Definition cross_entropy (ignore_index : Z) (input : tensor spec_float)
    (target : tensor Z) : result spec_float :=
  Ok (F32.of_Z (Z.of_nat (length (base.filter (fun t => t ≠ ignore_index)
                                              (elements target))))).
Definition bce_with_logits (input target : tensor spec_float) (pos_weight : Z)
  : spec_float :=
  reduce_sum (elements target).

(** An encoder of hidden width [width]: the feature [c] of token [t] is
    [t + c]. *)
Definition token_encoder (width : nat) (ids : tensor Z) (mask : option (tensor Z))
  : result (tensor spec_float) :=
  Ok (Tensor (shape ids ++ [width])
             (fun idx => F32.of_Z (at_ ids (take 2 idx) + Z.of_nat (nth 2 idx 0%nat)))).

(** A matrix of integers, given by its rows. *)
Definition matrix (rows : list (list Z)) : tensor Z :=
  Tensor [length rows; length (default [] (head rows))]
         (fun idx => nth (nth 1 idx 0%nat) (nth (nth 0 idx 0%nat) rows []) 0).

Definition vector (l : list Z) : tensor Z :=
  Tensor [length l] (fun idx => nth (nth 0 idx 0%nat) l 0).

Definition fvector (l : list Z) : tensor spec_float := tmap F32.of_Z (vector l).
Definition fmatrix (rows : list (list Z)) : tensor spec_float :=
  tmap F32.of_Z (matrix rows).

Definition run_forward :=
  forward reduce_sum reduce_mean dot cross_entropy bce_with_logits.

(** Operands of the examples. *)
Definition ramp2 : tensor spec_float := fvector [0; 1].
Definition ones2 : tensor spec_float := fvector [1; 1].
Definition logits12 : tensor spec_float := fmatrix [[1; 2]].
Definition default1 : tensor spec_float := Tensor [1%nat] (fun _ => F32.one).
Definition minus_one : tensor Z := vector [-1].
Definition zeros (sh : list nat) : tensor spec_float := Tensor sh (fun _ => F32.zero).
Definition boundary_filter : BoundaryFilter :=
  {| start_linear := {| in_features := 1; affine := reduce_sum |};
     end_linear := {| in_features := 1; affine := reduce_sum |} |}.
(** Phrase size 3 on hidden width 4: boundary vectors of width 1. *)
Definition phrase_model (metric : string) : PhraseModel :=
  {| encoder := token_encoder 4; boundary_size := 1; phrase_size := 3;
     default_value := default1; filter := boundary_filter; metric := metric |}.

(** A batch of one context of two tokens, both attended, and a query of one
    token; the caller's start position 7 is stored at reference 1, the end
    position -1 at reference 2. *)
Definition context_ids : tensor Z := matrix [[1; 2]].
Definition context_mask : tensor Z := matrix [[1; 1]].
Definition query_ids : tensor Z := matrix [[5]].
Definition start_ref : ref := Ref 1 [1%nat].
Definition end_ref : ref := Ref 2 [1%nat].
Definition store0 : store := <[1%nat := [7]]> (<[2%nat := [-1]]> ∅).

(** The joint call on these inputs, with the given position arguments. *)
Definition joint_call (metric : string) (start_positions end_positions : option ref)
  : St output :=
  run_forward (phrase_model metric) (Some context_ids) (Some context_mask)
    (Some query_ids) None start_positions end_positions.
End Fixture.

(** ** Equality of tensors, entry by entry *)

Definition tensor_eq {A} (t1 t2 : tensor A) : Prop :=
  shape t1 = shape t2 ∧ ∀ idx, at_ t1 idx = at_ t2 idx.

(** Two outcomes agree: the same exception, or tensors equal entry by
    entry. *)
Definition result_eq {A} (r1 r2 : result (tensor A)) : Prop :=
  match r1, r2 with
  | Ok t1, Ok t2 => tensor_eq t1 t2
  | Err e1, Err e2 => e1 = e2
  | _, _ => False
  end.

(** The vector of the last dimension of [t] at the leading index [prefix]:
    [t[prefix]] for a tensor whose last dimension has size [k]. *)
Definition row {A} (t : tensor A) (prefix : list nat) (k : nat) : tensor A :=
  Tensor [k] (fun idx => at_ t (prefix ++ idx)).

(** From the store [σ] to the store [σ'], only the storages at [locs] may
    have been written, and no storage has been created, removed or
    resized. *)
Definition writes_only (locs : list nat) (σ σ' : store) : Prop :=
  ∀ l, length <$> σ' !! l = length <$> σ !! l ∧ (l ∉ locs → σ' !! l = σ !! l).

(** ** Further operands of the examples *)

Module Sample.
(** The output of [Fixture.token_encoder 4] on [Fixture.context_ids] and on
    [Fixture.query_ids]. *)
Definition context_layer : tensor spec_float :=
  Tensor [1; 2; 4]%nat
    (fun idx => F32.of_Z (at_ Fixture.context_ids (take 2 idx) + Z.of_nat (nth 2 idx 0%nat))).
Definition query_layer : tensor spec_float :=
  Tensor [1; 1; 4]%nat
    (fun idx => F32.of_Z (at_ Fixture.query_ids (take 2 idx) + Z.of_nat (nth 2 idx 0%nat))).
(** The model [PhraseModel.__init__] builds for the even phrase size 4. *)
Definition even_model : PhraseModel :=
  {| encoder := Fixture.token_encoder 4; boundary_size := 1; phrase_size := 4;
     default_value := Fixture.default1; filter := Fixture.boundary_filter;
     metric := "ip" |}.
(** Boundary vectors of width 1 for a context of two tokens (start 1 and 2,
    end 3 and 4), its span scores 1 to 4, the vectors and the span score of a
    query (2, 2 and 3), and a mask that attends to the first token only. *)
Definition start_vecs : tensor spec_float :=
  Tensor [1; 2; 1]%nat (fun idx => F32.of_Z (Z.of_nat (nth 1 idx 0%nat) + 1)).
Definition end_vecs : tensor spec_float :=
  Tensor [1; 2; 1]%nat (fun idx => F32.of_Z (Z.of_nat (nth 1 idx 0%nat) + 3)).
Definition span_scores : tensor spec_float :=
  Tensor [1; 2; 2]%nat
    (fun idx => F32.of_Z (2 * Z.of_nat (nth 1 idx 0%nat) + Z.of_nat (nth 2 idx 0%nat) + 1)).
Definition query_vec : tensor spec_float :=
  Tensor [1; 1; 1]%nat (fun _ => F32.of_Z 2).
Definition query_span : tensor spec_float :=
  Tensor [1; 1; 1]%nat (fun _ => F32.of_Z 3).
Definition first_only_mask : tensor Z := Fixture.matrix [[1; 0]].
(** A batch of no context of two tokens and no query of one token, with
    the encoder outputs on them, and two empty position tensors. *)
Definition no_context_ids : tensor Z := Tensor [0; 2]%nat (fun _ => 0).
Definition no_query_ids : tensor Z := Tensor [0; 1]%nat (fun _ => 0).
Definition no_context_layer : tensor spec_float :=
  Tensor [0; 2; 4]%nat
    (fun idx => F32.of_Z (at_ no_context_ids (take 2 idx) + Z.of_nat (nth 2 idx 0%nat))).
Definition no_query_layer : tensor spec_float :=
  Tensor [0; 1; 4]%nat
    (fun idx => F32.of_Z (at_ no_query_ids (take 2 idx) + Z.of_nat (nth 2 idx 0%nat))).
Definition no_start_ref : ref := Ref 3 [0%nat].
Definition no_end_ref : ref := Ref 4 [0%nat].
Definition empty_store : store := <[3%nat := []]> (<[4%nat := []]> ∅).
End Sample.

(** * Properties *)

(** ** Arithmetic of the scalar types *)

Lemma wrap_small z : - 2 ^ 63 <= z < 2 ^ 63 → I64.wrap z = z.
Proof.
  intros H. unfold I64.wrap.
  rewrite Z.mod_small by lia. lia.
Qed.

Lemma clamp_range lo hi x : lo <= hi → lo <= I64.clamp lo hi x <= hi.
Proof. unfold I64.clamp. lia. Qed.

Lemma clamp_idem lo hi x : lo <= hi →
  I64.clamp lo hi (I64.clamp lo hi x) = I64.clamp lo hi x.
Proof. unfold I64.clamp. lia. Qed.

Lemma clamp_fixed lo hi x : lo <= x <= hi → I64.clamp lo hi x = x.
Proof. unfold I64.clamp. lia. Qed.

(** Adding the negative zero changes no value, not even a zero's sign. *)
Lemma add_neg_zero x : F32.add x F32.neg_zero = x.
Proof. destruct x as [[]|[]| |]; reflexivity. Qed.

(** Multiplication is commutative: [0.5 * x], which the library computes as
    [x * 0.5], can be read either way. *)
Lemma mul_comm x y : F32.mul x y = F32.mul y x.
Proof.
  unfold F32.mul.
  destruct x as [sx|sx| |sx mx ex], y as [sy|sy| |sy my ey]; cbn [SFmul];
    try reflexivity; rewrite (xorb_comm sx sy); try reflexivity.
  by rewrite (Pos.mul_comm mx my), (Z.add_comm ex ey).
Qed.

(** ** Broadcasting *)

Lemma bsel_lt d i : (i < d)%nat → bsel d i = i.
Proof.
  unfold bsel. intros H. destruct (Nat.eqb_spec d 1); [lia | reflexivity].
Qed.

Lemma broadcast_rev_spec r1 r2 r :
  Forall3 bdim r1 r2 r → broadcast_rev r1 r2 = Some r.
Proof.
  induction 1 as [|d1 d2 d r1 r2 r Hd _ IH]; [reflexivity|].
  simpl. rewrite IH. simpl.
  destruct Hd as [[-> ->]|[[-> ->]|[-> ->]]].
  - rewrite Nat.eqb_refl. reflexivity.
  - destruct (Nat.eqb_spec 1 d2); [congruence | reflexivity].
  - destruct (Nat.eqb_spec d1 1); [congruence|].
    destruct (Nat.eqb_spec d1 1); [lia | reflexivity].
Qed.

Lemma broadcast_shapes_spec s1 s2 s :
  Forall3 bdim (reverse s1) (reverse s2) (reverse s) →
  broadcast_shapes s1 s2 = Some s.
Proof.
  intros H. unfold broadcast_shapes.
  rewrite (broadcast_rev_spec _ _ _ H). simpl.
  by rewrite reverse_involutive.
Qed.

Lemma broadcast_same sh : broadcast_shapes sh sh = Some sh.
Proof.
  apply broadcast_shapes_spec. induction (reverse sh) as [|d r IH]; constructor;
    [left; done | exact IH].
Qed.

Lemma map2_ok {A B C} (f : A → B → C) a b sh :
  broadcast_shapes (shape a) (shape b) = Some sh →
  map2 f a b = Ok (Tensor sh (fun idx => f (at_ a (bidx (shape a) idx))
                                           (at_ b (bidx (shape b) idx)))).
Proof. intros H. unfold map2. by rewrite H. Qed.

Lemma map2_err {A B C} (f : A → B → C) a b :
  broadcast_shapes (shape a) (shape b) = None → map2 f a b = Err RuntimeError.
Proof. intros H. unfold map2. by rewrite H. Qed.

Ltac bdims :=
  apply broadcast_shapes_spec; cbn [reverse rev_append];
  repeat (first [apply Forall3_nil | apply Forall3_cons]);
  unfold bdim; auto.

(** ** The two metrics *)

Section MetricFacts.
Variable reduce_sum : list spec_float → spec_float.

Lemma get_logits_ip a b :
  get_logits reduce_sum a b "ip" = sum_last reduce_sum <$> map2 F32.mul a b.
Proof. simp get_logits. reflexivity. Qed.

Lemma get_logits_l2 a b :
  get_logits reduce_sum a b "l2" =
    (ab ← get_logits reduce_sum a b "ip";
     aa ← get_logits reduce_sum a a "ip";
     bb ← get_logits reduce_sum b b "ip";
     s ← map2 F32.add aa bb;
     map2 F32.sub ab (tmap (fun x => F32.mul x F32.half) s)).
Proof. simp get_logits. reflexivity. Qed.

Lemma get_logits_unknown a b metric :
  metric ≠ "ip" → metric ≠ "l2" →
  get_logits reduce_sum a b metric = Err (ValueError metric).
Proof.
  intros Hip Hl2. simp get_logits.
  destruct (decide (metric = "ip")) as [E|E]; [done|]. simpl.
  destruct (decide (metric = "l2")) as [E'|E']; [done|]. reflexivity.
Qed.
End MetricFacts.

Lemma get_logits_ip_vectors reduce_sum n a b :
  shape a = [n] → shape b = [n] →
  ∃ t, get_logits reduce_sum a b "ip" = Ok t ∧ shape t = [] ∧
       at_ t [] = inner_product reduce_sum n a b.
Proof.
  intros Ha Hb. rewrite get_logits_ip. unfold map2, broadcast_shapes.
  rewrite Ha, Hb. simpl. rewrite Nat.eqb_refl. simpl.
  eexists. split; [reflexivity|]. split; [reflexivity|].
  unfold sum_last, inner_product. simpl.
  f_equal. apply list_fmap_ext. intros i k Hk.
  apply lookup_seq in Hk as [-> Hlt]. simpl.
  unfold bidx. simpl. rewrite bsel_lt by done. reflexivity.
Qed.

(** C5. For all tensors [a] and [b], the ['l2'] metric is the ['ip'] metric
    of [(a, b)] minus one half of the sum of the ['ip'] metrics of [(a, a)]
    and [(b, b)], and the ['ip'] metric is the sum over the last axis of the
    elementwise product. On two vectors of equal length the call is_ok,
    and its value is [ip(a,b) - (ip(a,a) + ip(b,b)) * 0.5] in binary32
    arithmetic. *)
Theorem get_logits_l2_from_ip :
  ∀ (reduce_sum : list spec_float → spec_float) (a b : tensor spec_float),
    get_logits reduce_sum a b "ip" = sum_last reduce_sum <$> map2 F32.mul a b ∧
    get_logits reduce_sum a b "l2" =
      (ab ← get_logits reduce_sum a b "ip";
       aa ← get_logits reduce_sum a a "ip";
       bb ← get_logits reduce_sum b b "ip";
       s ← map2 F32.add aa bb;
       map2 F32.sub ab (tmap (fun x => F32.mul x F32.half) s)) ∧
    ∀ n, shape a = [n] → shape b = [n] →
      ∃ t, get_logits reduce_sum a b "l2" = Ok t ∧ shape t = [] ∧
           at_ t [] =
             F32.sub (inner_product reduce_sum n a b)
                     (F32.mul F32.half
                        (F32.add (inner_product reduce_sum n a a)
                                 (inner_product reduce_sum n b b))).
Proof.
  intros reduce_sum a b. split; [apply get_logits_ip|].
  split; [apply get_logits_l2|].
  intros n Ha Hb. rewrite get_logits_l2.
  destruct (get_logits_ip_vectors reduce_sum n a b Ha Hb) as (ab & -> & Sab & Vab).
  destruct (get_logits_ip_vectors reduce_sum n a a Ha Ha) as (aa & -> & Saa & Vaa).
  destruct (get_logits_ip_vectors reduce_sum n b b Hb Hb) as (bb & -> & Sbb & Vbb).
  simpl. unfold map2. rewrite Saa, Sbb. simpl. rewrite Sab. simpl.
  eexists. split; [reflexivity|]. split; [reflexivity|].
  simpl. unfold bidx. simpl.
  rewrite Vab, Vaa, Vbb. f_equal. apply mul_comm.
Qed.

Lemma get_logits_l2_from_ip_witness :
  shape Fixture.ramp2 = [2%nat] ∧ shape Fixture.ones2 = [2%nat] ∧
  ∃ t, get_logits Fixture.reduce_sum Fixture.ramp2 Fixture.ones2 "l2" = Ok t ∧
       shape t = [] ∧
       at_ t [] =
         F32.sub (inner_product Fixture.reduce_sum 2 Fixture.ramp2 Fixture.ones2)
           (F32.mul F32.half
              (F32.add (inner_product Fixture.reduce_sum 2 Fixture.ramp2 Fixture.ramp2)
                       (inner_product Fixture.reduce_sum 2 Fixture.ones2 Fixture.ones2))).
Proof.
  split; [reflexivity|]. split; [reflexivity|].
  apply (proj2 (proj2 (get_logits_l2_from_ip Fixture.reduce_sum
                         Fixture.ramp2 Fixture.ones2)) 2%nat);
    reflexivity.
Defined.

(** ** Unsupported metrics *)

Section ModelFacts.
Variable reduce_sum : list spec_float → spec_float.
Variable reduce_mean : list spec_float → spec_float.
Variable dot : list spec_float → list spec_float → spec_float.
Variable cross_entropy : Z → tensor spec_float → tensor Z → result spec_float.
Variable bce_with_logits : tensor spec_float → tensor spec_float → Z → spec_float.

#[local] Abbreviation forward' := (forward reduce_sum reduce_mean dot cross_entropy bce_with_logits).
#[local] Abbreviation train' := (train reduce_mean cross_entropy bce_with_logits).
#[local] Abbreviation joint_logits' := (joint_logits reduce_sum).
#[local] Abbreviation embed_context' := (embed_context dot bce_with_logits).
#[local] Abbreviation embed_query' := (embed_query dot).
#[local] Abbreviation filter_forward' := (filter_forward bce_with_logits).

Lemma joint_logits_unknown self start end_ span qs qe qspan cm :
  metric self ≠ "ip" → metric self ≠ "l2" →
  joint_logits' self start end_ span qs qe qspan cm
  = Err (ValueError (metric self)).
Proof.
  intros Hip Hl2. unfold joint_logits.
  rewrite (get_logits_unknown _ start qs) by done. reflexivity.
Qed.

(** The joint call of [forward'], written out on the results of its two
    embedding steps. *)
Lemma forward_joint self cids cm qids qm sp ep σ :
  forward' self (Some cids) cm (Some qids) qm sp ep σ =
    match embed_context' self cids cm σ with
    | (Ok (start, end_, span_logits, sfl, efl), σ1) =>
        match embed_query' self qids qm with
        | Ok (query_start, query_end, q_span_logits) =>
            match joint_logits' self start end_ span_logits
                    query_start query_end q_span_logits cm with
            | Ok (start_logits, all_logits) =>
                match sp, ep with
                | Some sp, Some ep =>
                    train' self start end_ start_logits all_logits sp ep σ1
                | _, _ => (Ok (OutInference all_logits sfl efl), σ1)
                end
            | Err e => (Err e, σ1)
            end
        | Err e => (Err e, σ1)
        end
    | (Err e, σ1) => (Err e, σ1)
    end.
Proof.
  unfold forward, mbind, St_bind.
  destruct (embed_context' self cids cm σ) as [[[[[[start end_] span] sfl] efl]|e] σ1];
    [|reflexivity].
  unfold lift.
  destruct (embed_query' self qids qm) as [[[qs qe] qspan]|e]; [|reflexivity].
  destruct (joint_logits' self start end_ span qs qe qspan cm) as [[sl al]|e];
    [|reflexivity].
  destruct sp, ep; reflexivity.
Qed.

End ModelFacts.

(** C8. A metric name other than ['ip'] and ['l2'] makes every call of
    [get_logits] raise [ValueError] carrying that name, whatever the
    operands. [PhraseModel.__init__] stores the name unchecked (it succeeds
    with such a name whenever it does with ['ip']), and a joint
    [forward] call (context and query both given) of a model holding such a
    name never is_ok: it raises, and what it raises is [ValueError] of the
    name as soon as the two embedding steps before the first scoring call
    have succeeded. *)
Theorem unknown_metric_rejected :
  ∀ (metric_name : string),
    metric_name ≠ "ip" → metric_name ≠ "l2" →
    (∀ reduce_sum a b,
        get_logits reduce_sum a b metric_name = Err (ValueError metric_name)) ∧
    (∀ enc P d ws we self,
        phrase_init enc P "ip" d ws we = Ok self →
        ∃ self', phrase_init enc P metric_name d ws we = Ok self' ∧
                 metric self' = metric_name) ∧
    (∀ reduce_sum reduce_mean dot cross_entropy bce_with_logits
       self cids cm qids qm sp ep σ,
        metric self = metric_name →
        (∃ e, (forward reduce_sum reduce_mean dot cross_entropy bce_with_logits
                 self (Some cids) cm (Some qids) qm sp ep σ).1 = Err e) ∧
        (∀ c q σ1,
            embed_context dot bce_with_logits self cids cm σ = (Ok c, σ1) →
            embed_query dot self qids qm = Ok q →
            forward reduce_sum reduce_mean dot cross_entropy bce_with_logits
              self (Some cids) cm (Some qids) qm sp ep σ
            = (Err (ValueError metric_name), σ1))).
Proof.
  intros m Hip Hl2. split; [|split].
  - intros. by apply get_logits_unknown.
  - intros enc P d ws we self. unfold phrase_init.
    destruct (_ <? 0); [discriminate|]. intros _. by eexists.
  - intros rs rm dt ce bc self cids cm qids qm sp ep σ <-.
    rewrite forward_joint. split.
    + destruct (embed_context _ _ _ _ _ _) as [[[[[[start end_] span] sfl] efl]|e] σ1];
        [|by eexists].
      destruct (embed_query _ _ _ _) as [[[qs qe] qspan]|e]; [|by eexists].
      rewrite joint_logits_unknown by done. by eexists.
    + intros [[[[start end_] span] sfl] efl] [[qs qe] qspan] σ1 -> ->.
      by rewrite joint_logits_unknown.
Qed.


Lemma unknown_metric_rejected_witness :
  "cos" ≠ "ip" ∧ "cos" ≠ "l2" ∧
  get_logits Fixture.reduce_sum Fixture.ramp2 Fixture.ones2 "cos"
  = Err (ValueError "cos").
Proof.
  split; [discriminate|]. split; [discriminate|].
  apply (proj1 (unknown_metric_rejected "cos" ltac:(discriminate) ltac:(discriminate))).
Defined.

(** ** The flattened joint target *)

Lemma span_target_of_both_minus_one L :
  0 <= L → L * L < 2 ^ 63 → span_target_of L (-1) (-1) = -1.
Proof.
  intros H0 Hb. unfold span_target_of, I64.add, I64.mul, I64.sub.
  assert (L < 2 ^ 63) by nia.
  assert ((-1 <? L) = true) as -> by (apply Z.ltb_lt; lia). simpl andb. cbv iota.
  rewrite (wrap_small (-1 * L)) by lia.
  rewrite (wrap_small (-1 * L + -1)) by lia.
  assert (I64.clamp (-1) (L ^ 2) (-1 * L + -1) = -1) as ->
      by (unfold I64.clamp; nia).
  rewrite (wrap_small (1 * _)) by lia.
  rewrite (wrap_small (1 - 1)) by lia.
  rewrite (wrap_small ((1 - 1) * L ^ 2)) by lia.
  rewrite wrap_small by lia. reflexivity.
Qed.

Lemma span_target_of_invalid L s e :
  0 <= L → L * L < 2 ^ 63 → L <= s ∨ L <= e → span_target_of L s e = L ^ 2.
Proof.
  intros H0 Hb Hse. unfold span_target_of, I64.add, I64.mul, I64.sub.
  assert ((s <? L) && (e <? L) = false) as ->.
  { apply andb_false_iff. destruct Hse; [left|right]; apply Z.ltb_ge; lia. }
  cbv iota. rewrite Z.mul_0_l.
  rewrite (wrap_small 0) by lia.
  rewrite (wrap_small (1 - 0)) by lia.
  rewrite (wrap_small ((1 - 0) * L ^ 2)) by nia.
  rewrite wrap_small by nia. lia.
Qed.

Lemma span_target_of_valid L s e :
  0 <= L → L * L < 2 ^ 63 → -1 <= s < L → -1 <= e < L →
  span_target_of L s e = Z.max (-1) (s * L + e).
Proof.
  intros H0 Hb Hs He. unfold span_target_of, I64.add, I64.mul, I64.sub.
  assert ((s <? L) && (e <? L) = true) as ->.
  { apply andb_true_iff. split; apply Z.ltb_lt; lia. }
  cbv iota.
  rewrite (wrap_small (s * L)) by nia.
  rewrite (wrap_small (s * L + e)) by nia.
  assert (I64.clamp (-1) (L ^ 2) (s * L + e) = Z.max (-1) (s * L + e)) as ->
      by (unfold I64.clamp; nia).
  rewrite (wrap_small (1 * _)) by nia.
  rewrite (wrap_small (1 - 1)) by lia.
  rewrite (wrap_small ((1 - 1) * L ^ 2)) by lia.
  rewrite wrap_small by nia. lia.
Qed.

(** On two position vectors of one length the tensor computation is the
    scalar one, element by element. *)
Lemma span_target_pointwise L B s e :
  shape s = [B] → shape e = [B] →
  ∃ t, span_target L s e = Ok t ∧ shape t = [B] ∧
       ∀ b, (b < B)%nat → at_ t [b] = span_target_of L (at_ s [b]) (at_ e [b]).
Proof.
  intros Hs He. unfold span_target.
  assert (broadcast_shapes [B] [B] = Some [B]) as HB by bdims.
  rewrite (map2_ok I64.add _ e [B]) by (cbn [shape tmap]; by rewrite Hs, He).
  cbn [mbind result_bind rbind].
  rewrite (map2_ok _ s e [B]) by (by rewrite Hs, He).
  cbn [mbind result_bind rbind].
  rewrite (map2_ok I64.mul _ _ [B]) by done.
  cbn [mbind result_bind rbind].
  rewrite (map2_ok I64.add _ _ [B]) by done.
  eexists. split; [reflexivity|]. split; [reflexivity|].
  intros b Hb. simpl. unfold bidx. simpl. rewrite Hs, He. simpl.
  rewrite !(bsel_lt B b) by done. reflexivity.
Qed.

(** C1 (as the code has it). With [L_c] the context length and positions
    clamped to [[-1, L_c]]: the flattened target of a batch element whose
    start and end are both [-1] is [-1], the value the loss shifts to the
    default class, and not [L_c^2]; whenever either position is at or beyond
    [L_c], so that its clamped value is the sentinel [L_c], the target is
    overridden to [L_c^2]; for two valid positions it is the flat index
    [start * L_c + end]. *)
Theorem span_target_routing :
  ∀ (L : Z) (B : nat) (start_positions end_positions : tensor Z),
    0 <= L → L * L < 2 ^ 63 →
    shape start_positions = [B] → shape end_positions = [B] →
    ∃ t, span_target L (tmap (I64.clamp (-1) L) start_positions)
                       (tmap (I64.clamp (-1) L) end_positions) = Ok t ∧
         shape t = [B] ∧
         ∀ b, (b < B)%nat →
           let s := at_ start_positions [b] in
           let e := at_ end_positions [b] in
           (s = -1 → e = -1 → at_ t [b] = -1) ∧
           (L <= s ∨ L <= e → at_ t [b] = L ^ 2) ∧
           (0 <= s < L → 0 <= e < L → at_ t [b] = s * L + e).
Proof.
  intros L B s e H0 Hb Hs He.
  destruct (span_target_pointwise L B (tmap (I64.clamp (-1) L) s)
              (tmap (I64.clamp (-1) L) e)) as (t & Ht & Hsh & Hat); [done..|].
  exists t. split; [done|]. split; [done|].
  intros b Hlt. rewrite (Hat b Hlt). simpl. repeat split.
  - intros -> ->. rewrite !clamp_fixed by lia.
    by apply span_target_of_both_minus_one.
  - intros Hse. apply span_target_of_invalid; [done..|].
    unfold I64.clamp. lia.
  - intros Hs' He'. rewrite !clamp_fixed by lia.
    rewrite span_target_of_valid by lia. nia.
Qed.

(** ** The default-aware loss *)

Lemma foldl_min_spec l x :
  foldl Z.min x l ∈ x :: l ∧ Forall (Z.le (foldl Z.min x l)) (x :: l).
Proof.
  revert x. induction l as [|y l IH]; intros x; simpl.
  - split; [apply list_elem_of_here | by repeat constructor].
  - destruct (IH (Z.min x y)) as [Hin Hle].
    apply Forall_cons in Hle as [Hm Hl]. split.
    + apply elem_of_cons in Hin as [->|Hin].
      * destruct (Z.min_spec x y) as [[_ ->]|[_ ->]];
          [apply list_elem_of_here | apply list_elem_of_further, list_elem_of_here].
      * by do 2 apply list_elem_of_further.
    + repeat constructor; [lia | lia | done].
Qed.

Lemma tmin_ok t m :
  tmin t = Ok m → m ∈ elements t ∧ Forall (Z.le m) (elements t).
Proof.
  unfold tmin. destruct (elements t) as [|x l]; [discriminate|].
  intros [= <-]. apply foldl_min_spec.
Qed.

Lemma tmin_err t e : tmin t = Err e → e = RuntimeError ∧ elements t = [].
Proof.
  unfold tmin. destruct (elements t) as [|x l]; [|discriminate].
  by intros [= <-].
Qed.

Lemma elements_tmap {A B} (f : A → B) t : elements (tmap f t) = f <$> elements t.
Proof. unfold elements. simpl. by rewrite <- list_fmap_compose. Qed.

Section LossFacts.
Variable cross_entropy : Z → tensor spec_float → tensor Z → result spec_float.

#[local] Abbreviation cel_forward' := (cel_forward cross_entropy).

(** The logits [cel_forward] hands to the library loss: the default column
    followed by the columns of the input. *)
Lemma cel_forward_input dv ii input B C :
  shape input = [B; C] → shape dv = [1%nat] →
  ∃ new_input,
    shape new_input = [B; S C] ∧
    (∀ b j, at_ new_input [b; 0%nat] = at_ dv [0%nat] ∧
            at_ new_input [b; S j] = at_ input [b; j]) ∧
    ∀ target,
      cel_forward' (cel_init dv ii) input target =
        (m ← tmin (tmap (fun t => I64.add t 1) target);
         if negb (0 <=? m)
         then (target_min ← tmin target;
               Err (AssertionError (Some (m, target_min))))
         else cross_entropy (if 0 <=? ii then ii + 1 else ii)
                new_input (tmap (fun t => I64.add t 1) target)).
Proof.
  intros Hin Hdv.
  exists (Tensor [B; S C]
            (fun idx =>
               let j := nth 1 idx 0%nat in
               if (j <? 1)%nat
               then at_ dv [j]
               else at_ input [nth 0 idx 0%nat; (j - 1)%nat])).
  split; [reflexivity|]. split.
  - intros b j. simpl. rewrite Nat.sub_0_r. done.
  - intros target.
    unfold cel_forward, cel_init, rank, size, unsqueeze, norm_dim.
    cbn [cel_default_value ignore_index]. unfold rank.
    rewrite Hin, Hdv. simpl. unfold cat1. simpl. rewrite Hin.
    rewrite Nat.mul_1_r, Nat.eqb_refl. reflexivity.
Qed.
End LossFacts.

(** C2. [CrossEntropyLossWithDefault.__init__] shifts a non-negative
    [ignore_index] by one and keeps a negative one, so that the shifted value
    is never 0. On a matrix of logits of [C] columns, [forward] builds the
    [C+1]-column matrix whose column 0 holds the default scalar on every row
    and whose column [j+1] is column [j] of the input, adds 1 to every
    target (so [-1] becomes class 0, which is therefore not the ignored
    index), and, when no shifted target is negative, is_ok exactly the
    library's cross-entropy of the augmented logits against the shifted
    targets under the shifted [ignore_index]. With a negative shifted target
    it raises the assertion; on an empty target the minimum itself raises. *)
Theorem cel_forward_spec :
  ∀ (cross_entropy : Z → tensor spec_float → tensor Z → result spec_float)
    (default_value : tensor spec_float) (ignore_idx : Z)
    (input : tensor spec_float) (target : tensor Z) (B C : nat),
    shape input = [B; C] → shape default_value = [1%nat] →
    let self := cel_init default_value ignore_idx in
    let new_target := tmap (fun t => I64.add t 1) target in
    ignore_index self = (if 0 <=? ignore_idx then ignore_idx + 1 else ignore_idx) ∧
    ignore_index self ≠ 0 ∧
    (∀ idx, at_ target idx = -1 → at_ new_target idx = 0) ∧
    ∃ new_input,
      shape new_input = [B; S C] ∧
      (∀ b j, at_ new_input [b; 0%nat] = at_ default_value [0%nat] ∧
              at_ new_input [b; S j] = at_ input [b; j]) ∧
      (elements target = [] →
       cel_forward cross_entropy self input target = Err RuntimeError) ∧
      (elements target ≠ [] →
       Forall (fun t => 0 <= I64.add t 1) (elements target) →
       cel_forward cross_entropy self input target
       = cross_entropy (ignore_index self) new_input new_target) ∧
      (Exists (fun t => I64.add t 1 < 0) (elements target) →
       ∃ msg, cel_forward cross_entropy self input target
              = Err (AssertionError (Some msg))).
Proof.
  intros ce dv ii input target B C Hin Hdv self new_target.
  split; [reflexivity|]. split.
  { simpl. destruct (Z.leb_spec 0 ii); lia. }
  split.
  { intros idx H. simpl. rewrite H. reflexivity. }
  destruct (cel_forward_input ce dv ii input B C Hin Hdv) as (ni & Hsh & Hat & Hfw).
  exists ni. split; [done|]. split; [done|].
  subst self. rewrite Hfw. fold new_target.
  assert (Hel : elements new_target = (fun t => I64.add t 1) <$> elements target)
    by apply elements_tmap.
  split; [|split].
  - intros Hnil. unfold tmin. by rewrite Hel, Hnil.
  - intros Hne Hall.
    destruct (tmin new_target) as [m|e] eqn:Hm.
    + apply tmin_ok in Hm as [Hm _]. rewrite Hel in Hm.
      apply list_elem_of_fmap in Hm as (t & -> & Ht).
      rewrite Forall_forall in Hall. specialize (Hall t Ht).
      simpl. by apply Z.leb_le in Hall as ->.
    + apply tmin_err in Hm as [_ Hm]. rewrite Hel in Hm.
      by apply fmap_nil_inv in Hm.
  - intros Hex. apply Exists_exists in Hex as (t & Ht & Hneg).
    destruct (tmin new_target) as [m|e] eqn:Hm.
    + apply tmin_ok in Hm as [_ Hm]. rewrite Hel, Forall_fmap, Forall_forall in Hm.
      specialize (Hm t Ht). simpl in Hm. simpl.
      assert ((0 <=? m) = false) as -> by (apply Z.leb_gt; lia). simpl.
      destruct (tmin target) as [tm|e] eqn:Htm; [by eexists|].
      apply tmin_err in Htm as [_ Htm]. rewrite Htm in Ht. by apply elem_of_nil in Ht.
    + apply tmin_err in Hm as [_ Hm]. rewrite Hel in Hm.
      apply fmap_nil_inv in Hm. rewrite Hm in Ht. by apply elem_of_nil in Ht.
Qed.

Lemma cel_forward_spec_witness :
  shape Fixture.logits12 = [1%nat; 2%nat] ∧ shape Fixture.default1 = [1%nat] ∧
  ∃ new_input,
    at_ new_input [0%nat; 0%nat] = F32.one ∧
    cel_forward Fixture.cross_entropy (cel_init Fixture.default1 2)
      Fixture.logits12 Fixture.minus_one
    = Fixture.cross_entropy 3 new_input
        (tmap (fun t => I64.add t 1) Fixture.minus_one).
Proof.
  split; [reflexivity|]. split; [reflexivity|].
  destruct (cel_forward_spec Fixture.cross_entropy Fixture.default1 2
              Fixture.logits12 Fixture.minus_one 1 2 eq_refl eq_refl)
    as (_ & _ & _ & ni & _ & Hat & _ & Hok & _).
  exists ni. split; [apply (Hat 0%nat 0%nat)|].
  apply Hok; [discriminate|]. repeat constructor. vm_compute. discriminate.
Defined.

Lemma span_target_routing_witness :
  0 <= 4 ∧ 4 * 4 < 2 ^ 63 ∧
  shape Fixture.minus_one = [1%nat] ∧
  ∃ t, span_target 4 (tmap (I64.clamp (-1) 4) Fixture.minus_one)
                     (tmap (I64.clamp (-1) 4) Fixture.minus_one) = Ok t ∧
       at_ t [0%nat] = -1.
Proof.
  split; [lia|]. split; [lia|]. split; [reflexivity|].
  destruct (span_target_routing 4 1 Fixture.minus_one Fixture.minus_one
              ltac:(lia) ltac:(lia) eq_refl eq_refl) as (t & Ht & _ & Hat).
  exists t. split; [exact Ht|].
  apply (proj1 (Hat 0%nat ltac:(lia))); reflexivity.
Defined.

(** Both positions [-1] with [L_c = 4]: the flattened target is [-1], not
    [L_c^2 = 16]. *)
Lemma span_target_minus_one_counterexample :
  (fun t => at_ t [0%nat])
    <$> span_target 4 (tmap (I64.clamp (-1) 4) Fixture.minus_one)
                      (tmap (I64.clamp (-1) 4) Fixture.minus_one)
  = Ok (-1) ∧
  (fun t => at_ t [0%nat])
    <$> span_target 4 (tmap (I64.clamp (-1) 4) Fixture.minus_one)
                      (tmap (I64.clamp (-1) 4) Fixture.minus_one)
  ≠ Ok (4 ^ 2).
Proof. split; [reflexivity | discriminate]. Qed.

(** ** In-place updates of the position tensors *)

Lemma St_bind_eq {A B} (m : St A) (k : A → St B) σ a σ1 :
  m σ = (Ok a, σ1) → (m ≫= k) σ = k a σ1.
Proof. intros H. unfold mbind, St_bind. by rewrite H. Qed.

Lemma St_bind_ok {A B} (m : St A) (k : A → St B) σ b σ' :
  (m ≫= k) σ = (Ok b, σ') →
  ∃ a σ1, m σ = (Ok a, σ1) ∧ k a σ1 = (Ok b, σ').
Proof.
  unfold mbind, St_bind. destruct (m σ) as [[a|e] σ1]; [|discriminate].
  intros H. by exists a, σ1.
Qed.

Lemma St_bind_store {A B} (m : St A) (k : A → St B) σ :
  (m σ).2 = σ → (∀ a, (k a σ).2 = σ) → ((m ≫= k) σ).2 = σ.
Proof.
  unfold mbind, St_bind. destruct (m σ) as [[a|e] σ1]; simpl.
  - intros ->. auto.
  - by intros ->.
Qed.

Lemma lift_ok {A} (r : result A) σ a σ1 :
  lift r σ = (Ok a, σ1) → r = Ok a ∧ σ1 = σ.
Proof. unfold lift. by intros [= -> ->]. Qed.

Lemma deref_ok h σ t σ1 :
  deref h σ = (Ok t, σ1) →
  σ1 = σ ∧ ∃ data, σ !! loc h = Some data ∧
    t = Tensor (view_shape h) (fun idx => nth (ravel (view_shape h) idx) data 0).
Proof.
  unfold deref. destruct (σ !! loc h) as [d|]; [|discriminate].
  intros [= <- <-]. eauto.
Qed.

Lemma clamp__ok h lo hi σ u σ1 :
  clamp_ h lo hi σ = (Ok u, σ1) →
  σ1 = alter (fmap (I64.clamp lo hi)) (loc h) σ ∧ is_Some (σ !! loc h).
Proof.
  unfold clamp_. destruct (σ !! loc h) as [d|] eqn:Hd; [|discriminate].
  intros [= _ <-]. split; [|by eexists].
  apply map_eq. intros j. rewrite lookup_alter, lookup_insert.
  destruct (decide (loc h = j)) as [<-|]; [by rewrite Hd | done].
Qed.

(** Two clamps to [[-1, L1]] and [[-1, L2]] in a row are the clamp to the
    smaller bound. *)
Lemma clamp_clamp (L1 L2 : nat) x :
  I64.clamp (-1) (Z.of_nat L2) (I64.clamp (-1) (Z.of_nat L1) x)
  = I64.clamp (-1) (Z.of_nat (L1 `min` L2)) x.
Proof. unfold I64.clamp. lia. Qed.

Ltac st_invert :=
  repeat (cbv beta in *;
    match goal with
    | H : (_ ≫= _) _ = (Ok _, _) |- _ =>
        apply St_bind_ok in H as (? & ? & ? & ?)
    | H : lift _ _ = (Ok _, _) |- _ => apply lift_ok in H as [? ?]; subst
    | H : deref _ _ = (Ok _, _) |- _ =>
        apply deref_ok in H as [? (? & ? & ?)]; subst
    | H : clamp_ _ _ _ _ = (Ok _, _) |- _ => apply clamp__ok in H as [? ?]; subst
    | H : mret _ _ = (Ok _, _) |- _ => injection H as ? ?; subst
    end).

(** The store after the clamps of one call, read location by location. *)
Lemma clamped_lookup (L : nat) (ls le : nat) (σ : store) (l : nat) :
  alter (fmap (I64.clamp (-1) (Z.of_nat L))) le
    (alter (fmap (I64.clamp (-1) (Z.of_nat L))) ls σ) !! l
  = if decide (l = ls ∨ l = le)
    then fmap (I64.clamp (-1) (Z.of_nat L)) <$> σ !! l
    else σ !! l.
Proof.
  destruct (decide (l = ls)) as [E1|E1], (decide (l = le)) as [E2|E2];
    subst; rewrite ?decide_True by auto;
    rewrite ?lookup_alter_eq, ?lookup_alter_ne, ?lookup_alter_eq by done.
  - destruct (σ !! le) as [d|]; [|done]. simpl.
    f_equal. rewrite <- list_fmap_compose. apply list_fmap_ext.
    intros _ x _. simpl. apply clamp_idem. lia.
  - done.
  - done.
  - by rewrite decide_False by (intros [|]; congruence).
Qed.

Section StoreFacts.
Variable reduce_sum : list spec_float → spec_float.
Variable reduce_mean : list spec_float → spec_float.
Variable dot : list spec_float → list spec_float → spec_float.
Variable cross_entropy : Z → tensor spec_float → tensor Z → result spec_float.
Variable bce_with_logits : tensor spec_float → tensor spec_float → Z → spec_float.

(** Without positions the filter does not touch the store. *)
Lemma filter_forward_inference_store self sv ev σ :
  (filter_forward bce_with_logits self sv ev None None σ).2 = σ.
Proof.
  unfold filter_forward.
  apply St_bind_store; [reflexivity|]. intros sl.
  apply St_bind_store; [reflexivity|]. intros el. reflexivity.
Qed.

(** With both positions, a call that returns has clamped both storages to
    [[-1, L]], [L] being the second dimension of its logits. *)
Lemma filter_forward_train_store self sv ev sp ep σ o σ' :
  filter_forward bce_with_logits self sv ev (Some sp) (Some ep) σ = (Ok o, σ') →
  ∃ L : nat,
    σ' = alter (fmap (I64.clamp (-1) (Z.of_nat L))) (loc ep)
           (alter (fmap (I64.clamp (-1) (Z.of_nat L))) (loc sp) σ) ∧
    ∃ loss, o = FilterLoss loss.
Proof.
  unfold filter_forward. intros H. st_invert.
  simpl in *. st_invert.
  repeat match goal with H : Ok _ = Ok _ |- _ => injection H as <- end.
  eauto.
Qed.

Lemma embed_context_store self cids cm σ :
  (embed_context dot bce_with_logits self cids cm σ).2 = σ.
Proof.
  unfold embed_context.
  apply St_bind_store; [reflexivity|]. intros [[start end_] span].
  unfold mbind, St_bind.
  pose proof (filter_forward_inference_store (filter self) start end_ σ) as Hf.
  destruct (filter_forward _ _ _ _ _ _ σ) as [[[sl el|l]|e] σ1]; simpl in *; by subst.
Qed.

Lemma train_store self start end_ sl al sp ep σ o σ' :
  train reduce_mean cross_entropy bce_with_logits self start end_ sl al sp ep σ
  = (Ok o, σ') →
  (∃ loss filter_loss, o = OutTrain loss filter_loss) ∧
  ∃ L : nat, ∀ l,
    σ' !! l = if decide (l = loc sp ∨ l = loc ep)
              then fmap (I64.clamp (-1) (Z.of_nat L)) <$> σ !! l
              else σ !! l.
Proof.
  unfold train.
  set (sp' := if (1 <? length (view_shape sp))%nat then squeeze_ref sp else sp).
  set (ep' := if (1 <? length (view_shape ep))%nat then squeeze_ref ep else ep).
  assert (loc sp' = loc sp) as Hsp
    by (unfold sp'; destruct (1 <? length (view_shape sp))%nat; reflexivity).
  assert (loc ep' = loc ep) as Hep
    by (unfold ep'; destruct (1 <? length (view_shape ep))%nat; reflexivity).
  clearbody sp' ep'. intros H. st_invert.
  match goal with
  | H : filter_forward _ _ _ _ _ _ _ = _ |- _ =>
      apply filter_forward_train_store in H as (L2 & -> & loss & ->)
  end.
  st_invert.
  match goal with
  | H : Z.of_nat <$> size sl 1 = Ok _ |- _ =>
      destruct (size sl 1) as [L1|]; [|discriminate]; injection H as <-
  end.
  split; [by eauto|]. exists (L1 `min` L2)%nat. intros l.
  rewrite Hsp, Hep.
  rewrite !clamped_lookup.
  destruct (decide (l = loc sp ∨ l = loc ep)); [|done].
  destruct (σ !! l) as [d|]; [|done]. simpl. f_equal.
  rewrite <- list_fmap_compose. apply list_fmap_ext. intros _ x _. simpl.
  apply clamp_clamp.
Qed.

End StoreFacts.

Section ForwardFacts.
Variable reduce_sum : list spec_float → spec_float.
Variable reduce_mean : list spec_float → spec_float.
Variable dot : list spec_float → list spec_float → spec_float.
Variable cross_entropy : Z → tensor spec_float → tensor Z → result spec_float.
Variable bce_with_logits : tensor spec_float → tensor spec_float → Z → spec_float.

#[local] Abbreviation forward' :=
  (forward reduce_sum reduce_mean dot cross_entropy bce_with_logits).

(** Only the training branch writes to the store. *)
Lemma forward_store_unchanged self cids cm qids qm sp ep σ :
  cids = None ∨ qids = None ∨ sp = None ∨ ep = None →
  (forward' self cids cm qids qm sp ep σ).2 = σ.
Proof.
  intros Hnone. destruct cids as [cids|], qids as [qids|].
  - rewrite forward_joint.
    pose proof (embed_context_store dot bce_with_logits self cids cm σ) as Hc.
    destruct (embed_context _ _ _ _ _ _) as [[[[[[start end_] span] sfl] efl]|e] σ1];
      simpl in Hc; subst σ1; [|done].
    destruct (embed_query _ _ _ _) as [[[qs qe] qspan]|e]; [|done].
    destruct (joint_logits _ _ _ _ _ _ _ _ _) as [[sl al]|e]; [|done].
    destruct Hnone as [?|[?|[->| ->]]]; try discriminate; [|destruct sp]; done.
  - unfold forward. apply St_bind_store; [apply embed_context_store|].
    by intros [[[[start end_] span] sfl] efl].
  - unfold forward. apply St_bind_store; [reflexivity|].
    by intros [[qs qe] qspan].
  - reflexivity.
Qed.

(** A joint call with at most one position tensor is the call with none. *)
Lemma forward_one_position self cids cm qids qm sp ep σ :
  sp = None ∨ ep = None →
  forward' self (Some cids) cm (Some qids) qm sp ep σ
  = forward' self (Some cids) cm (Some qids) qm None None σ.
Proof.
  intros Hnone. rewrite !forward_joint.
  destruct (embed_context _ _ _ _ _ _) as [[[[[[start end_] span] sfl] efl]|e] σ1];
    [|done].
  destruct (embed_query _ _ _ _) as [[[qs qe] qspan]|e]; [|done].
  destruct (joint_logits _ _ _ _ _ _ _ _ _) as [[sl al]|e]; [|done].
  destruct Hnone as [->| ->]; [|destruct sp]; done.
Qed.

Lemma forward_train_store self cids cm qids qm sp ep σ o σ' :
  forward' self (Some cids) cm (Some qids) qm (Some sp) (Some ep) σ = (Ok o, σ') →
  (∃ loss filter_loss, o = OutTrain loss filter_loss) ∧
  ∃ L : nat, ∀ l,
    σ' !! l = if decide (l = loc sp ∨ l = loc ep)
              then fmap (I64.clamp (-1) (Z.of_nat L)) <$> σ !! l
              else σ !! l.
Proof.
  rewrite forward_joint.
  pose proof (embed_context_store dot bce_with_logits self cids cm σ) as Hc.
  destruct (embed_context _ _ _ _ _ _) as [[[[[[start end_] span] sfl] efl]|e] σ1];
    simpl in Hc; subst σ1; [|done].
  destruct (embed_query _ _ _ _) as [[[qs qe] qspan]|e]; [|done].
  destruct (joint_logits _ _ _ _ _ _ _ _ _) as [[sl al]|e]; [|done].
  apply train_store.
Qed.

End ForwardFacts.


(** C10. With context and query given and exactly one of the two position
    tensors, [forward] does what it does with neither: the outcome and the
    final store are those of the call without positions, the store is the
    initial one (the given tensor is not clamped), every normal outcome is
    the inference triple, and the call is_ok that triple of the score
    matrix and the two filter logits whenever the embedding and scoring
    steps succeed. *)
Theorem one_position_takes_inference_branch :
  ∀ reduce_sum reduce_mean dot cross_entropy bce_with_logits
    (self : PhraseModel) (cids qids : tensor Z) (cm qm : option (tensor Z))
    (h : ref) (σ : store),
    let fwd := forward reduce_sum reduce_mean dot cross_entropy bce_with_logits
                 self (Some cids) cm (Some qids) qm in
    fwd (Some h) None σ = fwd None None σ ∧
    fwd None (Some h) σ = fwd None None σ ∧
    (fwd None None σ).2 = σ ∧
    (∀ o, (fwd None None σ).1 = Ok o →
          ∃ all_logits sfl efl, o = OutInference all_logits sfl efl) ∧
    (∀ start end_ span_logits sfl efl qs qe qspan start_logits all_logits,
        embed_context dot bce_with_logits self cids cm σ
        = (Ok (start, end_, span_logits, sfl, efl), σ) →
        embed_query dot self qids qm = Ok (qs, qe, qspan) →
        joint_logits reduce_sum self start end_ span_logits qs qe qspan cm
        = Ok (start_logits, all_logits) →
        fwd (Some h) None σ = (Ok (OutInference all_logits sfl efl), σ) ∧
        fwd None (Some h) σ = (Ok (OutInference all_logits sfl efl), σ)).
Proof.
  intros rs rm dt ce bc self cids qids cm qm h σ fwd. subst fwd.
  split; [apply forward_one_position; by right|].
  split; [apply forward_one_position; by left|].
  split; [apply forward_store_unchanged; auto|].
  split.
  - intros o. rewrite forward_joint.
    destruct (embed_context _ _ _ _ _ _) as [[[[[[start end_] span] sfl] efl]|e] σ1];
      [|discriminate].
    destruct (embed_query _ _ _ _) as [[[qs qe] qspan]|e]; [|discriminate].
    destruct (joint_logits _ _ _ _ _ _ _ _ _) as [[sl al]|e]; [|discriminate].
    simpl. intros [= <-]. eauto.
  - intros start end_ span sfl efl qs qe qspan sl al Hc Hq Hj.
    rewrite !forward_joint, Hc, Hq, Hj. done.
Qed.

Lemma one_position_takes_inference_branch_witness :
  ∃ all_logits sfl efl,
    Fixture.joint_call "ip" (Some Fixture.start_ref) None Fixture.store0
    = (Ok (OutInference all_logits sfl efl), Fixture.store0).
Proof.
  destruct (one_position_takes_inference_branch
              Fixture.reduce_sum Fixture.reduce_mean Fixture.dot
              Fixture.cross_entropy Fixture.bce_with_logits
              (Fixture.phrase_model "ip")
              Fixture.context_ids Fixture.query_ids (Some Fixture.context_mask) None
              Fixture.start_ref Fixture.store0) as (Hone & _ & Hstore & Hout & _).
  unfold Fixture.joint_call, Fixture.run_forward. rewrite Hone.
  destruct (forward _ _ _ _ _ _ _ _ _ _ None None _) as [r σ'] eqn:Hrun.
  simpl in Hstore, Hout. subst σ'.
  assert (is_ok r = true) as Hr.
  { change r with (r, Fixture.store0).1. rewrite <- Hrun. by vm_compute. }
  destruct r as [o|e]; [|discriminate].
  destruct (Hout o eq_refl) as (al & sfl & efl & ->). by exists al, sfl, efl.
Defined.

(** ** The assertion on the minimum shifted target *)

Lemma holds_bind {A B} (r : result A) (k : A → result B) :
  min_assertion_holds r → (∀ a, r = Ok a → min_assertion_holds (k a)) →
  min_assertion_holds (r ≫= k).
Proof.
  intros Hr Hk. destruct r as [a|e]; simpl; [by apply Hk|].
  intros msg H. apply (Hr msg). by injection H as ->.
Qed.

Lemma holds_fmap {A B} (f : A → B) (r : result A) :
  min_assertion_holds r → min_assertion_holds (f <$> r).
Proof.
  intros Hr. destruct r as [a|e]; [done|].
  intros msg H. apply (Hr msg). by injection H as ->.
Qed.

Lemma holds_St_bind {A B} (m : St A) (k : A → St B) σ :
  min_assertion_holds (m σ).1 →
  (∀ a σ1, m σ = (Ok a, σ1) → min_assertion_holds (k a σ1).1) →
  min_assertion_holds ((m ≫= k) σ).1.
Proof.
  intros Hm Hk. unfold mbind, St_bind.
  destruct (m σ) as [[a|e] σ1]; [by apply Hk|].
  intros msg H. apply (Hm msg). simpl in *. by injection H as ->.
Qed.

(** The operations of the tensor library raise other exceptions. *)
Ltac holds_by_cases :=
  intros msg;
  repeat first
    [ progress cbv [mbind mret result_bind result_ret rbind fmap result_fmap
                    from_option]
    | progress cbn [fst snd]
    | case_match ];
  congruence.

Lemma Ok_holds {A} (a : A) : min_assertion_holds (Ok a).
Proof. intros msg. discriminate. Qed.

Lemma size_holds {A} (t : tensor A) d : min_assertion_holds (size t d).
Proof. unfold size. holds_by_cases. Qed.

Lemma unsqueeze_holds {A} d (t : tensor A) : min_assertion_holds (unsqueeze d t).
Proof. unfold unsqueeze, norm_dim. holds_by_cases. Qed.

Lemma repeat_rows_holds {A} r (t : tensor A) : min_assertion_holds (repeat_rows r t).
Proof. unfold repeat_rows. holds_by_cases. Qed.

Lemma cat1_holds {A} (a b : tensor A) : min_assertion_holds (cat1 a b).
Proof. unfold cat1. holds_by_cases. Qed.

Lemma tmin_holds t : min_assertion_holds (tmin t).
Proof. unfold tmin. holds_by_cases. Qed.

Lemma view_rows_holds {A} (t : tensor A) : min_assertion_holds (view_rows t).
Proof. unfold view_rows. holds_by_cases. Qed.

Lemma mean_dim_holds rm d t : min_assertion_holds (mean_dim rm d t).
Proof. unfold mean_dim, size. holds_by_cases. Qed.

Lemma map2_holds {A B C} (f : A → B → C) a b : min_assertion_holds (map2 f a b).
Proof. unfold map2. holds_by_cases. Qed.

Lemma slice_dim_holds {A} d lo hi (t : tensor A) :
  min_assertion_holds (slice_dim d lo hi t).
Proof. unfold slice_dim, size. holds_by_cases. Qed.

Lemma embedding_holds i w : min_assertion_holds (embedding i w).
Proof. unfold embedding. holds_by_cases. Qed.

Lemma linear_forward_holds self x : min_assertion_holds (linear_forward self x).
Proof. unfold linear_forward. holds_by_cases. Qed.

Lemma bce_holds f x y w : min_assertion_holds (bce f x y w).
Proof. unfold bce. holds_by_cases. Qed.

Lemma clamp__holds h lo hi σ : min_assertion_holds (clamp_ h lo hi σ).1.
Proof. unfold clamp_. holds_by_cases. Qed.

Lemma deref_holds h σ : min_assertion_holds (deref h σ).1.
Proof. unfold deref. holds_by_cases. Qed.

Create HintDb holds.
#[local] Hint Resolve Ok_holds size_holds unsqueeze_holds repeat_rows_holds cat1_holds
  tmin_holds view_rows_holds mean_dim_holds map2_holds slice_dim_holds
  embedding_holds linear_forward_holds bce_holds clamp__holds deref_holds
  holds_fmap : holds.

Lemma one_hot_holds p n : min_assertion_holds (one_hot p n).
Proof. unfold one_hot. apply holds_bind; auto with holds. Qed.

Lemma span_target_holds L s e : min_assertion_holds (span_target L s e).
Proof.
  unfold span_target. repeat (apply holds_bind; [auto with holds | intros]).
  auto with holds.
Qed.

#[local] Hint Resolve one_hot_holds span_target_holds : holds.

Ltac holds_steps :=
  repeat first
    [ apply holds_St_bind;
      [ unfold lift; cbn [fst from_option]; solve [auto with holds] | intros ]
    | apply holds_bind; [ solve [auto with holds] | intros ] ].

Lemma filter_forward_holds bcel self sv ev sp ep σ :
  min_assertion_holds (filter_forward bcel self sv ev (Some sp) (Some ep) σ).1.
Proof.
  unfold filter_forward. holds_steps.
  intros msg. discriminate.
Qed.

Lemma span_select_range L (v : bool) x :
  0 <= L → L * L < 2 ^ 63 →
  -1 <= I64.add (I64.mul (if v then 1 else 0) (I64.clamp (-1) (L ^ 2) x))
                (I64.mul (I64.sub 1 (if v then 1 else 0)) (L ^ 2)) <= L ^ 2.
Proof.
  intros H0 Hb.
  pose proof (clamp_range (-1) (L ^ 2) x ltac:(nia)) as Hc.
  unfold I64.add, I64.mul, I64.sub. destruct v.
  - rewrite (wrap_small (1 * _)) by nia.
    rewrite (wrap_small (1 - 1)) by lia.
    rewrite (wrap_small ((1 - 1) * _)) by lia.
    rewrite wrap_small by nia. nia.
  - rewrite (wrap_small (0 * _)) by lia.
    rewrite (wrap_small (1 - 0)) by lia.
    rewrite (wrap_small ((1 - 0) * _)) by nia.
    rewrite wrap_small by nia. nia.
Qed.

Lemma zip_bsel_idem sh idx :
  zip_with bsel sh (zip_with bsel sh idx) = zip_with bsel sh idx.
Proof.
  revert idx. induction sh as [|d sh IH]; intros [|i idx]; simpl; try done.
  rewrite IH. f_equal. unfold bsel. by destruct (d =? 1)%nat.
Qed.

(** Reading a broadcast operand twice through the same shape is reading it
    once. *)
Lemma bidx_idem sh idx : bidx sh (bidx sh idx) = bidx sh idx.
Proof.
  unfold bidx at 1.
  replace (length (bidx sh idx) - length sh)%nat with 0%nat.
  - rewrite drop_0. unfold bidx. apply zip_bsel_idem.
  - unfold bidx. rewrite length_zip_with. lia.
Qed.

(** Whatever the position tensors hold, the flattened targets lie in
    [[-1, L^2]]. *)
Lemma span_target_range L s e t :
  0 <= L → L * L < 2 ^ 63 → span_target L s e = Ok t →
  ∀ idx, -1 <= at_ t idx <= L ^ 2.
Proof.
  intros H0 Hb. unfold span_target.
  destruct (broadcast_shapes (shape s) (shape e)) as [sh|] eqn:Hsh;
    [|by rewrite (map2_err I64.add _ e)].
  rewrite (map2_ok I64.add _ e sh) by done.
  cbn [mbind result_bind rbind].
  rewrite (map2_ok _ s e sh) by done.
  cbn [mbind result_bind rbind].
  rewrite (map2_ok I64.mul _ _ sh) by apply broadcast_same.
  cbn [mbind result_bind rbind].
  rewrite (map2_ok I64.add _ _ sh) by apply broadcast_same.
  intros [= <-] idx. cbn [at_ tmap shape]. rewrite bidx_idem.
  apply span_select_range; done.
Qed.

Lemma nth_clamped_range (L : nat) (d : list Z) i :
  -1 <= nth i (I64.clamp (-1) (Z.of_nat L) <$> d) 0 <= Z.of_nat L.
Proof.
  rewrite nth_lookup, list_lookup_fmap.
  destruct (d !! i) as [x|]; simpl; [|lia].
  apply clamp_range. lia.
Qed.

Lemma elements_range {A} (P : A → Prop) (t : tensor A) :
  (∀ idx, P (at_ t idx)) → Forall P (elements t).
Proof. intros H. unfold elements. apply Forall_fmap, Forall_forall. intros; apply H. Qed.

Section AssertionFacts.
Variable reduce_mean : list spec_float → spec_float.
Variable cross_entropy : Z → tensor spec_float → tensor Z → result spec_float.
Variable bce_with_logits : tensor spec_float → tensor spec_float → Z → spec_float.

Lemma cel_forward_holds self input target :
  (∀ ii x t, min_assertion_holds (cross_entropy ii x t)) →
  Forall (fun t => -1 <= t < 2 ^ 63 - 1) (elements target) →
  min_assertion_holds (cel_forward cross_entropy self input target).
Proof.
  intros Hce Hrange. unfold cel_forward.
  destruct (negb _); [intros msg; discriminate|].
  apply holds_bind; [auto with holds | intros dvu _].
  apply holds_bind; [auto with holds | intros rows _].
  apply holds_bind; [auto with holds | intros dv _].
  apply holds_bind; [auto with holds | intros new_input _].
  apply holds_bind; [auto with holds | intros m Hm].
  apply tmin_ok in Hm as [Hm _]. rewrite elements_tmap in Hm.
  apply list_elem_of_fmap in Hm as (t & -> & Ht).
  rewrite Forall_forall in Hrange. specialize (Hrange t Ht).
  unfold I64.add. rewrite wrap_small by lia.
  assert ((0 <=? t + 1) = true) as -> by (apply Z.leb_le; lia).
  apply Hce.
Qed.

Lemma train_holds self start end_ sl al sp ep σ :
  (∀ ii x t, min_assertion_holds (cross_entropy ii x t)) →
  (∀ L : nat, shape sl !! 1%nat = Some L → Z.of_nat L * Z.of_nat L < 2 ^ 63 - 1) →
  min_assertion_holds
    (train reduce_mean cross_entropy bce_with_logits self start end_ sl al sp ep σ).1.
Proof.
  intros Hce Hbound. unfold train.
  set (sp' := if (1 <? length (view_shape sp))%nat then squeeze_ref sp else sp).
  set (ep' := if (1 <? length (view_shape ep))%nat then squeeze_ref ep else ep).
  clearbody sp' ep'.
  apply holds_St_bind; [unfold lift; cbn [fst]; auto with holds|].
  intros L σ1 HL. apply lift_ok in HL as [HL ->].
  unfold size in HL. destruct (shape sl !! 1%nat) as [L1|] eqn:Hsl; [|discriminate].
  injection HL as <-. specialize (Hbound L1 eq_refl).
  apply holds_St_bind; [auto with holds|]. intros u1 σ1 H1.
  apply clamp__ok in H1 as [-> _].
  apply holds_St_bind; [auto with holds|]. intros u2 σ2 H2.
  apply clamp__ok in H2 as [-> _].
  apply holds_St_bind; [auto with holds|]. intros s σ3 Hs.
  apply deref_ok in Hs as [-> (ds & Hds & ->)].
  apply holds_St_bind; [auto with holds|]. intros e σ4 He.
  apply deref_ok in He as [-> (de & Hde & ->)].
  rewrite clamped_lookup in Hds, Hde.
  rewrite decide_True in Hds by auto. rewrite decide_True in Hde by auto.
  apply fmap_Some in Hds as (ds0 & _ & ->). apply fmap_Some in Hde as (de0 & _ & ->).
  assert (HL1 : Z.of_nat L1 <= Z.of_nat L1 * Z.of_nat L1) by nia.
  assert (Hin : ∀ x : Z, -1 <= x <= Z.of_nat L1 → -1 <= x < 2 ^ 63 - 1) by (intros; lia).
  apply holds_St_bind; [unfold lift; cbn [fst]; auto with holds|].
  intros target σ5 Ht. apply lift_ok in Ht as [Ht ->].
  pose proof (span_target_range (Z.of_nat L1) _ _ _ ltac:(lia) ltac:(lia) Ht) as Htr.
  apply holds_St_bind.
  { unfold lift; cbn [fst]. apply holds_bind; [auto with holds | intros flat _].
    apply cel_forward_holds; [done|]. apply elements_range. intros idx.
    specialize (Htr idx). nia. }
  intros true_loss σ6 _.
  apply holds_St_bind.
  { unfold lift; cbn [fst]. apply holds_bind; [auto with holds | intros pooled _].
    apply cel_forward_holds; [done|]. apply elements_range. intros idx.
    apply Hin, nth_clamped_range. }
  intros start_loss σ7 _.
  apply holds_St_bind.
  { unfold lift; cbn [fst]. apply holds_bind; [auto with holds | intros pooled _].
    apply cel_forward_holds; [done|]. apply elements_range. intros idx.
    apply Hin, nth_clamped_range. }
  intros end_loss σ8 _.
  apply holds_St_bind; [apply filter_forward_holds|].
  intros [? ?|?] σ9 _ msg; discriminate.
Qed.

End AssertionFacts.

(** C6. Provided the library's own cross-entropy does not raise it, the
    assertion on the minimum shifted target never fails when every target is
    at least [-1] (and below the largest [int64], so that the shift does not
    wrap). In the training branch of [PhraseModel.forward] this holds at all
    three calls of the loss, whatever the caller's position tensors contain:
    the positions are clamped to [[-1, L_c]] and the flattened target lies
    in [[-1, L_c^2]]; so the branch never ends in that assertion failure. *)
Theorem min_assertion_unreachable :
  ∀ (cross_entropy : Z → tensor spec_float → tensor Z → result spec_float),
    (∀ ii x t, min_assertion_holds (cross_entropy ii x t)) →
    (∀ self input target,
        Forall (fun t => -1 <= t < 2 ^ 63 - 1) (elements target) →
        min_assertion_holds (cel_forward cross_entropy self input target)) ∧
    (∀ reduce_mean bce_with_logits self start end_ start_logits all_logits
       start_positions end_positions σ,
        (∀ L : nat, shape start_logits !! 1%nat = Some L →
                    Z.of_nat L * Z.of_nat L < 2 ^ 63 - 1) →
        min_assertion_holds
          (train reduce_mean cross_entropy bce_with_logits self start end_
             start_logits all_logits start_positions end_positions σ).1).
Proof.
  intros ce Hce. split.
  - intros. by apply cel_forward_holds.
  - intros. by apply train_holds.
Qed.

(** ** The boundary filter in training mode *)

Lemma clamp__run h lo hi σ :
  is_Some (σ !! loc h) →
  clamp_ h lo hi σ = (Ok (), alter (fmap (I64.clamp lo hi)) (loc h) σ).
Proof.
  intros [d Hd]. destruct (clamp_ h lo hi σ) as [[[]|e] σ1] eqn:H.
  - by apply clamp__ok in H as [-> _].
  - unfold clamp_ in H. by rewrite Hd in H.
Qed.

Lemma deref_run h σ d :
  σ !! loc h = Some d →
  deref h σ
  = (Ok (Tensor (view_shape h) (fun idx => nth (ravel (view_shape h) idx) d 0)), σ).
Proof. intros H. unfold deref. by rewrite H. Qed.

Lemma slice_range_inner (L : nat) :
  slice_range (L + 2) (Some 1) (Some (-1)) = (1%nat, L).
Proof.
  unfold slice_range, slice_bound. cbn [from_option].
  change (1 <? 0) with false. change (-1 <? 0) with true. cbv iota.
  f_equal; lia.
Qed.

(** The rows of the identity matrix of size [L+2] selected by [p+1], without
    their first and last columns: row [b] is one-hot at [p[b]] when
    [0 <= p[b] < L] and all zero when [p[b]] is [-1] or [L]. *)
Lemma one_hot_run (p : tensor Z) (B L : nat) :
  shape p = [B] → (∀ idx, -1 <= at_ p idx <= Z.of_nat L) →
  Z.of_nat L + 1 < 2 ^ 63 →
  ∃ t, one_hot p L = Ok t ∧ shape t = [B; L] ∧
       ∀ b j, at_ t [b; j]
              = if decide (at_ p [b] = Z.of_nat j) then F32.one else F32.zero.
Proof.
  intros Hp Hrange HL. unfold one_hot, embedding. cbn [shape eye].
  assert (Hall : forallb (fun i => (0 <=? i) && (i <? Z.of_nat (L + 2)))
                   (elements (tmap (fun q => I64.add q 1) p)) = true).
  { apply forallb_forall. intros i Hi. apply list_elem_of_In in Hi.
    rewrite elements_tmap in Hi. apply list_elem_of_fmap in Hi as (q & -> & Hq).
    unfold elements in Hq. apply list_elem_of_fmap in Hq as (idx & -> & _).
    specialize (Hrange idx). unfold I64.add. rewrite wrap_small by lia.
    apply andb_true_iff. split; [apply Z.leb_le | apply Z.ltb_lt]; lia. }
  rewrite Hall. cbn [mbind result_bind rbind].
  unfold slice_dim, size. cbn [shape tmap]. rewrite Hp. cbn [app lookup list_lookup].
  cbn [mbind result_bind rbind]. rewrite slice_range_inner.
  eexists. split; [reflexivity|]. split; [reflexivity|].
  intros b j. cbn. specialize (Hrange [b]).
  unfold I64.add. rewrite wrap_small by lia.
  destruct (decide (at_ p [b] = Z.of_nat j)) as [E|E].
  - rewrite E. replace (Z.to_nat (Z.of_nat j + 1)) with (S j) by lia.
    by rewrite Nat.eqb_refl.
  - destruct (Nat.eqb_spec (Z.to_nat (at_ p [b] + 1)) (S j)); [lia | done].
Qed.

Lemma linear_forward_run (self : Linear) (x : tensor spec_float) (B L k : nat) :
  shape x = [B; L; k] → in_features self = k →
  ∃ t, squeeze_last <$> linear_forward self x = Ok t ∧ shape t = [B; L].
Proof.
  intros Hx Hk. unfold linear_forward. rewrite Hx, Hk. cbn [reverse rev_append].
  rewrite Nat.eqb_refl. eexists. split; reflexivity.
Qed.


(** ** The decomposition of the encoder output *)

Lemma chunk2_even {A} (d h : nat) (t : tensor A) :
  shape t !! d = Some (2 * h)%nat →
  chunk2 d t = Ok [narrow d 0 h t; narrow d h h t].
Proof.
  intros H. unfold chunk2, size. rewrite H. cbn [mbind result_bind rbind mret result_ret].
  destruct h as [|h]; [reflexivity|].
  assert (((2 * S h + 1) / 2)%nat = S h) as ->
    by (symmetry; apply Nat.div_unique with 1%nat; lia).
  replace (2 * S h - S h)%nat with (S h) by lia.
  destruct (Nat.eqb_spec (2 * S h) 0); [lia|].
  destruct (Nat.leb_spec (2 * S h) (S h)); [lia|]. reflexivity.
Qed.

Lemma slice_range_prefix (n k : nat) :
  (k <= n)%nat → slice_range n None (Some (Z.of_nat k)) = (0%nat, k).
Proof.
  intros H. unfold slice_range, slice_bound. cbn [from_option].
  destruct (Z.ltb_spec (Z.of_nat k) 0); [lia|]. f_equal; lia.
Qed.

Lemma slice_range_suffix (n k : nat) :
  (k <= n)%nat → slice_range n (Some (Z.of_nat k)) None = (k, (n - k)%nat).
Proof.
  intros H. unfold slice_range, slice_bound. cbn [from_option].
  destruct (Z.ltb_spec (Z.of_nat k) 0); [lia|]. f_equal; lia.
Qed.

Section DecomposerFacts.
Variable dot : list spec_float → list spec_float → spec_float.

(** The first steps of [encode_phrase] on a layer of shape
    [(B, L, 2h + 2g)] with phrase size [2h + 1]: the four chunks. *)
Lemma encode_phrase_chunks layer (B L h g : nat) (get_first_only : bool) :
  shape layer = [B; L; (2 * h + 2 * g)%nat] →
  encode_phrase dot layer (2 * Z.of_nat h + 1) get_first_only =
    (let start := narrow 2 0 h (narrow 2 0 (2 * h) layer) in
     let end_ := narrow 2 h h (narrow 2 0 (2 * h) layer) in
     let span_start := narrow 2 0 g (narrow 2 (2 * h) (2 * g) layer) in
     let span_end := narrow 2 g g (narrow 2 (2 * h) (2 * g) layer) in
     span_logits ← transpose12 span_end ≫= matmul dot span_start;
     if get_first_only then
       start ← slice_dim 1 None (Some 1) start;
       end_ ← slice_dim 1 None (Some 1) end_;
       span_logits ← slice_dim 1 None (Some 1) span_logits ≫= slice_dim 2 None (Some 1);
       mret (start, end_, span_logits)
     else mret (start, end_, span_logits)).
Proof.
  intros Hsh.
  assert (Hb : slice_dim 2 None (Some (2 * Z.of_nat h + 1 - 1)) layer
               = Ok (narrow 2 0 (2 * h) layer)).
  { unfold slice_dim, size. rewrite Hsh. cbn [lookup list_lookup mbind result_bind rbind].
    replace (2 * Z.of_nat h + 1 - 1) with (Z.of_nat (2 * h)) by lia.
    rewrite slice_range_prefix by lia. reflexivity. }
  assert (Hs : slice_dim 2 (Some (2 * Z.of_nat h + 1 - 1)) None layer
               = Ok (narrow 2 (2 * h) (2 * g) layer)).
  { unfold slice_dim, size. rewrite Hsh. cbn [lookup list_lookup mbind result_bind rbind].
    replace (2 * Z.of_nat h + 1 - 1) with (Z.of_nat (2 * h)) by lia.
    rewrite slice_range_suffix by lia.
    replace (2 * h + 2 * g - 2 * h)%nat with (2 * g)%nat by lia. reflexivity. }
  unfold encode_phrase.
  assert (size layer 2 = Ok (2 * h + 2 * g)%nat) as ->
    by (unfold size; by rewrite Hsh).
  cbn [mbind result_bind rbind]. rewrite Hb, Hs. cbn [mbind result_bind rbind].
  rewrite (chunk2_even 2 h (narrow 2 0 (2 * h) layer)) by (cbn [narrow shape]; rewrite Hsh; reflexivity).
  rewrite (chunk2_even 2 g (narrow 2 (2 * h) (2 * g) layer)) by (cbn [narrow shape]; rewrite Hsh; reflexivity).
  reflexivity.
Qed.

Lemma encode_phrase_run layer (B L h g : nat) :
  shape layer = [B; L; (2 * h + 2 * g)%nat] →
  ∃ start end_ span_logits,
    encode_phrase dot layer (2 * Z.of_nat h + 1) false
    = Ok (start, end_, span_logits) ∧
    shape start = [B; L; h] ∧ shape end_ = [B; L; h] ∧
    shape span_logits = [B; L; L] ∧
    (∀ b i c, at_ start [b; i; c] = at_ layer [b; i; c] ∧
              at_ end_ [b; i; c] = at_ layer [b; i; (h + c)%nat]) ∧
    (∀ b i j, (b < B)%nat →
       at_ span_logits [b; i; j]
       = dot ((fun x => at_ layer [b; i; (2 * h + x)%nat]) <$> seq 0 g)
             ((fun x => at_ layer [b; j; (2 * h + (g + x))%nat]) <$> seq 0 g)) ∧
    ((1 <= L)%nat →
     ∃ qs qe qspan,
       encode_phrase dot layer (2 * Z.of_nat h + 1) true = Ok (qs, qe, qspan) ∧
       shape qs = [B; 1%nat; h] ∧ shape qe = [B; 1%nat; h] ∧
       shape qspan = [B; 1%nat; 1%nat] ∧
       (∀ b c, at_ qs [b; 0%nat; c] = at_ start [b; 0%nat; c] ∧
               at_ qe [b; 0%nat; c] = at_ end_ [b; 0%nat; c]) ∧
       (∀ b, at_ qspan [b; 0%nat; 0%nat] = at_ span_logits [b; 0%nat; 0%nat])).
Proof.
  intros Hsh.
  assert (HB : broadcast_shapes [B] [B] = Some [B]) by bdims.
  rewrite !(encode_phrase_chunks layer B L h g) by done. cbv zeta.
  assert (Hmm : transpose12 (narrow 2 g g (narrow 2 (2 * h) (2 * g) layer))
                ≫= matmul dot (narrow 2 0 g (narrow 2 (2 * h) (2 * g) layer))
                = Ok (Tensor [B; L; L]
                        (fun idx =>
                           let ib := nth 0 idx 0%nat in
                           let i := nth 1 idx 0%nat in
                           let j := nth 2 idx 0%nat in
                           dot ((fun x => at_ layer [bsel B ib; i; (2 * h + (0 + x))%nat])
                                  <$> seq 0 g)
                               ((fun x => at_ layer [bsel B ib; j; (2 * h + (g + x))%nat])
                                  <$> seq 0 g)))).
  { unfold transpose12. cbn [narrow shape]. rewrite Hsh.
    cbn [list_insert insert mbind result_bind rbind].
    unfold matmul. cbn [shape narrow]. rewrite Hsh.
    cbn [list_insert insert]. rewrite Nat.eqb_refl, HB. reflexivity. }
  rewrite Hmm. cbn [mbind result_bind rbind mret result_ret].
  do 3 eexists. split; [reflexivity|].
  split; [cbn [narrow shape]; rewrite Hsh; reflexivity|].
  split; [cbn [narrow shape]; rewrite Hsh; reflexivity|].
  split; [reflexivity|].
  split; [intros b i c; split; cbn; do 3 f_equal; lia|].
  split.
  { intros b i j Hlt. cbn [at_ nth]. rewrite bsel_lt by done. reflexivity. }
  intros HL.
  unfold slice_dim, size. cbn [narrow shape]. rewrite Hsh.
  cbn [list_insert insert lookup list_lookup mbind result_bind rbind].
  change (Some 1) with (Some (Z.of_nat 1)). rewrite !slice_range_prefix by lia.
  cbn [mbind result_bind rbind mret result_ret narrow shape lookup list_lookup
       list_insert insert].
  rewrite !slice_range_prefix by lia.
  do 3 eexists. split; [reflexivity|].
  split; [cbn [narrow shape]; rewrite Hsh; reflexivity|].
  split; [cbn [narrow shape]; rewrite Hsh; reflexivity|].
  split; [reflexivity|].
  split; [intros b c; split; reflexivity | intros b; reflexivity].
Qed.

End DecomposerFacts.

(** C7 (as the code has it). For a layer of shape [(B, L, D)] and an odd
    phrase size [P >= 1] with [P - 1 <= D] and [D - (P - 1)] even,
    [encode_phrase] returns [start] and [end] of shape [(B, L, (P-1)/2)],
    the first and the second half of the leading [P - 1] features, and
    [span_logits] of shape [(B, L, L)]. With [get_first_only] and [L >= 1]
    it returns their restrictions to the first position: [start] and [end]
    of shape [(B, 1, (P-1)/2)] and the [[0,0]] entry of [span_logits], of
    shape [(B, 1, 1)]. The function is pure: it has no access to the store
    and returns new tensors. *)
Theorem encode_phrase_shapes :
  ∀ (dot : list spec_float → list spec_float → spec_float)
    (layer : tensor spec_float) (P : Z) (B L D : nat),
    shape layer = [B; L; D] →
    Z.odd P = true → 1 <= P → P - 1 <= Z.of_nat D →
    Z.even (Z.of_nat D - (P - 1)) = true →
    let h := Z.to_nat ((P - 1) / 2) in
    ∃ start end_ span_logits,
      encode_phrase dot layer P false = Ok (start, end_, span_logits) ∧
      shape start = [B; L; h] ∧ shape end_ = [B; L; h] ∧
      shape span_logits = [B; L; L] ∧
      (∀ b i c, at_ start [b; i; c] = at_ layer [b; i; c] ∧
                at_ end_ [b; i; c] = at_ layer [b; i; (h + c)%nat]) ∧
      ((1 <= L)%nat →
       ∃ qs qe qspan,
         encode_phrase dot layer P true = Ok (qs, qe, qspan) ∧
         shape qs = [B; 1%nat; h] ∧ shape qe = [B; 1%nat; h] ∧
         shape qspan = [B; 1%nat; 1%nat] ∧
         (∀ b c, at_ qs [b; 0%nat; c] = at_ start [b; 0%nat; c] ∧
                 at_ qe [b; 0%nat; c] = at_ end_ [b; 0%nat; c]) ∧
         (∀ b, at_ qspan [b; 0%nat; 0%nat] = at_ span_logits [b; 0%nat; 0%nat])).
Proof.
  intros dot layer P B L D Hsh Hodd HP HD Heven h.
  apply Z.odd_spec in Hodd as [p Hp]. apply Z.even_spec in Heven as [q Hq].
  assert (Hh : h = Z.to_nat p).
  { subst h. f_equal. rewrite Hp. replace (2 * p + 1 - 1) with (p * 2) by lia.
    apply Z.div_mul. lia. }
  assert (HPh : P = 2 * Z.of_nat h + 1) by lia.
  assert (HDg : D = (2 * h + 2 * Z.to_nat q)%nat) by lia.
  rewrite HDg in Hsh. rewrite HPh.
  destruct (encode_phrase_run dot layer B L h (Z.to_nat q) Hsh)
    as (start & end_ & span & Hrun & Ss & Se & Sp & Hat & _ & Hfirst).
  exists start, end_, span. repeat (split; [done|]). exact Hfirst.
Qed.

Lemma encode_phrase_shapes_witness :
  shape (Fixture.zeros [1; 2; 4]%nat) = [1; 2; 4]%nat ∧
  Z.odd 3 = true ∧ 1 <= 3 ∧ 3 - 1 <= Z.of_nat 4 ∧
  Z.even (Z.of_nat 4 - (3 - 1)) = true ∧
  ∃ start end_ span_logits,
    encode_phrase Fixture.dot (Fixture.zeros [1; 2; 4]%nat) 3 false
    = Ok (start, end_, span_logits) ∧
    shape start = [1; 2; 1]%nat ∧ shape end_ = [1; 2; 1]%nat ∧
    shape span_logits = [1; 2; 2]%nat.
Proof.
  split; [reflexivity|]. split; [reflexivity|]. split; [lia|].
  split; [simpl; lia|]. split; [reflexivity|].
  destruct (encode_phrase_shapes Fixture.dot (Fixture.zeros [1; 2; 4]%nat)
              3 1 2 4 eq_refl eq_refl ltac:(lia) ltac:(simpl; lia) eq_refl)
    as (start & end_ & span & H & Ss & Se & Sp & _).
  exists start, end_, span. repeat split; assumption.
Defined.

(** Hidden width 5 with phrase size 3: the span region has width 3, its two
    chunks have widths 2 and 1, and the matrix product raises. Hidden width
    3 with phrase size 3: the span region has a single chunk, and the tuple
    assignment raises. A sequence of length 0 has no first position. *)
Lemma encode_phrase_odd_width_counterexample :
  encode_phrase Fixture.dot (Fixture.zeros [1; 2; 5]%nat) 3 false
  = Err RuntimeError ∧
  encode_phrase Fixture.dot (Fixture.zeros [1; 2; 3]%nat) 3 false
  = Err (ValueError "not enough values to unpack") ∧
  (λ r, shape r.1.1) <$> encode_phrase Fixture.dot (Fixture.zeros [1; 0; 4]%nat) 3 true
  = Ok [1; 0; 1]%nat.
Proof. repeat split; reflexivity. Qed.

(** ** The score matrix *)

Section ScoreFacts.
Variable reduce_sum : list spec_float → spec_float.

Lemma sum_last_shape t sh k :
  shape t = sh ++ [k] → shape (sum_last reduce_sum t) = sh.
Proof.
  intros H. unfold sum_last. rewrite H, reverse_snoc. cbn [shape].
  apply reverse_involutive.
Qed.

Lemma get_logits_ip_shape a b sh k :
  broadcast_shapes (shape a) (shape b) = Some (sh ++ [k]) →
  ∃ t, get_logits reduce_sum a b "ip" = Ok t ∧ shape t = sh.
Proof.
  intros H. rewrite get_logits_ip, (map2_ok _ _ _ _ H).
  eexists. split; [reflexivity|]. by apply (sum_last_shape _ sh k).
Qed.

(** Both metrics return a tensor of the leading dimensions of the context
    operand when the query operand broadcasts against it. *)
Lemma get_logits_shape a b m sh shq k :
  m = "ip" ∨ m = "l2" →
  shape a = sh ++ [k] → shape b = shq ++ [k] →
  broadcast_shapes (sh ++ [k]) (shq ++ [k]) = Some (sh ++ [k]) →
  broadcast_shapes sh shq = Some sh →
  ∃ t, get_logits reduce_sum a b m = Ok t ∧ shape t = sh.
Proof.
  intros [-> | ->] Ha Hb Hab Hq.
  - apply (get_logits_ip_shape a b sh k). by rewrite Ha, Hb.
  - rewrite get_logits_l2.
    destruct (get_logits_ip_shape a b sh k) as (ab & -> & Sab);
      [by rewrite Ha, Hb|].
    destruct (get_logits_ip_shape a a sh k) as (aa & -> & Saa);
      [rewrite Ha; apply broadcast_same|].
    destruct (get_logits_ip_shape b b shq k) as (bb & -> & Sbb);
      [rewrite Hb; apply broadcast_same|].
    cbn [mbind result_bind rbind].
    rewrite (map2_ok _ aa bb sh) by (by rewrite Saa, Sbb).
    cbn [mbind result_bind rbind].
    rewrite (map2_ok _ ab _ sh) by (cbn [shape tmap]; rewrite Sab; apply broadcast_same).
    eexists. split; reflexivity.
Qed.

End ScoreFacts.

(** The mask term of a pair of mask bits. *)
Lemma mask_term_values :
  F32.mul (F32.sub F32.one (F32.of_Z (I64.band 1 1))) F32.neg_1e9 = F32.neg_zero ∧
  F32.mul (F32.sub F32.one (F32.of_Z (I64.band 0 1))) F32.neg_1e9 = F32.neg_1e9 ∧
  F32.mul (F32.sub F32.one (F32.of_Z (I64.band 1 0))) F32.neg_1e9 = F32.neg_1e9 ∧
  F32.mul (F32.sub F32.one (F32.of_Z (I64.band 0 0))) F32.neg_1e9 = F32.neg_1e9.
Proof. repeat split; reflexivity. Qed.

Lemma unsqueeze_matrix {A} (t : tensor A) (B L : nat) :
  shape t = [B; L] →
  unsqueeze 1 t = Ok (Tensor [B; 1%nat; L] (fun idx => at_ t (take 1 idx ++ drop 2 idx))) ∧
  unsqueeze 2 t = Ok (Tensor [B; L; 1%nat] (fun idx => at_ t (take 2 idx ++ drop 3 idx))) ∧
  unsqueeze (-1) t
  = Ok (Tensor [B; L; 1%nat] (fun idx => at_ t (take 2 idx ++ drop 3 idx))).
Proof.
  intros H. unfold unsqueeze, norm_dim, rank. rewrite H. repeat split; reflexivity.
Qed.

Lemma exp_mask_run (cm : tensor Z) (B L : nat) :
  shape cm = [B; L] →
  ∃ mask, exp_mask (Some cm) = Ok mask ∧ shape mask = [B; L; L] ∧
    ∀ b i j, (b < B)%nat → (i < L)%nat → (j < L)%nat →
      at_ mask [b; i; j]
      = F32.mul (F32.sub F32.one
                   (F32.of_Z (I64.band (at_ cm [b; j]) (at_ cm [b; i]))))
                F32.neg_1e9.
Proof.
  intros Hcm. destruct (unsqueeze_matrix cm B L Hcm) as (H1 & _ & H2).
  unfold exp_mask. cbn [from_option mbind result_bind rbind].
  rewrite H1, H2. cbn [mbind result_bind rbind].
  rewrite (map2_ok _ _ _ [B; L; L]) by (cbn [shape]; bdims).
  eexists. split; [reflexivity|]. split; [reflexivity|].
  intros b i j Hb Hi Hj. cbn. unfold bidx. cbn.
  rewrite !(bsel_lt B b), (bsel_lt L i), (bsel_lt L j) by done. reflexivity.
Qed.

Lemma score_matrix_run (sl el cl : tensor spec_float) (cm : tensor Z) (B L : nat) :
  shape sl = [B; L] → shape el = [B; L] → shape cl = [B; L; L] →
  shape cm = [B; L] →
  ∃ all_logits mask,
    score_matrix sl el cl (Some cm) = Ok all_logits ∧
    exp_mask (Some cm) = Ok mask ∧
    shape all_logits = [B; L; L] ∧
    ∀ b i j, (b < B)%nat → (i < L)%nat → (j < L)%nat →
      at_ all_logits [b; i; j]
      = F32.add (F32.add (F32.add (at_ sl [b; i]) (at_ el [b; j])) (at_ cl [b; i; j]))
                (at_ mask [b; i; j]).
Proof.
  intros Hsl Hel Hcl Hcm.
  destruct (exp_mask_run cm B L Hcm) as (mask & Hmask & Smask & _).
  destruct (unsqueeze_matrix sl B L Hsl) as (_ & Hs2 & _).
  destruct (unsqueeze_matrix el B L Hel) as (He1 & _ & _).
  unfold score_matrix. rewrite Hs2, He1, Hmask.
  cbn [mbind result_bind rbind].
  rewrite (map2_ok _ _ _ [B; L; L]) by (cbn [shape]; bdims).
  cbn [mbind result_bind rbind].
  rewrite (map2_ok _ _ cl [B; L; L]) by (cbn [shape]; rewrite Hcl; bdims).
  cbn [mbind result_bind rbind].
  rewrite (map2_ok _ _ mask [B; L; L]) by (cbn [shape]; rewrite Smask; bdims).
  do 2 eexists. split; [reflexivity|]. split; [reflexivity|]. split; [reflexivity|].
  intros b i j Hb Hi Hj. cbn [at_ shape]. rewrite Hcl, Smask. unfold bidx. cbn.
  rewrite !(bsel_lt B b), !(bsel_lt L i), !(bsel_lt L j) by done. reflexivity.
Qed.

(** C4. In a joint call with a supported metric, on a context decomposed
    into [start], [end] of shape [(B, L, k)] and [span_logits] of shape
    [(B, L, L)], a query decomposed into shapes [(B, 1, k)] and [(B, 1, 1)],
    and a context mask of shape [(B, L)] with entries 0 and 1: the score
    matrix has shape [(B, L, L)] and its entry [(b, i, j)] is
    [((start_logits[b,i] + end_logits[b,j]) + cross_logits[b,i,j]) + m],
    where the mask term [m] is exactly [-1e9] unless both [context_mask[b,i]]
    and [context_mask[b,j]] are 1, and is a zero (the negative zero, which
    leaves the sum unchanged) when both are. *)
Theorem joint_logits_masked_sum :
  ∀ (reduce_sum : list spec_float → spec_float) (self : PhraseModel)
    (start end_ span_logits query_start query_end q_span_logits : tensor spec_float)
    (context_mask : tensor Z) (B L k : nat),
    metric self = "ip" ∨ metric self = "l2" →
    shape start = [B; L; k] → shape end_ = [B; L; k] →
    shape span_logits = [B; L; L] →
    shape query_start = [B; 1%nat; k] → shape query_end = [B; 1%nat; k] →
    shape q_span_logits = [B; 1%nat; 1%nat] →
    shape context_mask = [B; L] →
    (∀ b i, (b < B)%nat → (i < L)%nat →
            at_ context_mask [b; i] = 0 ∨ at_ context_mask [b; i] = 1) →
    ∃ start_logits end_logits cross_logits all_logits,
      get_logits reduce_sum start query_start (metric self) = Ok start_logits ∧
      get_logits reduce_sum end_ query_end (metric self) = Ok end_logits ∧
      (sl ← unsqueeze (-1) span_logits;
       ql ← unsqueeze (-1) q_span_logits;
       get_logits reduce_sum sl ql (metric self)) = Ok cross_logits ∧
      joint_logits reduce_sum self start end_ span_logits
        query_start query_end q_span_logits (Some context_mask)
      = Ok (start_logits, all_logits) ∧
      shape all_logits = [B; L; L] ∧
      ∀ b i j, (b < B)%nat → (i < L)%nat → (j < L)%nat →
        let sum := F32.add (F32.add (at_ start_logits [b; i]) (at_ end_logits [b; j]))
                           (at_ cross_logits [b; i; j]) in
        (at_ context_mask [b; i] = 1 ∧ at_ context_mask [b; j] = 1 →
         at_ all_logits [b; i; j] = F32.add sum F32.neg_zero ∧
         SFeqb F32.neg_zero F32.zero = true ∧
         at_ all_logits [b; i; j] = sum) ∧
        (¬ (at_ context_mask [b; i] = 1 ∧ at_ context_mask [b; j] = 1) →
         at_ all_logits [b; i; j] = F32.add sum F32.neg_1e9).
Proof.
  intros rs self start end_ span qs qe qspan cm B L k Hm
    Hstart Hend Hspan Hqs Hqe Hqspan Hcm Hbits.
  destruct (get_logits_shape rs start qs (metric self) [B; L] [B; 1%nat] k)
    as (sl & Hsl & Ssl); [done | done | done | bdims | bdims |].
  destruct (get_logits_shape rs end_ qe (metric self) [B; L] [B; 1%nat] k)
    as (el & Hel & Sel); [done | done | done | bdims | bdims |].
  assert (Hu1 : unsqueeze (-1) span
                = Ok (Tensor [B; L; L; 1%nat] (fun idx => at_ span (take 3 idx ++ drop 4 idx)))).
  { unfold unsqueeze, norm_dim, rank. rewrite Hspan. reflexivity. }
  assert (Hu2 : unsqueeze (-1) qspan
                = Ok (Tensor [B; 1%nat; 1%nat; 1%nat]
                        (fun idx => at_ qspan (take 3 idx ++ drop 4 idx)))).
  { unfold unsqueeze, norm_dim, rank. rewrite Hqspan. reflexivity. }
  destruct (get_logits_shape rs
              (Tensor [B; L; L; 1%nat] (fun idx => at_ span (take 3 idx ++ drop 4 idx)))
              (Tensor [B; 1%nat; 1%nat; 1%nat]
                 (fun idx => at_ qspan (take 3 idx ++ drop 4 idx)))
              (metric self) [B; L; L] [B; 1%nat; 1%nat] 1)
    as (cl & Hcl & Scl); [done | done | done | bdims | bdims |].
  destruct (score_matrix_run sl el cl cm B L Ssl Sel Scl Hcm)
    as (al & mask & Hal & Hmask & Sal & Hat).
  destruct (exp_mask_run cm B L Hcm) as (mask' & Hmask' & _ & Hmat).
  rewrite Hmask in Hmask'. injection Hmask' as <-.
  exists sl, el, cl, al.
  split; [done|]. split; [done|].
  split; [rewrite Hu1, Hu2; exact Hcl|].
  split.
  { unfold joint_logits. rewrite Hsl, Hel, Hu1, Hu2.
    cbn [mbind result_bind rbind]. rewrite Hcl.
    cbn [mbind result_bind rbind]. rewrite Hal. reflexivity. }
  split; [done|].
  intros b i j Hb Hi Hj sum.
  rewrite (Hat b i j Hb Hi Hj), (Hmat b i j Hb Hi Hj). fold sum.
  destruct mask_term_values as (H11 & H01 & H10 & H00). split.
  - intros [-> ->]. rewrite H11. split; [done|]. split; [reflexivity|].
    apply add_neg_zero.
  - intros Hnot.
    destruct (Hbits b i Hb Hi) as [Ei | Ei], (Hbits b j Hb Hj) as [Ej | Ej];
      rewrite Ei, Ej, ?H00, ?H01, ?H10; try reflexivity.
    exfalso. by apply Hnot.
Qed.

(** ** The theorems at work on the small instance *)

Lemma min_assertion_unreachable_witness :
  (∀ ii x t, min_assertion_holds (Fixture.cross_entropy ii x t)) ∧
  Forall (fun t => -1 <= t < 2 ^ 63 - 1) (elements Fixture.minus_one) ∧
  min_assertion_holds
    (cel_forward Fixture.cross_entropy (cel_init Fixture.default1 2)
       Fixture.logits12 Fixture.minus_one) ∧
  min_assertion_holds
    (train Fixture.reduce_mean Fixture.cross_entropy Fixture.bce_with_logits
       (Fixture.phrase_model "ip") (Fixture.zeros [1; 2; 1]%nat) (Fixture.zeros [1; 2; 1]%nat)
       Fixture.logits12 (Fixture.zeros [1; 2; 2]%nat)
       Fixture.start_ref Fixture.end_ref Fixture.store0).1 ∧
  is_ok
    (train Fixture.reduce_mean Fixture.cross_entropy Fixture.bce_with_logits
       (Fixture.phrase_model "ip") (Fixture.zeros [1; 2; 1]%nat) (Fixture.zeros [1; 2; 1]%nat)
       Fixture.logits12 (Fixture.zeros [1; 2; 2]%nat)
       Fixture.start_ref Fixture.end_ref Fixture.store0).1 = true.
Proof.
  assert (Hce : ∀ ii x t, min_assertion_holds (Fixture.cross_entropy ii x t))
    by (intros ii x t msg; discriminate).
  destruct (min_assertion_unreachable Fixture.cross_entropy Hce) as [Hloss Htrain].
  split; [exact Hce|].
  assert (Hrange : Forall (fun t => -1 <= t < 2 ^ 63 - 1) (elements Fixture.minus_one))
    by (repeat constructor; vm_compute; discriminate).
  split; [exact Hrange|]. split; [by apply Hloss|]. split.
  - apply Htrain. intros L [= <-]. simpl. lia.
  - by vm_compute.
Defined.


Lemma joint_logits_masked_sum_witness :
  (metric (Fixture.phrase_model "ip") = "ip" ∨ metric (Fixture.phrase_model "ip") = "l2") ∧
  shape Sample.start_vecs = [1; 2; 1]%nat ∧ shape Sample.end_vecs = [1; 2; 1]%nat ∧
  shape Sample.span_scores = [1; 2; 2]%nat ∧
  shape Sample.query_vec = [1; 1; 1]%nat ∧ shape Sample.query_span = [1; 1; 1]%nat ∧
  shape Sample.first_only_mask = [1; 2]%nat ∧
  at_ Sample.first_only_mask [0; 0]%nat = 1 ∧ at_ Sample.first_only_mask [0; 1]%nat = 0 ∧
  ∃ start_logits all_logits,
    joint_logits Fixture.reduce_sum (Fixture.phrase_model "ip")
      Sample.start_vecs Sample.end_vecs Sample.span_scores
      Sample.query_vec Sample.query_vec Sample.query_span
      (Some Sample.first_only_mask)
    = Ok (start_logits, all_logits) ∧
    shape all_logits = [1; 2; 2]%nat ∧
    at_ all_logits [0; 0; 0]%nat = F32.of_Z 11 ∧
    at_ all_logits [0; 0; 1]%nat = F32.add (F32.of_Z 16) F32.neg_1e9 ∧
    at_ all_logits [0; 1; 0]%nat = F32.add (F32.of_Z 19) F32.neg_1e9 ∧
    at_ all_logits [0; 1; 1]%nat = F32.add (F32.of_Z 24) F32.neg_1e9 ∧
    F32.add (F32.of_Z 16) F32.neg_1e9 = F32.neg_1e9.
Proof.
  split; [by left|]. do 6 (split; [reflexivity|]). do 2 (split; [reflexivity|]).
  destruct (joint_logits_masked_sum Fixture.reduce_sum (Fixture.phrase_model "ip")
              Sample.start_vecs Sample.end_vecs Sample.span_scores
              Sample.query_vec Sample.query_vec Sample.query_span
              Sample.first_only_mask 1 2 1)
    as (sl & el & cl & al & Hsl & Hel & Hcl & H & S & Hat);
    [by left | reflexivity.. | |].
  - intros [|b] [|[|i]] Hb Hi; try lia; [by right | by left].
  - assert (Esl : ∀ i v,
              (fun t => at_ t [0%nat; i])
                <$> get_logits Fixture.reduce_sum Sample.start_vecs Sample.query_vec
                      (metric (Fixture.phrase_model "ip")) = Ok v →
              at_ sl [0%nat; i] = v)
      by (intros i v E; rewrite Hsl in E; by injection E).
    assert (Eel : ∀ j v,
              (fun t => at_ t [0%nat; j])
                <$> get_logits Fixture.reduce_sum Sample.end_vecs Sample.query_vec
                      (metric (Fixture.phrase_model "ip")) = Ok v →
              at_ el [0%nat; j] = v)
      by (intros j v E; rewrite Hel in E; by injection E).
    assert (Ecl : ∀ i j v,
              (fun t => at_ t [0%nat; i; j])
                <$> (sl ← unsqueeze (-1) Sample.span_scores;
                     ql ← unsqueeze (-1) Sample.query_span;
                     get_logits Fixture.reduce_sum sl ql
                       (metric (Fixture.phrase_model "ip"))) = Ok v →
              at_ cl [0%nat; i; j] = v)
      by (intros i j v E; rewrite Hcl in E; by injection E).
    pose proof (Esl 0%nat (F32.of_Z 2) ltac:(by vm_compute)) as S0.
    pose proof (Esl 1%nat (F32.of_Z 4) ltac:(by vm_compute)) as S1.
    pose proof (Eel 0%nat (F32.of_Z 6) ltac:(by vm_compute)) as E0.
    pose proof (Eel 1%nat (F32.of_Z 8) ltac:(by vm_compute)) as E1.
    pose proof (Ecl 0%nat 0%nat (F32.of_Z 3) ltac:(by vm_compute)) as C00.
    pose proof (Ecl 0%nat 1%nat (F32.of_Z 6) ltac:(by vm_compute)) as C01.
    pose proof (Ecl 1%nat 0%nat (F32.of_Z 9) ltac:(by vm_compute)) as C10.
    pose proof (Ecl 1%nat 1%nat (F32.of_Z 12) ltac:(by vm_compute)) as C11.
    exists sl, al. split; [exact H|]. split; [exact S|].
    split; [|split; [|split; [|split]]].
    + destruct (Hat 0 0 0 ltac:(lia) ltac:(lia) ltac:(lia))%nat as [Hboth _].
      destruct (Hboth ltac:(by split)) as (_ & _ & ->).
      rewrite S0, E0, C00. reflexivity.
    + destruct (Hat 0 0 1 ltac:(lia) ltac:(lia) ltac:(lia))%nat as [_ Hnot].
      rewrite Hnot by (intros [_ ?]; discriminate).
      rewrite S0, E1, C01. reflexivity.
    + destruct (Hat 0 1 0 ltac:(lia) ltac:(lia) ltac:(lia))%nat as [_ Hnot].
      rewrite Hnot by (intros [? _]; discriminate).
      rewrite S1, E0, C10. reflexivity.
    + destruct (Hat 0 1 1 ltac:(lia) ltac:(lia) ltac:(lia))%nat as [_ Hnot].
      rewrite Hnot by (intros [? _]; discriminate).
      rewrite S1, E1, C11. reflexivity.
    + reflexivity.
Defined.

(** ** The bound of the in-place clamps *)


Section ClampBound.
Variable reduce_sum : list spec_float → spec_float.
Variable reduce_mean : list spec_float → spec_float.
Variable dot : list spec_float → list spec_float → spec_float.
Variable cross_entropy : Z → tensor spec_float → tensor Z → result spec_float.
Variable bce_with_logits : tensor spec_float → tensor spec_float → Z → spec_float.




End ClampBound.





(** * Further properties of the code *)

(** ** Symmetry of the metrics *)

Lemma add_comm x y : F32.add x y = F32.add y x.
Proof.
  unfold F32.add.
  destruct x as [sx|sx| |sx mx ex], y as [sy|sy| |sy my ey]; cbn [SFadd];
    try reflexivity; try (destruct sx, sy; reflexivity).
  by rewrite (Z.min_comm ex ey), Z.add_comm.
Qed.

Lemma broadcast_rev_comm r1 r2 : broadcast_rev r1 r2 = broadcast_rev r2 r1.
Proof.
  revert r2. induction r1 as [|d1 r1 IH]; intros [|d2 r2]; simpl; try done.
  rewrite IH. destruct (broadcast_rev r2 r1) as [r|]; simpl; [|done].
  destruct (Nat.eqb_spec d1 d2) as [->|Hne].
  - by rewrite Nat.eqb_refl.
  - destruct (Nat.eqb_spec d2 d1) as [E|_]; [congruence|].
    destruct (Nat.eqb_spec d1 1) as [->|H1], (Nat.eqb_spec d2 1) as [->|H2];
      done.
Qed.

Lemma broadcast_shapes_comm s1 s2 : broadcast_shapes s1 s2 = broadcast_shapes s2 s1.
Proof. unfold broadcast_shapes. by rewrite broadcast_rev_comm. Qed.

Lemma tensor_eq_refl {A} (t : tensor A) : tensor_eq t t.
Proof. by split. Qed.

Lemma result_eq_refl {A} (r : result (tensor A)) : result_eq r r.
Proof. destruct r; simpl; [apply tensor_eq_refl | done]. Qed.

(** [map2] on operands equal entry by entry, with operators that agree. *)
Lemma map2_eq {A B C} (f g : A → B → C) (a a' : tensor A) (b b' : tensor B) :
  (∀ x y, f x y = g x y) → tensor_eq a a' → tensor_eq b b' →
  result_eq (map2 f a b) (map2 g a' b').
Proof.
  intros Hfg [Sa Ha] [Sb Hb]. unfold map2. rewrite <- Sa, <- Sb.
  destruct (broadcast_shapes (shape a) (shape b)) as [sh|]; simpl; [|done].
  split; [done|]. intros idx. simpl. by rewrite Hfg, Ha, Hb.
Qed.

(** [map2] with its operands exchanged. *)
Lemma map2_swap {A C} (f : A → A → C) (a b : tensor A) :
  (∀ x y, f x y = f y x) → result_eq (map2 f a b) (map2 f b a).
Proof.
  intros Hf. unfold map2. rewrite (broadcast_shapes_comm (shape b)).
  destruct (broadcast_shapes (shape a) (shape b)) as [sh|]; simpl; [|done].
  split; [done|]. intros idx. simpl. apply Hf.
Qed.

Section SymmetryFacts.
Variable reduce_sum : list spec_float → spec_float.

Lemma sum_last_eq t t' :
  tensor_eq t t' → tensor_eq (sum_last reduce_sum t) (sum_last reduce_sum t').
Proof.
  intros [S H]. unfold sum_last. rewrite <- S.
  destruct (reverse (shape t)) as [|n r]; split; try done; intros idx; simpl.
  - by rewrite H.
  - f_equal. apply list_fmap_ext. intros _ k _. apply H.
Qed.

Lemma get_logits_ip_sym a b :
  result_eq (get_logits reduce_sum a b "ip") (get_logits reduce_sum b a "ip").
Proof.
  rewrite !get_logits_ip.
  pose proof (map2_swap F32.mul a b mul_comm) as H.
  destruct (map2 F32.mul a b) as [t|e], (map2 F32.mul b a) as [t'|e'];
    simpl in *; try done.
  by apply sum_last_eq.
Qed.

End SymmetryFacts.

Lemma get_logits_ip_self (reduce_sum : list spec_float → spec_float) a :
  ∃ t, get_logits reduce_sum a a "ip" = Ok t.
Proof.
  rewrite get_logits_ip, (map2_ok _ _ _ _ (broadcast_same (shape a))).
  by eexists.
Qed.

Lemma tmap_eq {A B} (f : A → B) t t' :
  tensor_eq t t' → tensor_eq (tmap f t) (tmap f t').
Proof. intros [S H]. split; [done|]. intros idx. simpl. by rewrite H. Qed.

(** X1. Both metrics are symmetric in their operands: [get_logits(a, b, m)]
    and [get_logits(b, a, m)] raise the same exception or return tensors of
    the same shape with the same entries, for every metric name [m] and all
    operands, broadcast or not. *)
Theorem get_logits_symmetric :
  ∀ (reduce_sum : list spec_float → spec_float) (a b : tensor spec_float)
    (metric_name : string),
    result_eq (get_logits reduce_sum a b metric_name)
              (get_logits reduce_sum b a metric_name).
Proof.
  intros rs a b m.
  destruct (decide (m = "ip")) as [->|Hip]; [apply get_logits_ip_sym|].
  destruct (decide (m = "l2")) as [->|Hl2];
    [|by rewrite !get_logits_unknown].
  rewrite !get_logits_l2.
  pose proof (get_logits_ip_sym rs a b) as Hab.
  destruct (get_logits_ip_self rs a) as [aa ->].
  destruct (get_logits_ip_self rs b) as [bb ->].
  destruct (get_logits rs a b "ip") as [ab|e], (get_logits rs b a "ip") as [ba|e'];
    simpl in Hab; try done.
  cbn [mbind result_bind rbind].
  pose proof (map2_swap F32.add aa bb add_comm) as Hs.
  destruct (map2 F32.add aa bb) as [s|e], (map2 F32.add bb aa) as [s'|e'];
    simpl in Hs; try done.
  apply map2_eq; [done | done | by apply tmap_eq].
Qed.

(** ** [encode_phrase]: the span scores, and the widths it rejects *)

Lemma chunk2_odd {A} (d g : nat) (t : tensor A) :
  shape t !! d = Some (2 * g + 1)%nat →
  chunk2 d t = Ok (if (g =? 0)%nat then [narrow d 0 1 t]
                   else [narrow d 0 (g + 1) t; narrow d (g + 1) g t]).
Proof.
  intros H. unfold chunk2, size. rewrite H.
  cbn [mbind result_bind rbind mret result_ret].
  assert (((2 * g + 1 + 1) / 2)%nat = (g + 1)%nat) as ->
    by (symmetry; apply Nat.div_unique with 0%nat; lia).
  destruct (Nat.eqb_spec (2 * g + 1) 0); [lia|].
  destruct g as [|g]; [reflexivity|].
  destruct (Nat.leb_spec (2 * S g + 1) (S g + 1)); [lia|].
  replace (2 * S g + 1 - (S g + 1))%nat with (S g) by lia. reflexivity.
Qed.

Section DecomposerEdges.
Variable dot : list spec_float → list spec_float → spec_float.

(** The two slices of [encode_phrase] on a layer of shape [(B, L, D)] with
    phrase size [w + 1], [w <= D]. *)
Lemma encode_phrase_slices layer (B L D w : nat) (get_first_only : bool) :
  shape layer = [B; L; D] → (w <= D)%nat →
  encode_phrase dot layer (Z.of_nat w + 1) get_first_only =
    ('(start, end_) ← chunk2 2 (narrow 2 0 w layer) ≫= unpack2;
     '(span_start, span_end) ← chunk2 2 (narrow 2 w (D - w) layer) ≫= unpack2;
     span_logits ← transpose12 span_end ≫= matmul dot span_start;
     if get_first_only then
       start ← slice_dim 1 None (Some 1) start;
       end_ ← slice_dim 1 None (Some 1) end_;
       span_logits ← slice_dim 1 None (Some 1) span_logits ≫= slice_dim 2 None (Some 1);
       mret (start, end_, span_logits)
     else mret (start, end_, span_logits)).
Proof.
  intros Hsh Hw.
  assert (size layer 2 = Ok D) as Hsz by (unfold size; by rewrite Hsh).
  assert (Hb : slice_dim 2 None (Some (Z.of_nat w + 1 - 1)) layer
               = Ok (narrow 2 0 w layer)).
  { unfold slice_dim. rewrite Hsz. cbn [mbind result_bind rbind].
    replace (Z.of_nat w + 1 - 1) with (Z.of_nat w) by lia.
    rewrite slice_range_prefix by lia. reflexivity. }
  assert (Hs : slice_dim 2 (Some (Z.of_nat w + 1 - 1)) None layer
               = Ok (narrow 2 w (D - w) layer)).
  { unfold slice_dim. rewrite Hsz. cbn [mbind result_bind rbind].
    replace (Z.of_nat w + 1 - 1) with (Z.of_nat w) by lia.
    rewrite slice_range_suffix by lia. reflexivity. }
  unfold encode_phrase. rewrite Hsz. cbn [mbind result_bind rbind].
  rewrite Hb, Hs. reflexivity.
Qed.

(** An odd span region: a single chunk when its width is 1, otherwise two
    chunks of different widths, which the matrix product rejects. *)
Lemma encode_phrase_odd_span layer (B L h g : nat) (get_first_only : bool) :
  shape layer = [B; L; (2 * h + (2 * g + 1))%nat] →
  encode_phrase dot layer (2 * Z.of_nat h + 1) get_first_only
  = Err (if (g =? 0)%nat then ValueError "not enough values to unpack"
         else RuntimeError).
Proof.
  intros Hsh.
  replace (2 * Z.of_nat h + 1) with (Z.of_nat (2 * h) + 1) by lia.
  rewrite (encode_phrase_slices layer B L _ (2 * h)) by (done || lia).
  replace (2 * h + (2 * g + 1) - 2 * h)%nat with (2 * g + 1)%nat by lia.
  rewrite (chunk2_even 2 h (narrow 2 0 (2 * h) layer))
    by (cbn [narrow shape]; rewrite Hsh; reflexivity).
  rewrite (chunk2_odd 2 g (narrow 2 (2 * h) (2 * g + 1) layer))
    by (cbn [narrow shape]; rewrite Hsh; reflexivity).
  cbn [mbind result_bind rbind unpack2].
  destruct g as [|g]; [reflexivity|]. cbn [Nat.eqb mbind result_bind rbind unpack2].
  unfold transpose12. cbn [narrow shape]. rewrite Hsh.
  cbn [list_insert insert mbind result_bind rbind].
  unfold matmul. cbn [shape narrow]. rewrite Hsh. cbn [list_insert insert].
  destruct (Nat.eqb_spec (S g + 1) (S g)); [lia|]. reflexivity.
Qed.

End DecomposerEdges.

(** X2. For an odd phrase size [P >= 1] and a layer of shape [(B, L, D)]
    with [D - (P - 1)] even, entry [(b, i, j)] of [span_logits] is the dot
    product of the first half of the trailing [D - (P - 1)] features of
    position [i] with the second half of those of position [j], both of
    batch element [b]. *)
Theorem encode_phrase_span_entries :
  ∀ (dot : list spec_float → list spec_float → spec_float)
    (layer : tensor spec_float) (P : Z) (B L D : nat),
    shape layer = [B; L; D] →
    Z.odd P = true → 1 <= P → P - 1 <= Z.of_nat D →
    Z.even (Z.of_nat D - (P - 1)) = true →
    let w := Z.to_nat (P - 1) in
    let g := ((D - w) / 2)%nat in
    ∃ start end_ span_logits,
      encode_phrase dot layer P false = Ok (start, end_, span_logits) ∧
      ∀ b i j, (b < B)%nat → (i < L)%nat → (j < L)%nat →
        at_ span_logits [b; i; j]
        = dot ((fun x => at_ layer [b; i; (w + x)%nat]) <$> seq 0 g)
              ((fun x => at_ layer [b; j; (w + g + x)%nat]) <$> seq 0 g).
Proof.
  intros dot layer P B L D Hsh Hodd HP HD Heven w g.
  apply Z.odd_spec in Hodd as [p Hp]. apply Z.even_spec in Heven as [q Hq].
  assert (Hw : w = (2 * Z.to_nat p)%nat) by lia.
  assert (Hg : g = Z.to_nat q).
  { subst g. symmetry. apply Nat.div_unique with 0%nat; lia. }
  assert (HDg : D = (2 * Z.to_nat p + 2 * Z.to_nat q)%nat) by lia.
  assert (HPh : P = 2 * Z.of_nat (Z.to_nat p) + 1) by lia.
  rewrite HDg in Hsh. rewrite HPh.
  destruct (encode_phrase_run dot layer B L (Z.to_nat p) (Z.to_nat q) Hsh)
    as (start & end_ & span & Hrun & _ & _ & _ & _ & Hspan & _).
  exists start, end_, span. split; [done|].
  intros b i j Hb _ _. rewrite (Hspan b i j Hb), Hw, Hg.
  f_equal; apply list_fmap_ext; intros _ x _; repeat (f_equal; try lia).
Qed.

Lemma encode_phrase_span_entries_witness :
  shape (Fixture.zeros [1; 2; 4]%nat) = [1; 2; 4]%nat ∧
  Z.odd 3 = true ∧ 1 <= 3 ∧ 3 - 1 <= Z.of_nat 4 ∧
  Z.even (Z.of_nat 4 - (3 - 1)) = true ∧
  ∃ start end_ span_logits,
    encode_phrase Fixture.dot (Fixture.zeros [1; 2; 4]%nat) 3 false
    = Ok (start, end_, span_logits) ∧
    at_ span_logits [0; 1; 0]%nat
    = Fixture.dot [at_ (Fixture.zeros [1; 2; 4]%nat) [0; 1; 2]%nat]
                  [at_ (Fixture.zeros [1; 2; 4]%nat) [0; 0; 3]%nat].
Proof.
  split; [reflexivity|]. split; [reflexivity|]. split; [lia|].
  split; [simpl; lia|]. split; [reflexivity|].
  destruct (encode_phrase_span_entries Fixture.dot (Fixture.zeros [1; 2; 4]%nat)
              3 1 2 4 eq_refl eq_refl ltac:(lia) ltac:(simpl; lia) eq_refl)
    as (start & end_ & span & H & Hat).
  exists start, end_, span. split; [exact H|].
  apply (Hat 0 1 0)%nat; lia.
Defined.

(** X3. For an odd phrase size [P >= 1] and a layer of shape [(B, L, D)]
    with [P - 1 <= D], [encode_phrase] returns exactly when [D - (P - 1)] is
    even. When it is odd the call raises whatever [get_first_only] is: the
    tuple assignment fails when the span region has a single feature, and
    the matrix product rejects the two unequal chunks otherwise. *)
Theorem encode_phrase_returns_iff_even_span :
  ∀ (dot : list spec_float → list spec_float → spec_float)
    (layer : tensor spec_float) (P : Z) (B L D : nat),
    shape layer = [B; L; D] →
    Z.odd P = true → 1 <= P → P - 1 <= Z.of_nat D →
    is_ok (encode_phrase dot layer P false) = Z.even (Z.of_nat D - (P - 1)) ∧
    (Z.even (Z.of_nat D - (P - 1)) = false →
     ∀ get_first_only,
       encode_phrase dot layer P get_first_only
       = Err (if Z.of_nat D - (P - 1) =? 1
              then ValueError "not enough values to unpack"
              else RuntimeError)).
Proof.
  intros dot layer P B L D Hsh Hodd HP HD.
  apply Z.odd_spec in Hodd as [p Hp].
  assert (HPh : P = 2 * Z.of_nat (Z.to_nat p) + 1) by lia.
  destruct (Z.even (Z.of_nat D - (P - 1))) eqn:Hev.
  - split; [|discriminate].
    apply Z.even_spec in Hev as [q Hq].
    assert (HDg : D = (2 * Z.to_nat p + 2 * Z.to_nat q)%nat) by lia.
    rewrite HDg in Hsh. rewrite HPh.
    by destruct (encode_phrase_run dot layer B L (Z.to_nat p) (Z.to_nat q) Hsh)
      as (start & end_ & span & -> & _).
  - rewrite <- Z.negb_odd in Hev. apply negb_false_iff in Hev.
    apply Z.odd_spec in Hev as [q Hq].
    assert (HDg : D = (2 * Z.to_nat p + (2 * Z.to_nat q + 1))%nat) by lia.
    assert (Herr : ∀ gfo, encode_phrase dot layer P gfo
                          = Err (if Z.of_nat D - (P - 1) =? 1
                                 then ValueError "not enough values to unpack"
                                 else RuntimeError)).
    { intros gfo. rewrite HDg in Hsh. rewrite HPh at 1.
      rewrite (encode_phrase_odd_span dot layer B L _ _ gfo Hsh).
      destruct (Nat.eqb_spec (Z.to_nat q) 0), (Z.eqb_spec (Z.of_nat D - (P - 1)) 1);
        (reflexivity || lia). }
    split; [by rewrite Herr | intros _; exact Herr].
Qed.

Lemma encode_phrase_returns_iff_even_span_witness :
  shape (Fixture.zeros [1; 2; 5]%nat) = [1; 2; 5]%nat ∧
  Z.odd 3 = true ∧ 1 <= 3 ∧ 3 - 1 <= Z.of_nat 5 ∧
  Z.even (Z.of_nat 5 - (3 - 1)) = false ∧
  encode_phrase Fixture.dot (Fixture.zeros [1; 2; 5]%nat) 3 true = Err RuntimeError.
Proof.
  split; [reflexivity|]. split; [reflexivity|]. split; [lia|].
  split; [simpl; lia|]. split; [reflexivity|].
  apply (proj2 (encode_phrase_returns_iff_even_span Fixture.dot
                  (Fixture.zeros [1; 2; 5]%nat) 3 1 2 5
                  eq_refl eq_refl ltac:(lia) ltac:(simpl; lia)) eq_refl true).
Defined.

(** ** The classes of the joint loss *)

(** X4. The class the joint loss receives for a batch element, the
    flattened target plus one, in terms of the caller's positions [s] and
    [e] and the context length [L]: it is the ignored class [L^2 + 1]
    exactly when [s >= L] or [e >= L]; it is the default class 0 exactly
    when both are below [L] and either [s] is negative or [s = 0] and [e] is
    negative; it is [s * L + e + 1] for two valid positions; and for a start
    [s >= 1] with a negative end it is [s * L], the class of the span from
    [s - 1] to [L - 1]. *)
Theorem span_target_classes :
  ∀ (L : Z) (B : nat) (default_value : tensor spec_float)
    (start_positions end_positions : tensor Z),
    0 <= L → L * L < 2 ^ 63 - 1 →
    shape start_positions = [B] → shape end_positions = [B] →
    ∃ t, span_target L (tmap (I64.clamp (-1) L) start_positions)
                       (tmap (I64.clamp (-1) L) end_positions) = Ok t ∧
         ∀ b, (b < B)%nat →
           let s := at_ start_positions [b] in
           let e := at_ end_positions [b] in
           let class := I64.add (at_ t [b]) 1 in
           0 <= class <= L ^ 2 + 1 ∧
           (class = ignore_index (cel_init default_value (L ^ 2)) ↔ L <= s ∨ L <= e) ∧
           (class = 0 ↔ s < L ∧ e < L ∧ (s < 0 ∨ s = 0 ∧ e < 0)) ∧
           (0 <= s < L → 0 <= e < L → class = s * L + e + 1) ∧
           (1 <= s < L → e < 0 → class = (s - 1) * L + (L - 1) + 1).
Proof.
  intros L B dv sp ep H0 Hb Hs He.
  destruct (span_target_pointwise L B (tmap (I64.clamp (-1) L) sp)
              (tmap (I64.clamp (-1) L) ep)) as (t & Ht & _ & Hat); [done..|].
  exists t. split; [done|]. intros b Hlt s e class.
  assert (Hii : ignore_index (cel_init dv (L ^ 2)) = L ^ 2 + 1).
  { cbn [cel_init ignore_index]. destruct (Z.leb_spec 0 (L ^ 2)); [done | nia]. }
  rewrite Hii. subst class. rewrite (Hat b Hlt). cbn [at_ tmap]. fold s e.
  destruct (decide (L <= s ∨ L <= e)) as [Hinv | Hval].
  - rewrite span_target_of_invalid; [|lia|lia|unfold I64.clamp; lia].
    unfold I64.add. rewrite wrap_small by nia.
    repeat split; try nia; try done; intros; lia.
  - assert (s < L ∧ e < L) as [HsL HeL] by lia.
    rewrite span_target_of_valid; [|lia|lia|unfold I64.clamp; lia..].
    unfold I64.add, I64.clamp.
    assert (Hr : -1 <= Z.max (-1) (Z.min (Z.max s (-1)) L * L + Z.min (Z.max e (-1)) L)
                 <= L * L - 1) by nia.
    rewrite wrap_small by nia.
    repeat split; nia.
Qed.

Lemma span_target_classes_witness :
  0 <= 4 ∧ 4 * 4 < 2 ^ 63 - 1 ∧
  shape (Fixture.vector [2]) = [1%nat] ∧ shape Fixture.minus_one = [1%nat] ∧
  ∃ t, span_target 4 (tmap (I64.clamp (-1) 4) (Fixture.vector [2]))
                     (tmap (I64.clamp (-1) 4) Fixture.minus_one) = Ok t ∧
       I64.add (at_ t [0%nat]) 1 = (2 - 1) * 4 + (4 - 1) + 1.
Proof.
  split; [lia|]. split; [lia|]. split; [reflexivity|]. split; [reflexivity|].
  destruct (span_target_classes 4 1 Fixture.default1 (Fixture.vector [2])
              Fixture.minus_one ltac:(lia) ltac:(lia) eq_refl eq_refl)
    as (t & Ht & Hat).
  exists t. split; [exact Ht|].
  destruct (Hat 0%nat ltac:(lia)) as (_ & _ & _ & _ & H).
  apply H; simpl; lia.
Defined.

(** The rows of a batch of square score matrices, flattened: entry
    [s * L + e] of row [b] is entry [(b, s, e)]. *)
Lemma view_rows_square {A} (t : tensor A) (B L : nat) :
  shape t = [B; L; L] → (0 < B)%nat →
  ∃ flat, view_rows t = Ok flat ∧ shape flat = [B; (L * L)%nat] ∧
    ∀ b s e, (s < L)%nat → (e < L)%nat →
      at_ flat [b; (s * L + e)%nat] = at_ t [b; s; e].
Proof.
  intros Hsh HB. unfold view_rows. rewrite Hsh.
  destruct B as [|B]; [lia|].
  eexists. split; [reflexivity|]. split.
  { cbn [shape numel_of foldr]. by rewrite Nat.mul_1_r. }
  intros b s e Hs He. cbn [at_ nth unravel numel_of foldr].
  rewrite !Nat.mul_1_r, Nat.div_1_r.
  rewrite Nat.div_add_l, Nat.div_small, Nat.add_0_r by lia.
  rewrite Nat.add_comm, Nat.Div0.mod_add, Nat.mod_small by lia.
  reflexivity.
Qed.

(** X5. In the joint loss, the class of two valid positions [(s, e)] is the
    column of the augmented logits that holds the score of that span: with
    [all_logits] of shape [(B, L, L)], the loss flattens each score matrix
    row by row, puts the default score in column 0, and hands the library a
    matrix whose entry [(b, class(s, e))] is [all_logits[b, s, e]], where
    [class(s, e)] is the flattened target of [(s, e)] plus one. *)
Theorem joint_loss_class_holds_span_score :
  ∀ (cross_entropy : Z → tensor spec_float → tensor Z → result spec_float)
    (default_value all_logits : tensor spec_float) (B L : nat),
    shape all_logits = [B; L; L] → (0 < B)%nat →
    shape default_value = [1%nat] →
    Z.of_nat L * Z.of_nat L < 2 ^ 63 - 1 →
    ∃ flat new_input,
      view_rows all_logits = Ok flat ∧
      shape new_input = [B; S (L * L)] ∧
      (∀ target,
         elements target ≠ [] →
         Forall (fun t => 0 <= I64.add t 1) (elements target) →
         cel_forward cross_entropy (cel_init default_value (Z.of_nat L ^ 2)) flat target
         = cross_entropy (Z.of_nat L ^ 2 + 1) new_input
             (tmap (fun t => I64.add t 1) target)) ∧
      ∀ b s e, (s < L)%nat → (e < L)%nat →
        at_ new_input [b; 0%nat] = at_ default_value [0%nat] ∧
        at_ new_input
          [b; Z.to_nat (I64.add (span_target_of (Z.of_nat L) (Z.of_nat s) (Z.of_nat e)) 1)]
        = at_ all_logits [b; s; e].
Proof.
  intros ce dv al B L Hal HB Hdv HL.
  destruct (view_rows_square al B L Hal HB) as (flat & Hflat & Sflat & Hat).
  destruct (cel_forward_input ce dv (Z.of_nat L ^ 2) flat B (L * L) Sflat Hdv)
    as (ni & Sni & Hni & Hfw).
  exists flat, ni. split; [done|]. split; [done|]. split.
  - intros target Hne Hall. rewrite Hfw.
    assert ((0 <=? Z.of_nat L ^ 2) = true) as -> by (apply Z.leb_le; nia).
    destruct (tmin (tmap (fun t => I64.add t 1) target)) as [m|err] eqn:Hm.
    + apply tmin_ok in Hm as [Hm _]. rewrite elements_tmap in Hm.
      apply list_elem_of_fmap in Hm as (t & -> & Ht).
      rewrite Forall_forall in Hall. specialize (Hall t Ht).
      cbn [mbind result_bind rbind]. by apply Z.leb_le in Hall as ->.
    + apply tmin_err in Hm as [_ Hm]. rewrite elements_tmap in Hm.
      by apply fmap_nil_inv in Hm.
  - intros b s e Hs He. split; [apply (Hni b 0%nat)|].
    rewrite span_target_of_valid by lia.
    unfold I64.add. rewrite wrap_small by nia.
    replace (Z.to_nat (Z.max (-1) (Z.of_nat s * Z.of_nat L + Z.of_nat e) + 1))
      with (S (s * L + e)) by nia.
    rewrite (proj2 (Hni b _)). by apply Hat.
Qed.

Lemma joint_loss_class_holds_span_score_witness :
  shape (Fixture.zeros [1; 2; 2]%nat) = [1; 2; 2]%nat ∧ (0 < 1)%nat ∧
  shape Fixture.default1 = [1%nat] ∧
  Z.of_nat 2 * Z.of_nat 2 < 2 ^ 63 - 1 ∧
  ∃ flat new_input,
    view_rows (Fixture.zeros [1; 2; 2]%nat) = Ok flat ∧
    shape new_input = [1; 5]%nat ∧
    at_ new_input [0%nat; 0%nat] = F32.one.
Proof.
  split; [reflexivity|]. split; [lia|]. split; [reflexivity|]. split; [simpl; lia|].
  destruct (joint_loss_class_holds_span_score Fixture.cross_entropy
              Fixture.default1 (Fixture.zeros [1; 2; 2]%nat) 1 2
              eq_refl ltac:(lia) eq_refl ltac:(simpl; lia))
    as (flat & ni & Hflat & Sni & _ & Hat).
  exists flat, ni. split; [exact Hflat|]. split; [exact Sni|].
  apply (proj1 (Hat 0 0 0 ltac:(lia) ltac:(lia)))%nat.
Defined.

(** ** The boundary filter called with one position, and called twice *)

Lemma St_bind_err {A B} (m : St A) (k : A → St B) σ e σ1 :
  m σ = (Err e, σ1) → (m ≫= k) σ = (Err e, σ1).
Proof. intros H. unfold mbind, St_bind. by rewrite H. Qed.

(** Clamping twice to one range is clamping once, on the whole store. *)
Lemma clamped_twice (L : nat) (ls le : nat) (σ : store) :
  let f := alter (fmap (I64.clamp (-1) (Z.of_nat L))) in
  f le (f ls (f le (f ls σ))) = f le (f ls σ).
Proof.
  intros f. subst f. apply map_eq. intros l.
  rewrite (clamped_lookup L ls le (alter _ le (alter _ ls σ)) l).
  destruct (decide (l = ls ∨ l = le)) as [Hl|Hl]; [|done].
  rewrite clamped_lookup, decide_True by done.
  destruct (σ !! l) as [d|]; [|done]. simpl. f_equal.
  rewrite <- list_fmap_compose. apply list_fmap_ext. intros _ x _. simpl.
  apply clamp_idem. lia.
Qed.

(** X6. [BoundaryFilter.forward] in training mode is idempotent: when a
    call with both position tensors returns, the same call on the store it
    leaves returns the same loss and leaves that store unchanged. The
    in-place clamp only takes effect once. *)
Theorem filter_forward_training_idempotent :
  ∀ (bce_with_logits : tensor spec_float → tensor spec_float → Z → spec_float)
    (self : BoundaryFilter) (start_vec end_vec : tensor spec_float)
    (sp ep : ref) (σ σ' : store) (o : filter_output),
    filter_forward bce_with_logits self start_vec end_vec (Some sp) (Some ep) σ
    = (Ok o, σ') →
    filter_forward bce_with_logits self start_vec end_vec (Some sp) (Some ep) σ'
    = (Ok o, σ').
Proof.
  intros bcel self sv ev sp ep σ σ' o H.
  unfold filter_forward in H. st_invert. simpl in *. st_invert.
  repeat match goal with H : Ok _ = Ok _ |- _ => injection H as <- end.
  match goal with
  | H : size _ 1 = Ok ?n |- _ => rename n into L; rename H into HL
  end.
  pose proof (clamped_twice L (loc sp) (loc ep) σ) as Htwice. cbv zeta in Htwice.
  set (σ' := alter (fmap (I64.clamp (-1) (Z.of_nat L))) (loc ep)
               (alter (fmap (I64.clamp (-1) (Z.of_nat L))) (loc sp) σ)) in *.
  assert (Hsp : is_Some (σ' !! loc sp)) by (by eexists).
  assert (Hep : is_Some (alter (fmap (I64.clamp (-1) (Z.of_nat L))) (loc sp) σ'
                           !! loc ep)).
  { rewrite lookup_alter. case_decide; [apply fmap_is_Some|]; by eexists. }
  unfold filter_forward.
  rewrite (St_bind_eq _ _ σ' _ σ') by (unfold lift; by f_equal).
  rewrite (St_bind_eq _ _ σ' _ σ') by (unfold lift; by f_equal).
  rewrite (St_bind_eq _ _ σ' L σ') by (unfold lift; by f_equal).
  rewrite (St_bind_eq _ _ σ' sp σ') by done.
  rewrite (St_bind_eq _ _ σ' () _ (clamp__run sp _ _ σ' Hsp)).
  rewrite (St_bind_eq _ _ _ ep _) by done.
  rewrite (St_bind_eq _ _ _ () _ (clamp__run ep _ _ _ Hep)).
  rewrite Htwice.
  rewrite (St_bind_eq _ _ σ' _ σ') by (by apply deref_run).
  rewrite (St_bind_eq _ _ σ' _ σ') by (unfold lift; by f_equal).
  rewrite (St_bind_eq _ _ σ' _ σ') by (by apply deref_run).
  rewrite (St_bind_eq _ _ σ' _ σ') by (unfold lift; by f_equal).
  rewrite (St_bind_eq _ _ σ' _ σ') by (unfold lift; by f_equal).
  rewrite (St_bind_eq _ _ σ' _ σ') by (unfold lift; by f_equal).
  reflexivity.
Qed.


Lemma filter_forward_training_idempotent_witness :
  ∃ o σ',
    filter_forward Fixture.bce_with_logits Fixture.boundary_filter
      (Fixture.zeros [1; 2; 1]%nat) (Fixture.zeros [1; 2; 1]%nat)
      (Some Fixture.start_ref) (Some Fixture.end_ref) Fixture.store0 = (Ok o, σ') ∧
    filter_forward Fixture.bce_with_logits Fixture.boundary_filter
      (Fixture.zeros [1; 2; 1]%nat) (Fixture.zeros [1; 2; 1]%nat)
      (Some Fixture.start_ref) (Some Fixture.end_ref) σ' = (Ok o, σ').
Proof.
  destruct (filter_forward Fixture.bce_with_logits Fixture.boundary_filter
              (Fixture.zeros [1; 2; 1]%nat) (Fixture.zeros [1; 2; 1]%nat)
              (Some Fixture.start_ref) (Some Fixture.end_ref) Fixture.store0)
    as [r σ'] eqn:Hrun.
  assert (is_ok r = true) as Hr.
  { change r with (r, σ').1. rewrite <- Hrun. by vm_compute. }
  destruct r as [o|e]; [|discriminate].
  exists o, σ'. split; [reflexivity|].
  exact (filter_forward_training_idempotent _ _ _ _ _ _ _ _ _ Hrun).
Defined.



(** ** Calls of [forward] with a context only, or a query only *)

(** The logits of a linear layer on boundary vectors of shape [(B, L, k)]:
    entry [(b, i)] is the layer applied to the vector of position [i]. *)
Lemma linear_forward_entries (self : Linear) (x : tensor spec_float) (B L k : nat) :
  shape x = [B; L; k] → in_features self = k →
  ∃ t, squeeze_last <$> linear_forward self x = Ok t ∧ shape t = [B; L] ∧
       ∀ b i, at_ t [b; i] = affine self ((fun c => at_ x [b; i; c]) <$> seq 0 k).
Proof.
  intros Hx Hk. unfold linear_forward. rewrite Hx, Hk. cbn [reverse rev_append].
  rewrite Nat.eqb_refl. eexists. split; [reflexivity|]. split; reflexivity.
Qed.

Lemma quot_boundary (h : nat) : Z.quot (2 * Z.of_nat h + 1 - 1) 2 = Z.of_nat h.
Proof.
  replace (2 * Z.of_nat h + 1 - 1) with (Z.of_nat h * 2) by lia.
  apply Z.quot_mul. lia.
Qed.

(** The model [phrase_init] builds for an odd phrase size [2h + 1]. *)
Lemma phrase_init_odd enc (h : nat) m d0 is_ ie self :
  phrase_init enc (2 * Z.of_nat h + 1) m d0 is_ ie = Ok self →
  encoder self = enc ∧ phrase_size self = 2 * Z.of_nat h + 1 ∧
  metric self = m ∧ default_value self = Tensor [1%nat] (fun _ => d0) ∧
  in_features (start_linear (filter self)) = h ∧
  in_features (end_linear (filter self)) = h ∧
  affine (start_linear (filter self)) = is_ ∧
  affine (end_linear (filter self)) = ie.
Proof.
  unfold phrase_init. rewrite quot_boundary.
  destruct (Z.ltb_spec (Z.of_nat h) 0); [lia|].
  intros [= <-]. cbn. repeat split; lia.
Qed.

Section EmbedFacts.
Variable dot : list spec_float → list spec_float → spec_float.
Variable bce_with_logits : tensor spec_float → tensor spec_float → Z → spec_float.

(** The context embedding of a model of phrase size [2h + 1] on an encoder
    output of shape [(B, L, 2h + 2g)]. *)
Lemma embed_context_run self cids cm layer (B L h g : nat) :
  encoder self cids cm = Ok layer →
  shape layer = [B; L; (2 * h + 2 * g)%nat] →
  phrase_size self = 2 * Z.of_nat h + 1 →
  in_features (start_linear (filter self)) = h →
  in_features (end_linear (filter self)) = h →
  ∃ start end_ span sfl efl,
    (∀ σ, embed_context dot bce_with_logits self cids cm σ
          = (Ok (start, end_, span, sfl, efl), σ)) ∧
    encode_phrase dot layer (2 * Z.of_nat h + 1) false = Ok (start, end_, span) ∧
    shape start = [B; L; h] ∧ shape end_ = [B; L; h] ∧ shape span = [B; L; L] ∧
    shape sfl = [B; L] ∧ shape efl = [B; L] ∧
    ∀ b i,
      at_ sfl [b; i]
      = affine (start_linear (filter self))
          ((fun c => at_ layer [b; i; c]) <$> seq 0 h) ∧
      at_ efl [b; i]
      = affine (end_linear (filter self))
          ((fun c => at_ layer [b; i; (h + c)%nat]) <$> seq 0 h).
Proof.
  intros Henc Hsh HP Hks Hke.
  destruct (encode_phrase_run dot layer B L h g Hsh)
    as (start & end_ & span & Hrun & Ss & Se & Sp & Hat & _).
  destruct (linear_forward_entries _ _ B L h Ss Hks) as (sfl & Hsfl & Ssfl & Asfl).
  destruct (linear_forward_entries _ _ B L h Se Hke) as (efl & Hefl & Sefl & Aefl).
  exists start, end_, span, sfl, efl. split.
  { intros σ. unfold embed_context.
    rewrite (St_bind_eq _ _ σ (start, end_, span) σ)
      by (unfold lift; rewrite Henc, HP; cbn [mbind result_bind rbind]; by rewrite Hrun).
    unfold filter_forward.
    rewrite (St_bind_eq _ _ σ (FilterLogits sfl efl) σ); [reflexivity|].
    rewrite (St_bind_eq _ _ σ sfl σ) by (unfold lift; by rewrite Hsfl).
    rewrite (St_bind_eq _ _ σ efl σ) by (unfold lift; by rewrite Hefl).
    reflexivity. }
  repeat (split; [done|]).
  intros b i. rewrite Asfl, Aefl.
  split; f_equal; apply list_fmap_ext; intros _ c _; apply Hat.
Qed.

End EmbedFacts.

(** X8. A call of [forward] with a context and no query, on a model built
    by [PhraseModel.__init__] with an odd phrase size [P] and an encoder
    whose output has shape [(B, L, D)], [P - 1 <= D] and [D - (P - 1)] even,
    returns the five context tensors: the decomposition [encode_phrase]
    gives of the encoder output, and two filter-logit matrices of shape
    [(B, L)] whose entry [(b, i)] is the start (end) linear layer applied to
    the start (end) boundary vector of position [i]. The query mask and the
    position tensors are ignored, and no tensor of the caller is written. *)
Theorem forward_context_only :
  ∀ reduce_sum reduce_mean dot cross_entropy bce_with_logits
    (enc : tensor Z → option (tensor Z) → result (tensor spec_float))
    (P : Z) (metric_name : string) (init_default : spec_float)
    (init_start init_end : list spec_float → spec_float) (self : PhraseModel)
    (cids : tensor Z) (cm qm : option (tensor Z)) (sp ep : option ref)
    (layer : tensor spec_float) (B L D : nat) (σ : store),
    phrase_init enc P metric_name init_default init_start init_end = Ok self →
    Z.odd P = true → 1 <= P →
    enc cids cm = Ok layer → shape layer = [B; L; D] →
    P - 1 <= Z.of_nat D → Z.even (Z.of_nat D - (P - 1)) = true →
    let h := Z.to_nat ((P - 1) / 2) in
    ∃ start end_ span_logits sfl efl,
      forward reduce_sum reduce_mean dot cross_entropy bce_with_logits
        self (Some cids) cm None qm sp ep σ
      = (Ok (OutContext start end_ span_logits sfl efl), σ) ∧
      encode_phrase dot layer P false = Ok (start, end_, span_logits) ∧
      shape sfl = [B; L] ∧ shape efl = [B; L] ∧
      ∀ b i, (b < B)%nat → (i < L)%nat →
        at_ sfl [b; i] = init_start ((fun c => at_ layer [b; i; c]) <$> seq 0 h) ∧
        at_ efl [b; i]
        = init_end ((fun c => at_ layer [b; i; (h + c)%nat]) <$> seq 0 h).
Proof.
  intros rs rm dot ce bce enc P m d0 is_ ie self cids cm qm sp ep layer B L D σ
    Hinit Hodd HP Henc Hsh HD Heven h.
  apply Z.odd_spec in Hodd as [p Hp]. apply Z.even_spec in Heven as [q Hq].
  assert (Hh : h = Z.to_nat p).
  { subst h. f_equal. rewrite Hp. replace (2 * p + 1 - 1) with (p * 2) by lia.
    apply Z.div_mul. lia. }
  assert (HPh : P = 2 * Z.of_nat h + 1) by lia.
  assert (HDg : D = (2 * h + 2 * Z.to_nat q)%nat) by lia.
  rewrite HDg in Hsh. rewrite HPh in Hinit |- *.
  apply phrase_init_odd in Hinit as (Eenc & EP & _ & _ & Eks & Eke & Eas & Eae).
  destruct (embed_context_run dot bce self cids cm layer B L h (Z.to_nat q))
    as (start & end_ & span & sfl & efl & Hrun & Hph & _ & _ & _ & Ssfl & Sefl & Hat);
    [by rewrite Eenc | done..|].
  exists start, end_, span, sfl, efl. split.
  { unfold forward. by rewrite (St_bind_eq _ _ σ _ σ (Hrun σ)). }
  repeat (split; [done|]).
  intros b i _ _. rewrite <- Eas, <- Eae. apply Hat.
Qed.

Lemma forward_context_only_witness :
  phrase_init (Fixture.token_encoder 4) 3 "ip" F32.one
    Fixture.reduce_sum Fixture.reduce_sum = Ok (Fixture.phrase_model "ip") ∧
  Z.odd 3 = true ∧ 1 <= 3 ∧
  Fixture.token_encoder 4 Fixture.context_ids (Some Fixture.context_mask)
  = Ok Sample.context_layer ∧
  shape Sample.context_layer = [1; 2; 4]%nat ∧
  3 - 1 <= Z.of_nat 4 ∧ Z.even (Z.of_nat 4 - (3 - 1)) = true ∧
  ∃ start end_ span_logits sfl efl,
    Fixture.run_forward (Fixture.phrase_model "ip")
      (Some Fixture.context_ids) (Some Fixture.context_mask) None None
      (Some Fixture.start_ref) None Fixture.store0
    = (Ok (OutContext start end_ span_logits sfl efl), Fixture.store0) ∧
    shape sfl = [1; 2]%nat.
Proof.
  split; [reflexivity|]. split; [reflexivity|]. split; [lia|].
  split; [reflexivity|]. split; [reflexivity|]. split; [simpl; lia|].
  split; [reflexivity|].
  destruct (forward_context_only Fixture.reduce_sum Fixture.reduce_mean Fixture.dot
              Fixture.cross_entropy Fixture.bce_with_logits
              (Fixture.token_encoder 4) 3 "ip" F32.one
              Fixture.reduce_sum Fixture.reduce_sum (Fixture.phrase_model "ip")
              Fixture.context_ids (Some Fixture.context_mask) None
              (Some Fixture.start_ref) None Sample.context_layer 1 2 4 Fixture.store0
              eq_refl eq_refl ltac:(lia) eq_refl eq_refl ltac:(simpl; lia) eq_refl)
    as (start & end_ & span & sfl & efl & H & _ & S & _).
  by exists start, end_, span, sfl, efl.
Defined.

(** X9. A call of [forward] with a query and no context, on a model built
    by [PhraseModel.__init__] with an odd phrase size [P] and an encoder
    whose output has shape [(B, L, D)], [L >= 1], [P - 1 <= D] and
    [D - (P - 1)] even, returns the three query tensors, which describe the
    first token only: the two halves of its leading [P - 1] features, of
    shape [(B, 1, (P-1)/2)], and the dot product of the two halves of its
    remaining features, of shape [(B, 1, 1)]. The context mask and the
    position tensors are ignored, and no tensor of the caller is written. *)
Theorem forward_query_only :
  ∀ reduce_sum reduce_mean dot cross_entropy bce_with_logits
    (enc : tensor Z → option (tensor Z) → result (tensor spec_float))
    (P : Z) (metric_name : string) (init_default : spec_float)
    (init_start init_end : list spec_float → spec_float) (self : PhraseModel)
    (qids : tensor Z) (cm qm : option (tensor Z)) (sp ep : option ref)
    (layer : tensor spec_float) (B L D : nat) (σ : store),
    phrase_init enc P metric_name init_default init_start init_end = Ok self →
    Z.odd P = true → 1 <= P →
    enc qids qm = Ok layer → shape layer = [B; L; D] → (1 <= L)%nat →
    P - 1 <= Z.of_nat D → Z.even (Z.of_nat D - (P - 1)) = true →
    let h := Z.to_nat ((P - 1) / 2) in
    let g := ((D - 2 * h) / 2)%nat in
    ∃ qs qe qspan,
      forward reduce_sum reduce_mean dot cross_entropy bce_with_logits
        self None cm (Some qids) qm sp ep σ
      = (Ok (OutQuery qs qe qspan), σ) ∧
      shape qs = [B; 1%nat; h] ∧ shape qe = [B; 1%nat; h] ∧
      shape qspan = [B; 1%nat; 1%nat] ∧
      ∀ b, (b < B)%nat →
        (∀ c, (c < h)%nat →
           at_ qs [b; 0%nat; c] = at_ layer [b; 0%nat; c] ∧
           at_ qe [b; 0%nat; c] = at_ layer [b; 0%nat; (h + c)%nat]) ∧
        at_ qspan [b; 0%nat; 0%nat]
        = dot ((fun x => at_ layer [b; 0%nat; (2 * h + x)%nat]) <$> seq 0 g)
              ((fun x => at_ layer [b; 0%nat; (2 * h + g + x)%nat]) <$> seq 0 g).
Proof.
  intros rs rm dot ce bce enc P m d0 is_ ie self qids cm qm sp ep layer B L D σ
    Hinit Hodd HP Henc Hsh HL HD Heven h g.
  apply Z.odd_spec in Hodd as [p Hp]. apply Z.even_spec in Heven as [q Hq].
  assert (Hh : h = Z.to_nat p).
  { subst h. f_equal. rewrite Hp. replace (2 * p + 1 - 1) with (p * 2) by lia.
    apply Z.div_mul. lia. }
  assert (Hg : g = Z.to_nat q).
  { subst g. symmetry. apply Nat.div_unique with 0%nat; lia. }
  assert (HPh : P = 2 * Z.of_nat h + 1) by lia.
  assert (HDg : D = (2 * h + 2 * g)%nat) by lia.
  clearbody h g. rewrite HDg in Hsh. rewrite HPh in Hinit.
  apply phrase_init_odd in Hinit as (Eenc & EP & _).
  destruct (encode_phrase_run dot layer B L h g Hsh)
    as (start & end_ & span & _ & _ & _ & _ & Hat & Hspan & Hfirst).
  destruct (Hfirst HL) as (qs & qe & qspan & Hrun & Sqs & Sqe & Sqspan & Hq1 & Hq2).
  exists qs, qe, qspan. split.
  { unfold forward, embed_query.
    rewrite (St_bind_eq _ _ σ (qs, qe, qspan) σ); [reflexivity|].
    unfold lift. rewrite Eenc, Henc, EP. cbn [mbind result_bind rbind].
    by rewrite Hrun. }
  repeat (split; [done|]).
  intros b Hb. split.
  - intros c _. rewrite (proj1 (Hq1 b c)), (proj2 (Hq1 b c)). apply Hat.
  - rewrite Hq2, (Hspan b 0%nat 0%nat Hb).
    f_equal; apply list_fmap_ext; intros _ x _; repeat (f_equal; try lia).
Qed.

Lemma forward_query_only_witness :
  phrase_init (Fixture.token_encoder 4) 3 "ip" F32.one
    Fixture.reduce_sum Fixture.reduce_sum = Ok (Fixture.phrase_model "ip") ∧
  Z.odd 3 = true ∧ 1 <= 3 ∧
  Fixture.token_encoder 4 Fixture.query_ids None = Ok Sample.query_layer ∧
  shape Sample.query_layer = [1; 1; 4]%nat ∧ (1 <= 1)%nat ∧
  3 - 1 <= Z.of_nat 4 ∧ Z.even (Z.of_nat 4 - (3 - 1)) = true ∧
  ∃ qs qe qspan,
    Fixture.run_forward (Fixture.phrase_model "ip")
      None None (Some Fixture.query_ids) None None (Some Fixture.end_ref) Fixture.store0
    = (Ok (OutQuery qs qe qspan), Fixture.store0) ∧
    shape qspan = [1; 1; 1]%nat.
Proof.
  split; [reflexivity|]. split; [reflexivity|]. split; [lia|].
  split; [reflexivity|]. split; [reflexivity|]. split; [lia|].
  split; [simpl; lia|]. split; [reflexivity|].
  destruct (forward_query_only Fixture.reduce_sum Fixture.reduce_mean Fixture.dot
              Fixture.cross_entropy Fixture.bce_with_logits
              (Fixture.token_encoder 4) 3 "ip" F32.one
              Fixture.reduce_sum Fixture.reduce_sum (Fixture.phrase_model "ip")
              Fixture.query_ids None None None (Some Fixture.end_ref)
              Sample.query_layer 1 1 4 Fixture.store0
              eq_refl eq_refl ltac:(lia) eq_refl eq_refl ltac:(lia)
              ltac:(simpl; lia) eq_refl)
    as (qs & qe & qspan & H & _ & _ & S & _).
  by exists qs, qe, qspan.
Defined.

(** ** Joint calls that cannot succeed *)

Section MaskFacts.
Variable reduce_sum : list spec_float → spec_float.

(** Without a context mask the score matrix is never produced; when every
    step before the mask succeeds, the failure is the attribute lookup on
    [None]. *)
Lemma score_matrix_no_mask sl el cl :
  is_ok (score_matrix sl el cl None) = false ∧
  ∀ cm v, score_matrix sl el cl (Some cm) = Ok v →
          score_matrix sl el cl None = Err AttributeError.
Proof.
  unfold score_matrix.
  destruct (unsqueeze 2 sl) as [s|]; [|by split].
  destruct (unsqueeze 1 el) as [e|]; [|by split].
  cbn [mbind result_bind rbind].
  destruct (map2 F32.add s e) as [se|]; [|by split].
  cbn [mbind result_bind rbind].
  destruct (map2 F32.add se cl) as [al|]; [|by split].
  by split.
Qed.

Lemma joint_logits_no_mask self start end_ span qs qe qspan :
  is_ok (joint_logits reduce_sum self start end_ span qs qe qspan None) = false ∧
  ∀ cm v, joint_logits reduce_sum self start end_ span qs qe qspan (Some cm) = Ok v →
          joint_logits reduce_sum self start end_ span qs qe qspan None
          = Err AttributeError.
Proof.
  unfold joint_logits.
  destruct (get_logits reduce_sum start qs (metric self)) as [sl|]; [|by split].
  destruct (get_logits reduce_sum end_ qe (metric self)) as [el|]; [|by split].
  cbn [mbind result_bind rbind].
  destruct (unsqueeze (-1) span) as [s|]; [|by split].
  destruct (unsqueeze (-1) qspan) as [q|]; [|by split].
  cbn [mbind result_bind rbind].
  destruct (get_logits reduce_sum s q (metric self)) as [cl|]; [|by split].
  cbn [mbind result_bind rbind].
  destruct (score_matrix_no_mask sl el cl) as [Hno Hattr].
  split.
  - destruct (score_matrix sl el cl None); [discriminate | done].
  - intros cm v H. rewrite (Hattr cm) with (v := match score_matrix sl el cl (Some cm) with Ok a => a | Err _ => sl end).
    + reflexivity.
    + destruct (score_matrix sl el cl (Some cm)); [done | discriminate].
Qed.

End MaskFacts.

(** X10. A joint call of [forward] (context and query both given) without a
    context mask never returns, whatever the model, the encoder and the
    other arguments, and it writes no tensor of the caller, also when both
    position tensors are given: the mask is read unconditionally when the
    score matrix is built. When the two embedding steps succeed and the
    scores could be computed with some mask, the exception is the
    [AttributeError] of the attribute lookup on [None]. *)
Theorem joint_call_needs_context_mask :
  ∀ reduce_sum reduce_mean dot cross_entropy bce_with_logits
    (self : PhraseModel) (cids qids : tensor Z) (qm : option (tensor Z))
    (sp ep : option ref) (σ : store),
    let fwd := forward reduce_sum reduce_mean dot cross_entropy bce_with_logits
                 self (Some cids) None (Some qids) qm sp ep in
    is_ok (fwd σ).1 = false ∧
    (fwd σ).2 = σ ∧
    ∀ start end_ span_logits sfl efl qs qe qspan cm v,
      embed_context dot bce_with_logits self cids None σ
      = (Ok (start, end_, span_logits, sfl, efl), σ) →
      embed_query dot self qids qm = Ok (qs, qe, qspan) →
      joint_logits reduce_sum self start end_ span_logits qs qe qspan (Some cm) = Ok v →
      fwd σ = (Err AttributeError, σ).
Proof.
  intros rs rm dot ce bce self cids qids qm sp ep σ fwd. subst fwd.
  rewrite forward_joint.
  pose proof (embed_context_store dot bce self cids None σ) as Hc.
  destruct (embed_context dot bce self cids None σ)
    as [[[[[[start end_] span] sfl] efl]|e] σ1]; simpl in Hc; subst σ1.
  2: { repeat split; try done. }
  destruct (embed_query dot self qids qm) as [[[qs qe] qspan]|e].
  2: { repeat split; try done. }
  destruct (joint_logits_no_mask rs self start end_ span qs qe qspan) as [Hno Hattr].
  destruct (joint_logits rs self start end_ span qs qe qspan None) as [[sl al]|e] eqn:Hj;
    [discriminate|].
  split; [done|]. split; [done|].
  intros start' end' span' sfl' efl' qs' qe' qspan' cm v [= <- <- <- <- <-] [= <- <- <-] Hv.
  specialize (Hattr cm v Hv). by injection Hattr as ->.
Qed.

Lemma joint_call_needs_context_mask_witness :
  is_ok (Fixture.run_forward (Fixture.phrase_model "ip")
           (Some Fixture.context_ids) None (Some Fixture.query_ids) None
           (Some Fixture.start_ref) (Some Fixture.end_ref) Fixture.store0).1 = false ∧
  (Fixture.run_forward (Fixture.phrase_model "ip")
     (Some Fixture.context_ids) None (Some Fixture.query_ids) None
     (Some Fixture.start_ref) (Some Fixture.end_ref) Fixture.store0).2 = Fixture.store0.
Proof.
  destruct (joint_call_needs_context_mask
              Fixture.reduce_sum Fixture.reduce_mean Fixture.dot
              Fixture.cross_entropy Fixture.bce_with_logits
              (Fixture.phrase_model "ip") Fixture.context_ids Fixture.query_ids None
              (Some Fixture.start_ref) (Some Fixture.end_ref) Fixture.store0)
    as (H1 & H2 & _).
  split; [exact H1 | exact H2].
Defined.

(** ** An even phrase size *)

Lemma quot_boundary_even (h : nat) : Z.quot (2 * Z.of_nat h + 2 - 1) 2 = Z.of_nat h.
Proof.
  replace (2 * Z.of_nat h + 2 - 1) with (1 + Z.of_nat h * 2) by lia.
  rewrite Z.quot_add by lia. reflexivity.
Qed.

Section EvenFacts.
Variable dot : list spec_float → list spec_float → spec_float.
Variable bce_with_logits : tensor spec_float → tensor spec_float → Z → spec_float.

(** With phrase size [2h + 2] the boundary region has the odd width
    [2h + 1]: when [encode_phrase] returns at all, its [start] is one
    feature wider than its [end]. *)
Lemma encode_phrase_even layer (B L D h : nat) start end_ span :
  shape layer = [B; L; D] → (2 * h + 1 <= D)%nat →
  encode_phrase dot layer (2 * Z.of_nat h + 2) false = Ok (start, end_, span) →
  shape start = [B; L; (h + 1)%nat] ∧ shape end_ = [B; L; h].
Proof.
  intros Hsh HD.
  replace (2 * Z.of_nat h + 2) with (Z.of_nat (2 * h + 1) + 1) by lia.
  rewrite (encode_phrase_slices dot layer B L D (2 * h + 1)) by done.
  rewrite (chunk2_odd 2 h (narrow 2 0 (2 * h + 1) layer))
    by (cbn [narrow shape]; rewrite Hsh; reflexivity).
  cbn [mbind result_bind rbind].
  destruct h as [|h]; [discriminate|]. cbn [Nat.eqb unpack2 mbind result_bind rbind].
  destruct (chunk2 2 (narrow 2 (2 * S h + 1) (D - (2 * S h + 1)) layer) ≫= unpack2)
    as [[ss se]|]; [|discriminate].
  cbn [mbind result_bind rbind].
  destruct (transpose12 se ≫= matmul dot ss) as [sl|]; [|discriminate].
  cbn [mbind result_bind rbind mret result_ret]. intros [= <- <- <-].
  cbn [narrow shape]. rewrite Hsh. split; reflexivity.
Qed.

End EvenFacts.

(** X11. A model built by [PhraseModel.__init__] with an even phrase size
    [P >= 2] cannot embed a context: on an encoder output of shape
    [(B, L, D)] with [P - 1 <= D], every call of [forward] that is given a
    context raises. The boundary region then has an odd width, so its two
    chunks differ by one feature (or there is only one chunk), while the
    filter's linear layers were built for the truncated half [(P - 2) / 2]. *)
Theorem even_phrase_size_rejected :
  ∀ reduce_sum reduce_mean dot cross_entropy bce_with_logits
    (enc : tensor Z → option (tensor Z) → result (tensor spec_float))
    (P : Z) (metric_name : string) (init_default : spec_float)
    (init_start init_end : list spec_float → spec_float) (self : PhraseModel)
    (cids : tensor Z) (cm qids qm : option (tensor Z)) (sp ep : option ref)
    (layer : tensor spec_float) (B L D : nat) (σ : store),
    phrase_init enc P metric_name init_default init_start init_end = Ok self →
    Z.even P = true → 2 <= P →
    enc cids cm = Ok layer → shape layer = [B; L; D] → P - 1 <= Z.of_nat D →
    is_ok (forward reduce_sum reduce_mean dot cross_entropy bce_with_logits
             self (Some cids) cm qids qm sp ep σ).1 = false.
Proof.
  intros rs rm dot ce bce enc P m d0 is_ ie self cids cm qids qm sp ep layer B L D σ
    Hinit Heven HP Henc Hsh HD.
  apply Z.even_spec in Heven as [p Hp].
  assert (HPh : P = 2 * Z.of_nat (Z.to_nat (p - 1)) + 2) by lia.
  set (h := Z.to_nat (p - 1)) in *. clearbody h.
  unfold phrase_init in Hinit. rewrite HPh, quot_boundary_even in Hinit.
  destruct (Z.ltb_spec (Z.of_nat h) 0); [lia|]. injection Hinit as <-.
  assert (Hctx : ∀ v σ1,
            embed_context dot bce
              {| encoder := enc; boundary_size := Z.of_nat h;
                 phrase_size := 2 * Z.of_nat h + 2;
                 default_value := Tensor [1%nat] (fun _ => d0);
                 filter := {| start_linear := {| in_features := Z.to_nat (Z.of_nat h);
                                                 affine := is_ |};
                              end_linear := {| in_features := Z.to_nat (Z.of_nat h);
                                               affine := ie |} |};
                 metric := m |} cids cm σ ≠ (Ok v, σ1)).
  { intros v σ1 Hrun. unfold embed_context in Hrun. cbn [encoder phrase_size filter] in Hrun.
    rewrite Henc in Hrun. cbn [mbind result_bind rbind] in Hrun.
    destruct (encode_phrase dot layer (2 * Z.of_nat h + 2) false)
      as [[[start end_] span]|] eqn:Hph; [|discriminate].
    apply (encode_phrase_even dot layer B L D h) in Hph as [Ss Se]; [|done|lia].
    unfold mbind, St_bind, lift in Hrun. cbn beta iota in Hrun.
    unfold filter_forward, mbind, St_bind, lift in Hrun.
    unfold linear_forward in Hrun. cbn [start_linear in_features] in Hrun.
    rewrite Ss in Hrun. cbn [reverse rev_append] in Hrun.
    rewrite Nat2Z.id in Hrun.
    destruct (Nat.eqb_spec (h + 1) h); [lia|]. discriminate. }
  destruct qids as [qids|].
  - rewrite forward_joint.
    destruct (embed_context _ _ _ _ _ _) as [[v|e] σ1]; [|done].
    exfalso. by apply (Hctx v σ1).
  - unfold forward, mbind, St_bind.
    destruct (embed_context _ _ _ _ _ _) as [[v|e] σ1]; [|done].
    exfalso. by apply (Hctx v σ1).
Qed.

Lemma even_phrase_size_rejected_witness :
  phrase_init (Fixture.token_encoder 4) 4 "ip" F32.one
    Fixture.reduce_sum Fixture.reduce_sum = Ok Sample.even_model ∧
  Z.even 4 = true ∧ 2 <= 4 ∧
  Fixture.token_encoder 4 Fixture.context_ids (Some Fixture.context_mask)
  = Ok Sample.context_layer ∧
  shape Sample.context_layer = [1; 2; 4]%nat ∧ 4 - 1 <= Z.of_nat 4 ∧
  is_ok (Fixture.run_forward Sample.even_model
           (Some Fixture.context_ids) (Some Fixture.context_mask) None None
           None None Fixture.store0).1 = false.
Proof.
  split; [reflexivity|]. split; [reflexivity|]. split; [lia|].
  split; [reflexivity|]. split; [reflexivity|]. split; [simpl; lia|].
  apply (even_phrase_size_rejected Fixture.reduce_sum Fixture.reduce_mean Fixture.dot
           Fixture.cross_entropy Fixture.bce_with_logits
           (Fixture.token_encoder 4) 4 "ip" F32.one
           Fixture.reduce_sum Fixture.reduce_sum Sample.even_model
           Fixture.context_ids (Some Fixture.context_mask) None None None None
           Sample.context_layer 1 2 4 Fixture.store0
           eq_refl eq_refl ltac:(lia) eq_refl eq_refl ltac:(simpl; lia)).
Defined.

(** ** The metrics on batches *)

Section BatchedMetric.
Variable reduce_sum : list spec_float → spec_float.

(** The inner products along the last dimension, entry by entry. *)
Lemma get_logits_ip_run a b sh k :
  broadcast_shapes (shape a) (shape b) = Some (sh ++ [k]) →
  get_logits reduce_sum a b "ip"
  = Ok (Tensor sh
          (fun idx => reduce_sum
             ((fun c => F32.mul (at_ a (bidx (shape a) (idx ++ [c])))
                                (at_ b (bidx (shape b) (idx ++ [c])))) <$> seq 0 k))).
Proof.
  intros H. rewrite get_logits_ip, (map2_ok _ _ _ _ H).
  cbn [fmap result_fmap rbind]. unfold sum_last. cbn [shape].
  rewrite reverse_snoc, reverse_involutive. reflexivity.
Qed.

Lemma get_logits_l2_run a b sh shb k :
  shape a = sh ++ [k] → shape b = shb ++ [k] →
  broadcast_shapes (sh ++ [k]) (shb ++ [k]) = Some (sh ++ [k]) →
  broadcast_shapes sh shb = Some sh →
  get_logits reduce_sum a b "l2"
  = Ok (Tensor sh
          (fun idx =>
             let ip x sx y sy i :=
               reduce_sum ((fun c => F32.mul (at_ x (bidx sx (i ++ [c])))
                                             (at_ y (bidx sy (i ++ [c])))) <$> seq 0 k) in
             F32.sub (ip a (sh ++ [k]) b (shb ++ [k]) (bidx sh idx))
               (F32.mul
                  (F32.add (ip a (sh ++ [k]) a (sh ++ [k]) (bidx sh (bidx sh idx)))
                           (ip b (shb ++ [k]) b (shb ++ [k]) (bidx shb (bidx sh idx))))
                  F32.half))).
Proof.
  intros Ha Hb Hab Hq. rewrite get_logits_l2.
  rewrite (get_logits_ip_run a b sh k) by (by rewrite Ha, Hb).
  rewrite (get_logits_ip_run a a sh k) by (rewrite Ha; apply broadcast_same).
  rewrite (get_logits_ip_run b b shb k) by (rewrite Hb; apply broadcast_same).
  cbn [mbind result_bind rbind].
  rewrite (map2_ok F32.add _ _ sh) by done.
  cbn [mbind result_bind rbind].
  rewrite (map2_ok F32.sub _ _ sh) by apply broadcast_same.
  cbn [shape at_ tmap]. rewrite Ha, Hb. reflexivity.
Qed.

End BatchedMetric.

(** X12. On a context operand of shape [(B, L, k)] and a query operand of
    shape [(B, 1, k)], both metrics return a matrix of shape [(B, L)] whose
    entry [(b, i)] is the metric of two vectors: the vector of context
    position [i] and the vector of the single query position, both of batch
    element [b]. Every context position is scored against the same query
    vector, and batch elements do not mix. *)
Theorem get_logits_rowwise :
  ∀ (reduce_sum : list spec_float → spec_float)
    (a q : tensor spec_float) (metric_name : string) (B L k : nat),
    metric_name = "ip" ∨ metric_name = "l2" →
    shape a = [B; L; k] → shape q = [B; 1%nat; k] →
    ∃ t, get_logits reduce_sum a q metric_name = Ok t ∧ shape t = [B; L] ∧
      ∀ b i, (b < B)%nat → (i < L)%nat →
        (fun s => at_ s [])
          <$> get_logits reduce_sum (row a [b; i] k) (row q [b; 0%nat] k) metric_name
        = Ok (at_ t [b; i]).
Proof.
  intros rs a q m B L k Hm Ha Hq.
  assert (Hk : broadcast_shapes [k] [k] = Some ([] ++ [k])) by apply broadcast_same.
  assert (H0 : broadcast_shapes [] [] = Some (@nil nat)) by reflexivity.
  destruct Hm as [-> | ->].
  - rewrite (get_logits_ip_run rs a q [B; L] k) by (rewrite Ha, Hq; bdims).
    eexists. split; [reflexivity|]. split; [reflexivity|].
    intros b i Hb Hi.
    rewrite (get_logits_ip_run rs (row a [b; i] k) (row q [b; 0%nat] k) [] k) by done.
    cbn [fmap result_fmap rbind at_ row shape app]. rewrite Ha, Hq.
    unfold bidx. cbn. rewrite (bsel_lt B b), (bsel_lt L i) by done. reflexivity.
  - rewrite (get_logits_l2_run rs a q [B; L] [B; 1%nat] k) by (done || bdims).
    eexists. split; [reflexivity|]. split; [reflexivity|].
    intros b i Hb Hi.
    rewrite (get_logits_l2_run rs (row a [b; i] k) (row q [b; 0%nat] k) [] [] k)
      by done.
    cbn [fmap result_fmap rbind at_ row shape app]. cbv zeta.
    unfold bidx. cbn. rewrite !(bsel_lt B b), !(bsel_lt L i) by done.
    reflexivity.
Qed.

Lemma get_logits_rowwise_witness :
  ("l2" = "ip" ∨ "l2" = "l2") ∧
  shape (Fixture.zeros [1; 2; 3]%nat) = [1; 2; 3]%nat ∧
  shape (Fixture.zeros [1; 1; 3]%nat) = [1; 1; 3]%nat ∧
  ∃ t, get_logits Fixture.reduce_sum (Fixture.zeros [1; 2; 3]%nat)
         (Fixture.zeros [1; 1; 3]%nat) "l2" = Ok t ∧
       shape t = [1; 2]%nat.
Proof.
  split; [by right|]. split; [reflexivity|]. split; [reflexivity|].
  destruct (get_logits_rowwise Fixture.reduce_sum (Fixture.zeros [1; 2; 3]%nat)
              (Fixture.zeros [1; 1; 3]%nat) "l2" 1 2 3
              ltac:(by right) eq_refl eq_refl) as (t & Ht & St & _).
  by exists t.
Defined.

(** ** Joint calls, end to end *)

Section JointFacts.
Variable reduce_sum : list spec_float → spec_float.
Variable dot : list spec_float → list spec_float → spec_float.
Variable bce_with_logits : tensor spec_float → tensor spec_float → Z → spec_float.

(** The scoring steps on well-shaped operands: the three score tensors and
    their masked sum. *)
Lemma joint_logits_run self start end_ span qs qe qspan (cm : tensor Z) (B L k : nat) :
  metric self = "ip" ∨ metric self = "l2" →
  shape start = [B; L; k] → shape end_ = [B; L; k] → shape span = [B; L; L] →
  shape qs = [B; 1%nat; k] → shape qe = [B; 1%nat; k] →
  shape qspan = [B; 1%nat; 1%nat] → shape cm = [B; L] →
  ∃ sl el cl al,
    get_logits reduce_sum start qs (metric self) = Ok sl ∧
    get_logits reduce_sum end_ qe (metric self) = Ok el ∧
    get_logits reduce_sum
      (Tensor [B; L; L; 1%nat] (fun idx => at_ span (take 3 idx ++ drop 4 idx)))
      (Tensor [B; 1%nat; 1%nat; 1%nat] (fun idx => at_ qspan (take 3 idx ++ drop 4 idx)))
      (metric self) = Ok cl ∧
    joint_logits reduce_sum self start end_ span qs qe qspan (Some cm) = Ok (sl, al) ∧
    shape sl = [B; L] ∧ shape al = [B; L; L] ∧
    ∀ b i j, (b < B)%nat → (i < L)%nat → (j < L)%nat →
      at_ al [b; i; j]
      = F32.add (F32.add (F32.add (at_ sl [b; i]) (at_ el [b; j])) (at_ cl [b; i; j]))
          (F32.mul (F32.sub F32.one
                      (F32.of_Z (I64.band (at_ cm [b; j]) (at_ cm [b; i]))))
                   F32.neg_1e9).
Proof.
  intros Hm Hstart Hend Hspan Hqs Hqe Hqspan Hcm.
  destruct (get_logits_shape reduce_sum start qs (metric self) [B; L] [B; 1%nat] k)
    as (sl & Hsl & Ssl); [done | done | done | bdims | bdims |].
  destruct (get_logits_shape reduce_sum end_ qe (metric self) [B; L] [B; 1%nat] k)
    as (el & Hel & Sel); [done | done | done | bdims | bdims |].
  assert (Hu1 : unsqueeze (-1) span
                = Ok (Tensor [B; L; L; 1%nat] (fun idx => at_ span (take 3 idx ++ drop 4 idx)))).
  { unfold unsqueeze, norm_dim, rank. rewrite Hspan. reflexivity. }
  assert (Hu2 : unsqueeze (-1) qspan
                = Ok (Tensor [B; 1%nat; 1%nat; 1%nat]
                        (fun idx => at_ qspan (take 3 idx ++ drop 4 idx)))).
  { unfold unsqueeze, norm_dim, rank. rewrite Hqspan. reflexivity. }
  destruct (get_logits_shape reduce_sum
              (Tensor [B; L; L; 1%nat] (fun idx => at_ span (take 3 idx ++ drop 4 idx)))
              (Tensor [B; 1%nat; 1%nat; 1%nat]
                 (fun idx => at_ qspan (take 3 idx ++ drop 4 idx)))
              (metric self) [B; L; L] [B; 1%nat; 1%nat] 1)
    as (cl & Hcl & Scl); [done | done | done | bdims | bdims |].
  destruct (score_matrix_run sl el cl cm B L Ssl Sel Scl Hcm)
    as (al & mask & Hal & Hmask & Sal & Hat).
  destruct (exp_mask_run cm B L Hcm) as (mask' & Hmask' & _ & Hmat).
  rewrite Hmask in Hmask'. injection Hmask' as <-.
  exists sl, el, cl, al.
  split; [done|]. split; [done|]. split; [done|]. split.
  { unfold joint_logits. rewrite Hsl, Hel, Hu1, Hu2.
    cbn [mbind result_bind rbind]. rewrite Hcl.
    cbn [mbind result_bind rbind]. rewrite Hal. reflexivity. }
  split; [done|]. split; [done|].
  intros b i j Hb Hi Hj. by rewrite (Hat b i j Hb Hi Hj), (Hmat b i j Hb Hi Hj).
Qed.

(** The query embedding of a model of phrase size [2h + 1] on an encoder
    output of shape [(B, L, 2h + 2g)], [L >= 1]. *)
Lemma embed_query_run self qids qm layer (B L h g : nat) :
  encoder self qids qm = Ok layer →
  shape layer = [B; L; (2 * h + 2 * g)%nat] → (1 <= L)%nat →
  phrase_size self = 2 * Z.of_nat h + 1 →
  ∃ qs qe qspan,
    embed_query dot self qids qm = Ok (qs, qe, qspan) ∧
    shape qs = [B; 1%nat; h] ∧ shape qe = [B; 1%nat; h] ∧
    shape qspan = [B; 1%nat; 1%nat] ∧
    ∀ b, (b < B)%nat →
      (∀ c, at_ qs [b; 0%nat; c] = at_ layer [b; 0%nat; c] ∧
            at_ qe [b; 0%nat; c] = at_ layer [b; 0%nat; (h + c)%nat]) ∧
      at_ qspan [b; 0%nat; 0%nat]
      = dot ((fun x => at_ layer [b; 0%nat; (2 * h + x)%nat]) <$> seq 0 g)
            ((fun x => at_ layer [b; 0%nat; (2 * h + (g + x))%nat]) <$> seq 0 g).
Proof.
  intros Henc Hsh HL HP.
  destruct (encode_phrase_run dot layer B L h g Hsh)
    as (start & end_ & span & _ & _ & _ & _ & Hat & Hspan & Hfirst).
  destruct (Hfirst HL) as (qs & qe & qspan & Hrun & Sqs & Sqe & Sqspan & Hq1 & Hq2).
  exists qs, qe, qspan. split.
  { unfold embed_query. rewrite Henc, HP. cbn [mbind result_bind rbind]. exact Hrun. }
  repeat (split; [done|]).
  intros b Hb. split.
  - intros c. rewrite (proj1 (Hq1 b c)), (proj2 (Hq1 b c)). apply Hat.
  - rewrite Hq2. by apply Hspan.
Qed.

End JointFacts.

(** X13. Inference, end to end. On a model built by [PhraseModel.__init__]
    with an odd phrase size [P] and a supported metric, a context whose
    encoder output has shape [(B, L, D)], a query whose encoder output has
    shape [(B, Lq, D)] with [Lq >= 1], [P - 1 <= D], [D - (P - 1)] even, a
    context mask of shape [(B, L)] and at most one position tensor,
    [forward] returns the score matrix, of shape [(B, L, L)], with the two
    filter-logit matrices that the call without a query returns, and writes
    nothing. With the inner-product metric, the score of the span from [i]
    to [j] in batch element [b] is
    [((S + E) + C) + M]: [S] the inner product of the start vector of
    context position [i] with the start vector of the first query token,
    [E] the same for the end vectors of position [j], [C] the product of the
    span score of [(i, j)] with the span score of the first query token, and
    [M] the mask term of the two positions. *)
Theorem forward_inference_scores :
  ∀ reduce_sum reduce_mean dot cross_entropy bce_with_logits
    (enc : tensor Z → option (tensor Z) → result (tensor spec_float))
    (P : Z) (metric_name : string) (init_default : spec_float)
    (init_start init_end : list spec_float → spec_float) (self : PhraseModel)
    (cids qids cm : tensor Z) (qm : option (tensor Z)) (sp ep : option ref)
    (clayer qlayer : tensor spec_float) (B L Lq D : nat) (σ : store),
    phrase_init enc P metric_name init_default init_start init_end = Ok self →
    metric_name = "ip" ∨ metric_name = "l2" →
    Z.odd P = true → 1 <= P →
    enc cids (Some cm) = Ok clayer → shape clayer = [B; L; D] →
    enc qids qm = Ok qlayer → shape qlayer = [B; Lq; D] → (1 <= Lq)%nat →
    P - 1 <= Z.of_nat D → Z.even (Z.of_nat D - (P - 1)) = true →
    shape cm = [B; L] →
    sp = None ∨ ep = None →
    let h := Z.to_nat ((P - 1) / 2) in
    let g := ((D - 2 * h) / 2)%nat in
    let fwd := forward reduce_sum reduce_mean dot cross_entropy bce_with_logits self in
    ∃ start end_ span_logits all_logits sfl efl,
      fwd (Some cids) (Some cm) None qm sp ep σ
      = (Ok (OutContext start end_ span_logits sfl efl), σ) ∧
      fwd (Some cids) (Some cm) (Some qids) qm sp ep σ
      = (Ok (OutInference all_logits sfl efl), σ) ∧
      shape all_logits = [B; L; L] ∧
      (metric_name = "ip" →
       ∀ b i j, (b < B)%nat → (i < L)%nat → (j < L)%nat →
         let S := reduce_sum ((fun c => F32.mul (at_ clayer [b; i; c])
                                                (at_ qlayer [b; 0%nat; c])) <$> seq 0 h) in
         let E := reduce_sum ((fun c => F32.mul (at_ clayer [b; j; (h + c)%nat])
                                                (at_ qlayer [b; 0%nat; (h + c)%nat]))
                                <$> seq 0 h) in
         let span x y := dot ((fun c => at_ x [b; y.1; (2 * h + c)%nat]) <$> seq 0 g)
                             ((fun c => at_ x [b; y.2; (2 * h + g + c)%nat]) <$> seq 0 g) in
         let C := reduce_sum [F32.mul (span clayer (i, j)) (span qlayer (0%nat, 0%nat))] in
         let M := F32.mul (F32.sub F32.one
                             (F32.of_Z (I64.band (at_ cm [b; j]) (at_ cm [b; i]))))
                          F32.neg_1e9 in
         at_ all_logits [b; i; j] = F32.add (F32.add (F32.add S E) C) M).
Proof.
  intros rs rm dot ce bce enc P m d0 is_ ie self cids qids cm qm sp ep clayer qlayer
    B L Lq D σ Hinit Hm Hodd HP Hcenc Hcsh Hqenc Hqsh HLq HD Heven Hcm Hnone h g fwd.
  apply Z.odd_spec in Hodd as [p Hp]. apply Z.even_spec in Heven as [q Hq].
  assert (Hh : h = Z.to_nat p).
  { subst h. f_equal. rewrite Hp. replace (2 * p + 1 - 1) with (p * 2) by lia.
    apply Z.div_mul. lia. }
  assert (Hg : g = Z.to_nat q).
  { subst g. symmetry. apply Nat.div_unique with 0%nat; lia. }
  assert (HPh : P = 2 * Z.of_nat h + 1) by lia.
  assert (HDg : D = (2 * h + 2 * g)%nat) by lia.
  clearbody h g. subst fwd. rewrite HDg in Hcsh, Hqsh. rewrite HPh in Hinit.
  apply phrase_init_odd in Hinit as (Eenc & EP & Emetric & _ & Eks & Eke & _).
  destruct (embed_context_run dot bce self cids (Some cm) clayer B L h g)
    as (start & end_ & span & sfl & efl & Hctx & Hph & Ss & Se & Sp & _);
    [by rewrite Eenc | done..|].
  destruct (encode_phrase_run dot clayer B L h g Hcsh)
    as (start' & end' & span' & Hph' & _ & _ & _ & Hcat & Hcspan & _).
  rewrite Hph in Hph'. injection Hph' as <- <- <-.
  destruct (embed_query_run dot self qids qm qlayer B Lq h g)
    as (qs & qe & qspan & Hqry & Sqs & Sqe & Sqspan & Hqat);
    [by rewrite Eenc | done..|].
  destruct (joint_logits_run rs self start end_ span qs qe qspan cm B L h)
    as (sl & el & cl & al & Hsl & Hel & Hcl & Hjoint & _ & Sal & Hal);
    [by rewrite Emetric | done..|].
  exists start, end_, span, al, sfl, efl. split.
  { unfold forward. by rewrite (St_bind_eq _ _ σ _ σ (Hctx σ)). }
  split.
  { rewrite forward_joint, (Hctx σ), Hqry, Hjoint.
    destruct Hnone as [-> | ->]; [|destruct sp]; reflexivity. }
  split; [done|].
  intros -> b i j Hb Hi Hj. cbv zeta. rewrite (Hal b i j Hb Hi Hj).
  rewrite Emetric in Hsl, Hel, Hcl.
  rewrite (get_logits_ip_run rs start qs [B; L] h) in Hsl by (rewrite Ss, Sqs; bdims).
  rewrite (get_logits_ip_run rs end_ qe [B; L] h) in Hel by (rewrite Se, Sqe; bdims).
  rewrite (get_logits_ip_run rs _ _ [B; L; L] 1) in Hcl by (cbn [shape]; bdims).
  injection Hsl as <-. injection Hel as <-. injection Hcl as <-.
  cbn [at_ shape]. rewrite Ss, Se, Sqs, Sqe. unfold bidx. cbn.
  rewrite !(bsel_lt B b), !(bsel_lt L i), !(bsel_lt L j) by done.
  destruct (Hqat b Hb) as [Hq1 Hq2]. rewrite Hq2, (Hcspan b i j Hb).
  f_equal. f_equal; [f_equal|].
  - f_equal. apply list_fmap_ext. intros n c Hc.
    apply lookup_seq in Hc as [Hc Hn]. rewrite (bsel_lt h c) by lia.
    by rewrite (proj1 (Hcat b i c)), (proj1 (Hq1 c)).
  - f_equal. apply list_fmap_ext. intros n c Hc.
    apply lookup_seq in Hc as [Hc Hn]. rewrite (bsel_lt h c) by lia.
    by rewrite (proj2 (Hcat b j c)), (proj2 (Hq1 c)).
  - do 3 f_equal; f_equal; apply list_fmap_ext; intros _ c _;
      repeat (f_equal; try lia).
Qed.

Lemma forward_inference_scores_witness :
  phrase_init (Fixture.token_encoder 4) 3 "ip" F32.one
    Fixture.reduce_sum Fixture.reduce_sum = Ok (Fixture.phrase_model "ip") ∧
  ("ip" = "ip" ∨ "ip" = "l2") ∧ Z.odd 3 = true ∧ 1 <= 3 ∧
  Fixture.token_encoder 4 Fixture.context_ids (Some Fixture.context_mask)
  = Ok Sample.context_layer ∧
  shape Sample.context_layer = [1; 2; 4]%nat ∧
  Fixture.token_encoder 4 Fixture.query_ids None = Ok Sample.query_layer ∧
  shape Sample.query_layer = [1; 1; 4]%nat ∧ (1 <= 1)%nat ∧
  3 - 1 <= Z.of_nat 4 ∧ Z.even (Z.of_nat 4 - (3 - 1)) = true ∧
  shape Fixture.context_mask = [1; 2]%nat ∧
  ∃ all_logits sfl efl,
    Fixture.joint_call "ip" (Some Fixture.start_ref) None Fixture.store0
    = (Ok (OutInference all_logits sfl efl), Fixture.store0) ∧
    shape all_logits = [1; 2; 2]%nat.
Proof.
  split; [reflexivity|]. split; [by left|]. split; [reflexivity|]. split; [lia|].
  split; [reflexivity|]. split; [reflexivity|]. split; [reflexivity|].
  split; [reflexivity|]. split; [lia|]. split; [simpl; lia|].
  split; [reflexivity|]. split; [reflexivity|].
  destruct (forward_inference_scores Fixture.reduce_sum Fixture.reduce_mean Fixture.dot
              Fixture.cross_entropy Fixture.bce_with_logits
              (Fixture.token_encoder 4) 3 "ip" F32.one
              Fixture.reduce_sum Fixture.reduce_sum (Fixture.phrase_model "ip")
              Fixture.context_ids Fixture.query_ids Fixture.context_mask None
              (Some Fixture.start_ref) None
              Sample.context_layer Sample.query_layer 1 2 1 4 Fixture.store0
              eq_refl ltac:(by left) eq_refl ltac:(lia) eq_refl eq_refl eq_refl eq_refl
              ltac:(lia) ltac:(simpl; lia) eq_refl eq_refl ltac:(by right))
    as (start & end_ & span & al & sfl & efl & _ & H & S & _).
  by exists al, sfl, efl.
Defined.

(** ** Training calls, end to end *)

(** The positions a view of shape [(B)] reads from its storage. *)
Lemma clamp_fmap_idem (L : nat) (d : list Z) :
  I64.clamp (-1) (Z.of_nat L) <$> (I64.clamp (-1) (Z.of_nat L) <$> d)
  = I64.clamp (-1) (Z.of_nat L) <$> d.
Proof.
  rewrite <- list_fmap_compose. apply list_fmap_ext. intros _ x _. simpl.
  apply clamp_idem. lia.
Qed.

Section TrainFacts.
Variable reduce_mean : list spec_float → spec_float.
Variable cross_entropy : Z → tensor spec_float → tensor Z → result spec_float.
Variable bce_with_logits : tensor spec_float → tensor spec_float → Z → spec_float.

(** The filter in training mode on well-shaped operands. *)
Lemma filter_forward_train_run (self : BoundaryFilter) sv ev (sp ep : ref)
    (σ : store) (B L k : nat) (ds de : list Z) :
  shape sv = [B; L; k] → shape ev = [B; L; k] →
  in_features (start_linear self) = k → in_features (end_linear self) = k →
  view_shape sp = [B] → view_shape ep = [B] →
  σ !! loc sp = Some ds → σ !! loc ep = Some de →
  Z.of_nat L + 1 < 2 ^ 63 →
  let s := Tensor [B] (fun idx => nth (ravel [B] idx)
                                      (I64.clamp (-1) (Z.of_nat L) <$> ds) 0) in
  let e := Tensor [B] (fun idx => nth (ravel [B] idx)
                                      (I64.clamp (-1) (Z.of_nat L) <$> de) 0) in
  ∃ sl el ts te,
    squeeze_last <$> linear_forward (start_linear self) sv = Ok sl ∧
    squeeze_last <$> linear_forward (end_linear self) ev = Ok el ∧
    one_hot s L = Ok ts ∧ one_hot e L = Ok te ∧
    filter_forward bce_with_logits self sv ev (Some sp) (Some ep) σ
    = (Ok (FilterLoss
             (F32.add
                (F32.mul (bce_with_logits sl ts (Z.of_nat L)) F32.half)
                (F32.mul (bce_with_logits el te (Z.of_nat L)) F32.half))),
       alter (fmap (I64.clamp (-1) (Z.of_nat L))) (loc ep)
         (alter (fmap (I64.clamp (-1) (Z.of_nat L))) (loc sp) σ)).
Proof.
  intros Hsv Hev Hks Hke Hsp Hep Hds Hde HL s e.
  destruct (linear_forward_run _ _ B L k Hsv Hks) as (sl & Hsl & Ssl).
  destruct (linear_forward_run _ _ B L k Hev Hke) as (el & Hel & Sel).
  set (σ' := alter (fmap (I64.clamp (-1) (Z.of_nat L))) (loc ep)
               (alter (fmap (I64.clamp (-1) (Z.of_nat L))) (loc sp) σ)).
  assert (Hσ' : ∀ l, σ' !! l = if decide (l = loc sp ∨ l = loc ep)
                                then fmap (I64.clamp (-1) (Z.of_nat L)) <$> σ !! l
                                else σ !! l) by (intros; apply clamped_lookup).
  assert (Hs' : σ' !! loc sp = Some (I64.clamp (-1) (Z.of_nat L) <$> ds))
    by (by rewrite Hσ', decide_True, Hds by auto).
  assert (He' : σ' !! loc ep = Some (I64.clamp (-1) (Z.of_nat L) <$> de))
    by (by rewrite Hσ', decide_True, Hde by auto).
  destruct (one_hot_run s B L) as (ts & Hts & Sts & _);
    [done | intros; apply nth_clamped_range | done |].
  destruct (one_hot_run e B L) as (te & Hte & Ste & _);
    [done | intros; apply nth_clamped_range | done |].
  exists sl, el, ts, te. repeat (split; [done|]).
  unfold filter_forward.
  rewrite (St_bind_eq _ _ σ sl σ) by (unfold lift; by rewrite Hsl).
  rewrite (St_bind_eq _ _ σ el σ) by (unfold lift; by rewrite Hel).
  rewrite (St_bind_eq _ _ σ L σ) by (unfold lift, size; by rewrite Ssl).
  rewrite (St_bind_eq _ _ σ sp σ) by done.
  rewrite (St_bind_eq _ _ σ () _ (clamp__run sp _ _ σ ltac:(by eexists))).
  rewrite (St_bind_eq _ _ _ ep _) by done.
  rewrite (St_bind_eq _ _ _ () σ')
    by (apply clamp__run; rewrite lookup_alter; case_decide;
        [rewrite Hds | rewrite Hde]; by eexists).
  rewrite (St_bind_eq _ _ σ' s σ') by (rewrite (deref_run _ _ _ Hs'), Hsp; done).
  rewrite (St_bind_eq _ _ σ' ts σ') by (unfold lift; by rewrite Hts).
  rewrite (St_bind_eq _ _ σ' e σ') by (rewrite (deref_run _ _ _ He'), Hep; done).
  rewrite (St_bind_eq _ _ σ' te σ') by (unfold lift; by rewrite Hte).
  unfold bce. rewrite Sts, Ste, Ssl, Sel.
  rewrite !decide_True by done. reflexivity.
Qed.


(** What the library's cross-entropy is assumed to accept: a matrix of
    logits with one row per target, every target being a column of the
    matrix or the ignored index. *)
Hypothesis cross_entropy_accepts :
  ∀ ii x t (B C : nat),
    shape x = [B; C] → shape t = [B] →
    Forall (fun v => v = ii ∨ 0 <= v < Z.of_nat C) (elements t) →
    is_ok (cross_entropy ii x t) = true.

Lemma elements_nonempty {A} (t : tensor A) (B : nat) :
  shape t = [B] → (0 < B)%nat → elements t ≠ [].
Proof.
  intros Hsh HB. unfold elements. rewrite Hsh.
  destruct B as [|B]; [lia|]. discriminate.
Qed.

(** The default-aware loss returns on [C] columns and targets in
    [[-1, C]], [C] being the index to ignore. *)
Lemma cel_forward_run dv input target (B C : nat) :
  shape input = [B; C] → shape dv = [1%nat] → shape target = [B] → (0 < B)%nat →
  (∀ idx, -1 <= at_ target idx <= Z.of_nat C) → Z.of_nat C + 1 < 2 ^ 63 →
  ∃ v, cel_forward cross_entropy (cel_init dv (Z.of_nat C)) input target = Ok v.
Proof.
  intros Hin Hdv Ht HB Hrange HC.
  destruct (cel_forward_input cross_entropy dv (Z.of_nat C) input B C Hin Hdv)
    as (ni & Sni & _ & Hfw).
  rewrite Hfw.
  assert ((0 <=? Z.of_nat C) = true) as -> by (apply Z.leb_le; lia).
  destruct (tmin (tmap (fun t => I64.add t 1) target)) as [m|err] eqn:Hm.
  - apply tmin_ok in Hm as [Hm _]. rewrite elements_tmap in Hm.
    apply list_elem_of_fmap in Hm as (t & -> & Hin').
    unfold elements in Hin'. apply list_elem_of_fmap in Hin' as (idx & -> & _).
    pose proof (Hrange idx) as Hr.
    cbn [mbind result_bind rbind]. unfold I64.add at 1. rewrite wrap_small by lia.
    assert ((0 <=? at_ target idx + 1) = true) as -> by (apply Z.leb_le; lia).
    cbn [negb].
    pose proof (cross_entropy_accepts (Z.of_nat C + 1) ni
                  (tmap (fun t => I64.add t 1) target) B (S C) Sni Ht) as Hacc.
    destruct (cross_entropy _ _ _) as [v|]; [by eexists|].
    exfalso. cut (false = true); [discriminate|]. apply Hacc.
    apply elements_range. intros idx'. cbn [at_ tmap].
    specialize (Hrange idx'). unfold I64.add. rewrite wrap_small by lia. lia.
  - apply tmin_err in Hm as [_ Hm]. rewrite elements_tmap in Hm.
    apply fmap_nil_inv in Hm. by apply (elements_nonempty target B) in Hm.
Qed.

Lemma mean_dim_square al (B L : nat) :
  shape al = [B; L; L] →
  (∃ p, mean_dim reduce_mean 2 al = Ok p ∧ shape p = [B; L]) ∧
  (∃ p, mean_dim reduce_mean 1 al = Ok p ∧ shape p = [B; L]).
Proof.
  intros Hal. unfold mean_dim, size. rewrite Hal.
  split; eexists; (split; [reflexivity|]); reflexivity.
Qed.

(** The training branch on well-shaped operands. *)
Lemma train_run self start end_ sl al (sp ep : ref) (σ : store)
    (B L k : nat) (ds de : list Z) :
  shape start = [B; L; k] → shape end_ = [B; L; k] →
  shape sl = [B; L] → shape al = [B; L; L] →
  in_features (start_linear (filter self)) = k →
  in_features (end_linear (filter self)) = k →
  shape (default_value self) = [1%nat] →
  view_shape sp = [B] → view_shape ep = [B] →
  σ !! loc sp = Some ds → σ !! loc ep = Some de →
  (0 < B)%nat → Z.of_nat L * Z.of_nat L + 1 < 2 ^ 63 →
  let s := Tensor [B] (fun idx => nth (ravel [B] idx)
                                      (I64.clamp (-1) (Z.of_nat L) <$> ds) 0) in
  let e := Tensor [B] (fun idx => nth (ravel [B] idx)
                                      (I64.clamp (-1) (Z.of_nat L) <$> de) 0) in
  let σ' := alter (fmap (I64.clamp (-1) (Z.of_nat L))) (loc ep)
              (alter (fmap (I64.clamp (-1) (Z.of_nat L))) (loc sp) σ) in
  ∃ flat pooled_start pooled_end target true_loss start_loss end_loss filter_loss,
    view_rows al = Ok flat ∧
    mean_dim reduce_mean 2 al = Ok pooled_start ∧
    mean_dim reduce_mean 1 al = Ok pooled_end ∧
    span_target (Z.of_nat L) s e = Ok target ∧
    cel_forward cross_entropy
      (cel_init (default_value self) (Z.of_nat L ^ 2)) flat target = Ok true_loss ∧
    cel_forward cross_entropy
      (cel_init (default_value self) (Z.of_nat L)) pooled_start s = Ok start_loss ∧
    cel_forward cross_entropy
      (cel_init (default_value self) (Z.of_nat L)) pooled_end e = Ok end_loss ∧
    filter_forward bce_with_logits (filter self) start end_ (Some sp) (Some ep) σ
    = (Ok (FilterLoss filter_loss), σ') ∧
    filter_forward bce_with_logits (filter self) start end_ (Some sp) (Some ep) σ'
    = (Ok (FilterLoss filter_loss), σ') ∧
    train reduce_mean cross_entropy bce_with_logits self start end_ sl al sp ep σ
    = (Ok (OutTrain (F32.add true_loss
                       (F32.mul (F32.add start_loss end_loss) F32.half))
                    filter_loss), σ').
Proof.
  intros Hstart Hend Hsl Hal Hks Hke Hdv Hsp Hep Hds Hde HB HL s e σ'.
  assert (Hσ' : ∀ l, σ' !! l = if decide (l = loc sp ∨ l = loc ep)
                                then fmap (I64.clamp (-1) (Z.of_nat L)) <$> σ !! l
                                else σ !! l) by (intros; apply clamped_lookup).
  assert (Hs' : σ' !! loc sp = Some (I64.clamp (-1) (Z.of_nat L) <$> ds))
    by (by rewrite Hσ', decide_True, Hds by auto).
  assert (He' : σ' !! loc ep = Some (I64.clamp (-1) (Z.of_nat L) <$> de))
    by (by rewrite Hσ', decide_True, Hde by auto).
  assert (Hsr : ∀ idx, -1 <= at_ s idx <= Z.of_nat L)
    by (intros; apply nth_clamped_range).
  assert (Her : ∀ idx, -1 <= at_ e idx <= Z.of_nat L)
    by (intros; apply nth_clamped_range).
  destruct (view_rows_square al B L Hal HB) as (flat & Hflat & Sflat & _).
  destruct (mean_dim_square al B L Hal) as [(ps & Hps & Sps) (pe & Hpe & Spe)].
  destruct (span_target_pointwise (Z.of_nat L) B s e) as (target & Ht & St & _);
    [done..|].
  pose proof (span_target_range (Z.of_nat L) s e target ltac:(lia) ltac:(lia) Ht) as Htr.
  destruct (cel_forward_run (default_value self) flat target B (L * L))
    as (true_loss & Htrue); [done.. | intros idx; specialize (Htr idx); nia | nia |].
  replace (Z.of_nat (L * L)) with (Z.of_nat L ^ 2) in Htrue by nia.
  destruct (cel_forward_run (default_value self) ps s B L)
    as (start_loss & Hstartl); [done.. | nia |].
  destruct (cel_forward_run (default_value self) pe e B L)
    as (end_loss & Hendl); [done.. | nia |].
  destruct (filter_forward_train_run (filter self) start end_ sp ep σ B L k ds de)
    as (fsl & fel & ts & te & Hfsl & Hfel & Hts & Hte & Hfilter); [done.. | nia |].
  destruct (filter_forward_train_run (filter self) start end_ sp ep σ' B L k
              (I64.clamp (-1) (Z.of_nat L) <$> ds) (I64.clamp (-1) (Z.of_nat L) <$> de))
    as (fsl' & fel' & ts' & te' & Hfsl' & Hfel' & Hts' & Hte' & Hfilter');
    [done.. | nia |].
  rewrite !clamp_fmap_idem in Hts', Hte'.
  fold s in Hts, Hts'. fold e in Hte, Hte'.
  rewrite Hfsl in Hfsl'. rewrite Hfel in Hfel'. rewrite Hts in Hts'. rewrite Hte in Hte'.
  injection Hfsl' as <-. injection Hfel' as <-. injection Hts' as <-. injection Hte' as <-.
  pose proof (clamped_twice L (loc sp) (loc ep) σ) as Htwice. cbv zeta in Htwice.
  fold σ' in Htwice, Hfilter, Hfilter'. rewrite Htwice in Hfilter'.
  eexists flat, ps, pe, target, true_loss, start_loss, end_loss, _.
  repeat (split; [done|]).
  unfold train. rewrite Hsp, Hep. cbn [length Nat.ltb Nat.leb].
  rewrite (St_bind_eq _ _ σ (Z.of_nat L) σ) by (unfold lift, size; by rewrite Hsl).
  rewrite (St_bind_eq _ _ σ () _ (clamp__run sp _ _ σ ltac:(by eexists))).
  rewrite (St_bind_eq _ _ _ () σ')
    by (apply clamp__run; rewrite lookup_alter; case_decide;
        [rewrite Hds | rewrite Hde]; by eexists).
  rewrite (St_bind_eq _ _ σ' s σ') by (rewrite (deref_run _ _ _ Hs'), Hsp; done).
  rewrite (St_bind_eq _ _ σ' e σ') by (rewrite (deref_run _ _ _ He'), Hep; done).
  rewrite (St_bind_eq _ _ σ' target σ') by (unfold lift; by rewrite Ht).
  rewrite (St_bind_eq _ _ σ' true_loss σ')
    by (unfold lift; rewrite Hflat; cbn [mbind result_bind rbind]; by rewrite Htrue).
  rewrite (St_bind_eq _ _ σ' start_loss σ')
    by (unfold lift; rewrite Hps; cbn [mbind result_bind rbind]; by rewrite Hstartl).
  rewrite (St_bind_eq _ _ σ' end_loss σ')
    by (unfold lift; rewrite Hpe; cbn [mbind result_bind rbind]; by rewrite Hendl).
  rewrite (St_bind_eq _ _ σ' _ σ' Hfilter'). reflexivity.
Qed.

End TrainFacts.

(** A position tensor of shape [(B, 1)] is used through its squeezed view
    of shape [(B)], which shares its storage. *)
Lemma train_squeezes rm ce bce self start end_ sl al (sp ep : ref) (B : nat) :
  view_shape sp = [B] ∨ view_shape sp = [B; 1%nat] →
  view_shape ep = [B] ∨ view_shape ep = [B; 1%nat] →
  train rm ce bce self start end_ sl al sp ep
  = train rm ce bce self start end_ sl al (Ref (loc sp) [B]) (Ref (loc ep) [B]).
Proof.
  intros Hsp Hep. destruct sp as [ls vs], ep as [le ve]. cbn [view_shape loc] in *.
  unfold train.
  destruct Hsp as [-> | ->], Hep as [-> | ->]; reflexivity.
Qed.

(** X14. Training, end to end. On a model built by [PhraseModel.__init__]
    with an odd phrase size and a supported metric, well-shaped encoder
    outputs and context mask, a non-empty batch, and two position tensors of
    shape [(B)] or [(B, 1)] holding any integers, a joint call of [forward]
    returns whenever the library's cross-entropy accepts targets that are a
    column of its logits or the ignored index. It returns
    [true_loss + 0.5 * (start_loss + end_loss)] and the filter loss, where,
    [all_logits] being the score matrix the call without positions returns,
    [true_loss] is the default-aware loss of the flattened score matrices
    against the joint target, and [start_loss] ([end_loss]) that of the
    mean of the scores over the end (start) positions against the clamped
    start (end) positions. Both position storages are left clamped to
    [[-1, L]], and the same call on the store it leaves returns the same
    losses and changes nothing more. *)
Theorem forward_training_returns :
  ∀ reduce_sum reduce_mean dot cross_entropy bce_with_logits
    (enc : tensor Z → option (tensor Z) → result (tensor spec_float))
    (P : Z) (metric_name : string) (init_default : spec_float)
    (init_start init_end : list spec_float → spec_float) (self : PhraseModel)
    (cids qids cm : tensor Z) (qm : option (tensor Z)) (sp ep : ref)
    (clayer qlayer : tensor spec_float) (B L Lq D : nat) (σ : store)
    (ds de : list Z),
    (∀ ii x t (B C : nat),
        shape x = [B; C] → shape t = [B] →
        Forall (fun v => v = ii ∨ 0 <= v < Z.of_nat C) (elements t) →
        is_ok (cross_entropy ii x t) = true) →
    phrase_init enc P metric_name init_default init_start init_end = Ok self →
    metric_name = "ip" ∨ metric_name = "l2" →
    Z.odd P = true → 1 <= P →
    enc cids (Some cm) = Ok clayer → shape clayer = [B; L; D] →
    enc qids qm = Ok qlayer → shape qlayer = [B; Lq; D] → (1 <= Lq)%nat →
    P - 1 <= Z.of_nat D → Z.even (Z.of_nat D - (P - 1)) = true →
    shape cm = [B; L] →
    view_shape sp = [B] ∨ view_shape sp = [B; 1%nat] →
    view_shape ep = [B] ∨ view_shape ep = [B; 1%nat] →
    σ !! loc sp = Some ds → σ !! loc ep = Some de →
    length ds = B → length de = B →
    (0 < B)%nat → Z.of_nat L * Z.of_nat L + 1 < 2 ^ 63 →
    let fwd := forward reduce_sum reduce_mean dot cross_entropy bce_with_logits
                 self (Some cids) (Some cm) (Some qids) qm in
    let s := Tensor [B] (fun idx => nth (ravel [B] idx)
                                        (I64.clamp (-1) (Z.of_nat L) <$> ds) 0) in
    let e := Tensor [B] (fun idx => nth (ravel [B] idx)
                                        (I64.clamp (-1) (Z.of_nat L) <$> de) 0) in
    let σ' := alter (fmap (I64.clamp (-1) (Z.of_nat L))) (loc ep)
                (alter (fmap (I64.clamp (-1) (Z.of_nat L))) (loc sp) σ) in
    ∃ all_logits sfl efl flat pooled_start pooled_end target
      true_loss start_loss end_loss filter_loss,
      fwd None None σ = (Ok (OutInference all_logits sfl efl), σ) ∧
      view_rows all_logits = Ok flat ∧
      mean_dim reduce_mean 2 all_logits = Ok pooled_start ∧
      mean_dim reduce_mean 1 all_logits = Ok pooled_end ∧
      span_target (Z.of_nat L) s e = Ok target ∧
      cel_forward cross_entropy
        (cel_init (default_value self) (Z.of_nat L ^ 2)) flat target = Ok true_loss ∧
      cel_forward cross_entropy
        (cel_init (default_value self) (Z.of_nat L)) pooled_start s = Ok start_loss ∧
      cel_forward cross_entropy
        (cel_init (default_value self) (Z.of_nat L)) pooled_end e = Ok end_loss ∧
      fwd (Some sp) (Some ep) σ
      = (Ok (OutTrain (F32.add true_loss
                         (F32.mul (F32.add start_loss end_loss) F32.half))
                      filter_loss), σ') ∧
      fwd (Some sp) (Some ep) σ'
      = (Ok (OutTrain (F32.add true_loss
                         (F32.mul (F32.add start_loss end_loss) F32.half))
                      filter_loss), σ').
Proof.
  intros rs rm dot ce bce enc P m d0 is_ ie self cids qids cm qm sp ep clayer qlayer
    B L Lq D σ ds de Hlib Hinit Hm Hodd HP Hcenc Hcsh Hqenc Hqsh HLq HD Heven Hcm
    Hsp Hep Hds Hde _ _ HB HL fwd s e σ'.
  apply Z.odd_spec in Hodd as [p Hp]. apply Z.even_spec in Heven as [q Hq].
  set (h := Z.to_nat p). set (g := Z.to_nat q).
  assert (HPh : P = 2 * Z.of_nat h + 1) by lia.
  assert (HDg : D = (2 * h + 2 * g)%nat) by lia.
  clearbody h g. subst fwd. rewrite HDg in Hcsh, Hqsh. rewrite HPh in Hinit.
  apply phrase_init_odd in Hinit as (Eenc & EP & Emetric & Edv & Eks & Eke & _).
  destruct (embed_context_run dot bce self cids (Some cm) clayer B L h g)
    as (start & end_ & span & sfl & efl & Hctx & _ & Ss & Se & Sp & _);
    [by rewrite Eenc | done..|].
  destruct (embed_query_run dot self qids qm qlayer B Lq h g)
    as (qs & qe & qspan & Hqry & Sqs & Sqe & Sqspan & _);
    [by rewrite Eenc | done..|].
  destruct (joint_logits_run rs self start end_ span qs qe qspan cm B L h)
    as (sl & el & cl & al & _ & _ & _ & Hjoint & Ssl & Sal & _);
    [by rewrite Emetric | done..|].
  assert (Hdv : shape (default_value self) = [1%nat]) by (by rewrite Edv).
  assert (Hs1 : σ !! loc (Ref (loc sp) [B]) = Some ds) by done.
  assert (He1 : σ !! loc (Ref (loc ep) [B]) = Some de) by done.
  destruct (train_run rm ce bce Hlib self start end_ sl al
              (Ref (loc sp) [B]) (Ref (loc ep) [B]) σ B L h ds de)
    as (flat & ps & pe & target & tl & stl & enl & fl
        & Hflat & Hps & Hpe & Ht & Htl & Hstl & Henl & _ & Hfl & Htrain); [done..|].
  assert (Hσ' : ∀ l, σ' !! l = if decide (l = loc sp ∨ l = loc ep)
                                then fmap (I64.clamp (-1) (Z.of_nat L)) <$> σ !! l
                                else σ !! l) by (intros; apply clamped_lookup).
  assert (Hs2 : σ' !! loc (Ref (loc sp) [B])
                = Some (I64.clamp (-1) (Z.of_nat L) <$> ds))
    by (cbn [loc]; by rewrite Hσ', decide_True, Hds by auto).
  assert (He2 : σ' !! loc (Ref (loc ep) [B])
                = Some (I64.clamp (-1) (Z.of_nat L) <$> de))
    by (cbn [loc]; by rewrite Hσ', decide_True, Hde by auto).
  destruct (train_run rm ce bce Hlib self start end_ sl al
              (Ref (loc sp) [B]) (Ref (loc ep) [B]) σ' B L h _ _
              Ss Se Ssl Sal Eks Eke Hdv eq_refl eq_refl Hs2 He2 HB HL)
    as (flat' & ps' & pe' & target' & tl' & stl' & enl' & fl'
        & Hflat' & Hps' & Hpe' & Ht' & Htl' & Hstl' & Henl' & Hfl' & _ & Htrain').
  cbn [loc] in Htrain, Htrain', Hfl, Hfl'.
  rewrite (clamp_fmap_idem L ds), (clamp_fmap_idem L de) in Ht'.
  rewrite (clamp_fmap_idem L ds) in Hstl'. rewrite (clamp_fmap_idem L de) in Henl'.
  fold σ' in Hfl, Hfl'.
  rewrite Hfl in Hfl'. injection Hfl' as <- _.
  pose proof (clamped_twice L (loc sp) (loc ep) σ) as Htwice. cbv zeta in Htwice.
  fold σ' in Htwice, Htrain, Htrain'. rewrite Htwice in Htrain'.
  subst s e. cbv zeta in *.
  rewrite Hflat in Hflat'. injection Hflat' as <-.
  rewrite Hps in Hps'. injection Hps' as <-.
  rewrite Hpe in Hpe'. injection Hpe' as <-.
  rewrite Ht in Ht'. injection Ht' as <-.
  rewrite Htl in Htl'. injection Htl' as <-.
  rewrite Hstl in Hstl'. injection Hstl' as <-.
  rewrite Henl in Henl'. injection Henl' as <-.
  exists al, sfl, efl, flat, ps, pe, target, tl, stl, enl, fl.
  split; [by rewrite forward_joint, (Hctx σ), Hqry, Hjoint|].
  repeat (split; [done|]).
  split.
  - rewrite forward_joint, (Hctx σ), Hqry, Hjoint.
    rewrite (train_squeezes rm ce bce self start end_ sl al sp ep B) by done.
    exact Htrain.
  - rewrite forward_joint, (Hctx σ'), Hqry, Hjoint.
    rewrite (train_squeezes rm ce bce self start end_ sl al sp ep B) by done.
    exact Htrain'.
Qed.

Lemma forward_training_returns_witness :
  (∀ ii x t (B C : nat),
      shape x = [B; C] → shape t = [B] →
      Forall (fun v => v = ii ∨ 0 <= v < Z.of_nat C) (elements t) →
      is_ok (Fixture.cross_entropy ii x t) = true) ∧
  phrase_init (Fixture.token_encoder 4) 3 "ip" F32.one
    Fixture.reduce_sum Fixture.reduce_sum = Ok (Fixture.phrase_model "ip") ∧
  ("ip" = "ip" ∨ "ip" = "l2") ∧ Z.odd 3 = true ∧ 1 <= 3 ∧
  Fixture.token_encoder 4 Fixture.context_ids (Some Fixture.context_mask)
  = Ok Sample.context_layer ∧
  shape Sample.context_layer = [1; 2; 4]%nat ∧
  Fixture.token_encoder 4 Fixture.query_ids None = Ok Sample.query_layer ∧
  shape Sample.query_layer = [1; 1; 4]%nat ∧ (1 <= 1)%nat ∧
  3 - 1 <= Z.of_nat 4 ∧ Z.even (Z.of_nat 4 - (3 - 1)) = true ∧
  shape Fixture.context_mask = [1; 2]%nat ∧
  (view_shape Fixture.start_ref = [1%nat] ∨ view_shape Fixture.start_ref = [1; 1]%nat) ∧
  (view_shape Fixture.end_ref = [1%nat] ∨ view_shape Fixture.end_ref = [1; 1]%nat) ∧
  Fixture.store0 !! loc Fixture.start_ref = Some [7] ∧
  Fixture.store0 !! loc Fixture.end_ref = Some [-1] ∧
  length [7] = 1%nat ∧ length [-1] = 1%nat ∧ (0 < 1)%nat ∧
  Z.of_nat 2 * Z.of_nat 2 + 1 < 2 ^ 63 ∧
  ∃ loss filter_loss σ',
    Fixture.joint_call "ip" (Some Fixture.start_ref) (Some Fixture.end_ref) Fixture.store0
    = (Ok (OutTrain loss filter_loss), σ') ∧
    Fixture.joint_call "ip" (Some Fixture.start_ref) (Some Fixture.end_ref) σ'
    = (Ok (OutTrain loss filter_loss), σ') ∧
    σ' !! 1%nat = Some [2].
Proof.
  assert (Hlib : ∀ ii x t (B C : nat),
            shape x = [B; C] → shape t = [B] →
            Forall (fun v => v = ii ∨ 0 <= v < Z.of_nat C) (elements t) →
            is_ok (Fixture.cross_entropy ii x t) = true) by reflexivity.
  split; [exact Hlib|].
  split; [reflexivity|]. split; [by left|]. split; [reflexivity|]. split; [lia|].
  split; [reflexivity|]. split; [reflexivity|]. split; [reflexivity|].
  split; [reflexivity|]. split; [lia|]. split; [simpl; lia|].
  split; [reflexivity|]. split; [reflexivity|].
  split; [by left|]. split; [by left|].
  split; [reflexivity|]. split; [reflexivity|].
  split; [reflexivity|]. split; [reflexivity|]. split; [lia|]. split; [simpl; lia|].
  destruct (forward_training_returns Fixture.reduce_sum Fixture.reduce_mean Fixture.dot
              Fixture.cross_entropy Fixture.bce_with_logits
              (Fixture.token_encoder 4) 3 "ip" F32.one
              Fixture.reduce_sum Fixture.reduce_sum (Fixture.phrase_model "ip")
              Fixture.context_ids Fixture.query_ids Fixture.context_mask None
              Fixture.start_ref Fixture.end_ref
              Sample.context_layer Sample.query_layer 1 2 1 4 Fixture.store0
              [7] [-1]
              Hlib eq_refl ltac:(by left) eq_refl ltac:(lia) eq_refl eq_refl eq_refl
              eq_refl ltac:(lia) ltac:(simpl; lia) eq_refl eq_refl
              ltac:(by left) ltac:(by left) eq_refl eq_refl eq_refl eq_refl
              ltac:(lia) ltac:(simpl; lia))
    as (al & sfl & efl & flat & ps & pe & target & tl & stl & enl & fl
        & _ & _ & _ & _ & _ & _ & _ & _ & H1 & H2).
  eexists _, fl, _. split; [exact H1|]. split; [exact H2|]. reflexivity.
Defined.

(** ** What a call may write *)

Lemma writes_only_refl locs σ : writes_only locs σ σ.
Proof. by intros l. Qed.

Lemma writes_only_trans locs σ1 σ2 σ3 :
  writes_only locs σ1 σ2 → writes_only locs σ2 σ3 → writes_only locs σ1 σ3.
Proof.
  intros H12 H23 l. destruct (H12 l) as [L12 F12], (H23 l) as [L23 F23]. split.
  - by rewrite L23.
  - intros Hl. by rewrite F23, F12.
Qed.

Lemma writes_only_bind {A B} locs (m : St A) (k : A → St B) σ :
  writes_only locs σ (m σ).2 →
  (∀ a σ1, m σ = (Ok a, σ1) → writes_only locs σ1 (k a σ1).2) →
  writes_only locs σ ((m ≫= k) σ).2.
Proof.
  intros Hm Hk. unfold mbind, St_bind.
  destruct (m σ) as [[a|e] σ1]; cbn [snd] in *; [|done].
  eapply writes_only_trans; [exact Hm | by apply Hk].
Qed.

Lemma writes_only_lift {A} locs (r : result A) σ : writes_only locs σ (lift r σ).2.
Proof. apply writes_only_refl. Qed.

Lemma writes_only_deref locs h σ : writes_only locs σ (deref h σ).2.
Proof. unfold deref. destruct (σ !! loc h); apply writes_only_refl. Qed.

Lemma writes_only_clamp_ locs h lo hi σ :
  loc h ∈ locs → writes_only locs σ (clamp_ h lo hi σ).2.
Proof.
  intros Hin. unfold clamp_. destruct (σ !! loc h) as [d|] eqn:Hd;
    [|apply writes_only_refl].
  intros l. cbn [snd]. destruct (decide (l = loc h)) as [->|Hne].
  - rewrite lookup_insert_eq, Hd. cbn. split; [by rewrite length_fmap | done].
  - by rewrite lookup_insert_ne.
Qed.

Lemma writes_only_mono locs locs' σ σ' :
  locs ⊆ locs' → writes_only locs σ σ' → writes_only locs' σ σ'.
Proof.
  intros Hsub H l. destruct (H l) as [Hlen Hfr]. split; [done|].
  intros Hl. apply Hfr. intros Hin. by apply Hl, Hsub.
Qed.

Section WriteFacts.
Variable reduce_sum : list spec_float → spec_float.
Variable reduce_mean : list spec_float → spec_float.
Variable dot : list spec_float → list spec_float → spec_float.
Variable cross_entropy : Z → tensor spec_float → tensor Z → result spec_float.
Variable bce_with_logits : tensor spec_float → tensor spec_float → Z → spec_float.

Ltac writes_steps :=
  repeat (apply writes_only_bind;
          [first [ apply writes_only_lift | apply writes_only_deref
                 | apply writes_only_clamp_; set_solver ]
          | let H := fresh "H" in
            intros ? ? H;
            try (apply lift_ok in H as [H ?]; try (injection H as <-)) ]).

Lemma filter_forward_writes self sv ev sp ep σ :
  writes_only (loc <$> (option_list sp ++ option_list ep)) σ
    (filter_forward bce_with_logits self sv ev sp ep σ).2.
Proof.
  unfold filter_forward.
  apply writes_only_bind; [apply writes_only_lift | intros sl σ1 _].
  apply writes_only_bind; [apply writes_only_lift | intros el σ2 _].
  destruct sp as [sp|], ep as [ep|]; cbn [from_option option_list app fmap list_fmap].
  - writes_steps. apply writes_only_refl.
  - writes_steps. discriminate.
  - writes_steps. discriminate.
  - apply writes_only_refl.
Qed.

Lemma train_writes self start end_ sl al sp ep σ :
  writes_only [loc sp; loc ep] σ
    (train reduce_mean cross_entropy bce_with_logits self start end_ sl al sp ep σ).2.
Proof.
  unfold train.
  set (sp' := if (1 <? length (view_shape sp))%nat then squeeze_ref sp else sp).
  set (ep' := if (1 <? length (view_shape ep))%nat then squeeze_ref ep else ep).
  assert (loc sp' = loc sp) as Hsp
    by (unfold sp'; destruct (1 <? length (view_shape sp))%nat; reflexivity).
  assert (loc ep' = loc ep) as Hep
    by (unfold ep'; destruct (1 <? length (view_shape ep))%nat; reflexivity).
  clearbody sp' ep'. rewrite <- Hsp, <- Hep.
  writes_steps.
  apply writes_only_bind.
  { pose proof (filter_forward_writes (filter self) start end_ (Some sp') (Some ep'))
      as Hfw. cbn in Hfw. apply Hfw. }
  intros [? ?|?] ? _; [apply writes_only_lift | apply writes_only_refl].
Qed.

End WriteFacts.

(** X15. Whatever its outcome, a normal return or any exception, a call of
    [forward] or of [BoundaryFilter.forward] writes to no storage other
    than those of the position tensors it is given, and it creates, removes
    or resizes none: every other tensor of the caller is as before, also
    when the in-place clamps have run and a later step raises. *)
Theorem forward_writes_only_positions :
  ∀ reduce_sum reduce_mean dot cross_entropy bce_with_logits
    (self : PhraseModel) (cids cm qids qm : option (tensor Z))
    (start_vec end_vec : tensor spec_float) (sp ep : option ref) (σ : store),
    writes_only (loc <$> (option_list sp ++ option_list ep)) σ
      (forward reduce_sum reduce_mean dot cross_entropy bce_with_logits
         self cids cm qids qm sp ep σ).2 ∧
    writes_only (loc <$> (option_list sp ++ option_list ep)) σ
      (filter_forward bce_with_logits (filter self) start_vec end_vec sp ep σ).2.
Proof.
  intros rs rm dot ce bce self cids cm qids qm sv ev sp ep σ.
  split; [|apply filter_forward_writes].
  destruct (decide (cids = None ∨ qids = None ∨ sp = None ∨ ep = None)) as [Hn|Hn].
  - rewrite forward_store_unchanged by done. apply writes_only_refl.
  - destruct cids as [cids|], qids as [qids|], sp as [sp|], ep as [ep|];
      try (exfalso; apply Hn; auto; fail).
    rewrite forward_joint.
    pose proof (embed_context_store dot bce self cids cm σ) as Hc.
    destruct (embed_context _ _ _ _ _ _) as [[[[[[start end_] span] sfl] efl]|e] σ1];
      simpl in Hc; subst σ1; [|apply writes_only_refl].
    destruct (embed_query _ _ _ _) as [[[qs qe] qspan]|e]; [|apply writes_only_refl].
    destruct (joint_logits _ _ _ _ _ _ _ _ _) as [[sl al]|e]; [|apply writes_only_refl].
    apply train_writes.
Qed.

(** ** The targets the default-aware loss ignores *)

(** X16. When [CrossEntropyLossWithDefault.forward] returns, a target has
    been handed to the library as the ignored index exactly when the loss
    was built with a non-negative [ignore_index] and the target equals it.
    A loss built with a negative [ignore_index], the default [-100]
    included, ignores no target: a target equal to it fails the assertion,
    or, for [-1], is the default class. *)
Theorem cel_forward_ignores_exactly :
  ∀ (cross_entropy : Z → tensor spec_float → tensor Z → result spec_float)
    (default_value : tensor spec_float) (ignore_idx : Z)
    (input : tensor spec_float) (target : tensor Z) (loss : spec_float),
    Forall (fun t => - 2 ^ 63 <= t < 2 ^ 63) (elements target) →
    cel_forward cross_entropy (cel_init default_value ignore_idx) input target
    = Ok loss →
    Forall (fun t => I64.add t 1 = ignore_index (cel_init default_value ignore_idx)
                     ↔ 0 <= ignore_idx ∧ t = ignore_idx)
           (elements target) ∧
    (ignore_idx < 0 →
     Forall (fun t => I64.add t 1 ≠ ignore_index (cel_init default_value ignore_idx))
            (elements target)).
Proof.
  intros ce dv ii input target loss Hrange H.
  assert (Hpos : Forall (fun t => 0 <= I64.add t 1) (elements target)).
  { unfold cel_forward in H. destruct (negb _); [discriminate|].
    destruct (unsqueeze 0 _) as [dvu|]; [|discriminate].
    cbn [mbind result_bind rbind] in H.
    destruct (size input 0) as [rows|]; [|discriminate].
    cbn [mbind result_bind rbind] in H.
    destruct (repeat_rows rows dvu) as [dvr|]; [|discriminate].
    cbn [mbind result_bind rbind] in H.
    destruct (cat1 dvr input) as [ni|]; [|discriminate].
    cbn [mbind result_bind rbind] in H.
    destruct (tmin (tmap (fun t => I64.add t 1) target)) as [m|] eqn:Hm;
      [|discriminate].
    cbn [mbind result_bind rbind] in H.
    destruct (Z.leb_spec 0 m) as [H0|Hneg].
    - apply tmin_ok in Hm as [_ Hm]. rewrite elements_tmap, Forall_fmap in Hm.
      eapply Forall_impl; [exact Hm|]. intros t Ht. simpl in Ht. lia.
    - cbn [negb] in H. destruct (tmin target); discriminate. }
  assert (Hii : ignore_index (cel_init dv ii) = if 0 <=? ii then ii + 1 else ii)
    by reflexivity.
  rewrite Hii.
  assert (Hadd : Forall (fun t => I64.add t 1 = t + 1 ∧ 0 <= t + 1) (elements target)).
  { rewrite Forall_forall in Hrange, Hpos |- *. intros t Ht.
    specialize (Hrange t Ht). specialize (Hpos t Ht).
    destruct (decide (t = 2 ^ 63 - 1)) as [->|Hne].
    - exfalso. revert Hpos. by vm_compute.
    - unfold I64.add in *. rewrite wrap_small in * by lia. lia. }
  split.
  - eapply Forall_impl; [exact Hadd|]. intros t [-> Ht]. cbn beta.
    destruct (Z.leb_spec 0 ii); lia.
  - intros Hneg. eapply Forall_impl; [exact Hadd|]. intros t [-> Ht]. cbn beta.
    destruct (Z.leb_spec 0 ii); lia.
Qed.

Lemma cel_forward_ignores_exactly_witness :
  Forall (fun t => - 2 ^ 63 <= t < 2 ^ 63) (elements Fixture.minus_one) ∧
  cel_forward Fixture.cross_entropy (cel_init Fixture.default1 (-1))
    Fixture.logits12 Fixture.minus_one = Ok (F32.of_Z 1) ∧
  Forall (fun t => I64.add t 1 ≠ ignore_index (cel_init Fixture.default1 (-1)))
         (elements Fixture.minus_one).
Proof.
  assert (Hrange : Forall (fun t => - 2 ^ 63 <= t < 2 ^ 63) (elements Fixture.minus_one))
    by (repeat constructor; vm_compute; discriminate).
  split; [exact Hrange|]. split; [reflexivity|].
  apply (proj2 (cel_forward_ignores_exactly Fixture.cross_entropy Fixture.default1 (-1)
                  Fixture.logits12 Fixture.minus_one (F32.of_Z 1) Hrange eq_refl)).
  lia.
Defined.

(** ** An empty batch *)

(** X17. An empty batch can be scored but not trained on. On well-shaped
    inputs with batch size 0, a joint call of [forward] without positions
    returns a score matrix of shape [(0, L, L)], while the same call with
    two (empty) position tensors raises [RuntimeError]: the flattening
    [all_logits.view(all_logits.size(0), -1)] cannot infer the size of the
    second dimension. *)
Theorem forward_training_empty_batch :
  ∀ reduce_sum reduce_mean dot cross_entropy bce_with_logits
    (enc : tensor Z → option (tensor Z) → result (tensor spec_float))
    (P : Z) (metric_name : string) (init_default : spec_float)
    (init_start init_end : list spec_float → spec_float) (self : PhraseModel)
    (cids qids cm : tensor Z) (qm : option (tensor Z)) (sp ep : ref)
    (clayer qlayer : tensor spec_float) (L Lq D : nat) (σ : store),
    phrase_init enc P metric_name init_default init_start init_end = Ok self →
    metric_name = "ip" ∨ metric_name = "l2" →
    Z.odd P = true → 1 <= P →
    enc cids (Some cm) = Ok clayer → shape clayer = [0%nat; L; D] →
    enc qids qm = Ok qlayer → shape qlayer = [0%nat; Lq; D] → (1 <= Lq)%nat →
    P - 1 <= Z.of_nat D → Z.even (Z.of_nat D - (P - 1)) = true →
    shape cm = [0%nat; L] →
    view_shape sp = [0%nat] ∨ view_shape sp = [0; 1]%nat →
    view_shape ep = [0%nat] ∨ view_shape ep = [0; 1]%nat →
    σ !! loc sp = Some [] → σ !! loc ep = Some [] →
    let fwd := forward reduce_sum reduce_mean dot cross_entropy bce_with_logits
                 self (Some cids) (Some cm) (Some qids) qm in
    (∃ all_logits sfl efl,
        fwd None None σ = (Ok (OutInference all_logits sfl efl), σ) ∧
        shape all_logits = [0%nat; L; L]) ∧
    fwd (Some sp) (Some ep) σ = (Err RuntimeError, σ).
Proof.
  intros rs rm dot ce bce enc P m d0 is_ ie self cids qids cm qm sp ep clayer qlayer
    L Lq D σ Hinit Hm Hodd HP Hcenc Hcsh Hqenc Hqsh HLq HD Heven Hcm
    Hsp Hep Hds Hde fwd.
  apply Z.odd_spec in Hodd as [p Hp]. apply Z.even_spec in Heven as [q Hq].
  set (h := Z.to_nat p). set (g := Z.to_nat q).
  assert (HPh : P = 2 * Z.of_nat h + 1) by lia.
  assert (HDg : D = (2 * h + 2 * g)%nat) by lia.
  clearbody h g. subst fwd. rewrite HDg in Hcsh, Hqsh. rewrite HPh in Hinit.
  apply phrase_init_odd in Hinit as (Eenc & EP & Emetric & Edv & Eks & Eke & _).
  destruct (embed_context_run dot bce self cids (Some cm) clayer 0 L h g)
    as (start & end_ & span & sfl & efl & Hctx & _ & Ss & Se & Sp & _);
    [by rewrite Eenc | done..|].
  destruct (embed_query_run dot self qids qm qlayer 0 Lq h g)
    as (qs & qe & qspan & Hqry & Sqs & Sqe & Sqspan & _);
    [by rewrite Eenc | done..|].
  destruct (joint_logits_run rs self start end_ span qs qe qspan cm 0 L h)
    as (sl & el & cl & al & _ & _ & _ & Hjoint & Ssl & Sal & _);
    [by rewrite Emetric | done..|].
  split.
  { exists al, sfl, efl. split; [|done].
    by rewrite forward_joint, (Hctx σ), Hqry, Hjoint. }
  rewrite forward_joint, (Hctx σ), Hqry, Hjoint.
  rewrite (train_squeezes rm ce bce self start end_ sl al sp ep 0) by done.
  assert (Hσ : alter (fmap (I64.clamp (-1) (Z.of_nat L))) (loc ep)
                 (alter (fmap (I64.clamp (-1) (Z.of_nat L))) (loc sp) σ) = σ).
  { apply map_eq. intros l. rewrite clamped_lookup.
    destruct (decide (l = loc sp ∨ l = loc ep)) as [[-> | ->]|]; [| |done].
    - by rewrite Hds.
    - by rewrite Hde. }
  set (s := Tensor [0%nat] (fun idx => nth (ravel [0%nat] idx) (@nil Z) 0)).
  destruct (span_target_pointwise (Z.of_nat L) 0 s s) as (target & Ht & _); [done..|].
  unfold train. cbn [view_shape length Nat.ltb Nat.leb loc].
  rewrite (St_bind_eq _ _ σ (Z.of_nat L) σ) by (unfold lift, size; by rewrite Ssl).
  rewrite (St_bind_eq _ _ σ () _ (clamp__run (Ref (loc sp) [0%nat]) _ _ σ
                                    ltac:(by eexists))).
  rewrite (St_bind_eq _ _ _ () σ).
  2: { rewrite clamp__run; [cbn [loc]; by rewrite Hσ|].
       cbn [loc]. rewrite lookup_alter. case_decide; [rewrite Hds | rewrite Hde];
         by eexists. }
  rewrite (St_bind_eq _ _ σ s σ) by (by apply deref_run).
  rewrite (St_bind_eq _ _ σ s σ) by (by apply deref_run).
  rewrite (St_bind_eq _ _ σ target σ) by (unfold lift; by rewrite Ht).
  apply St_bind_err. unfold lift, view_rows. by rewrite Sal.
Qed.

Lemma forward_training_empty_batch_witness :
  phrase_init (Fixture.token_encoder 4) 3 "ip" F32.one
    Fixture.reduce_sum Fixture.reduce_sum = Ok (Fixture.phrase_model "ip") ∧
  ("ip" = "ip" ∨ "ip" = "l2") ∧ Z.odd 3 = true ∧ 1 <= 3 ∧
  Fixture.token_encoder 4 Sample.no_context_ids (Some Sample.no_context_ids)
  = Ok Sample.no_context_layer ∧
  shape Sample.no_context_layer = [0; 2; 4]%nat ∧
  Fixture.token_encoder 4 Sample.no_query_ids None = Ok Sample.no_query_layer ∧
  shape Sample.no_query_layer = [0; 1; 4]%nat ∧ (1 <= 1)%nat ∧
  3 - 1 <= Z.of_nat 4 ∧ Z.even (Z.of_nat 4 - (3 - 1)) = true ∧
  shape Sample.no_context_ids = [0; 2]%nat ∧
  (view_shape Sample.no_start_ref = [0%nat] ∨ view_shape Sample.no_start_ref = [0; 1]%nat) ∧
  (view_shape Sample.no_end_ref = [0%nat] ∨ view_shape Sample.no_end_ref = [0; 1]%nat) ∧
  Sample.empty_store !! loc Sample.no_start_ref = Some [] ∧
  Sample.empty_store !! loc Sample.no_end_ref = Some [] ∧
  Fixture.run_forward (Fixture.phrase_model "ip")
    (Some Sample.no_context_ids) (Some Sample.no_context_ids)
    (Some Sample.no_query_ids) None
    (Some Sample.no_start_ref) (Some Sample.no_end_ref) Sample.empty_store
  = (Err RuntimeError, Sample.empty_store).
Proof.
  split; [reflexivity|]. split; [by left|]. split; [reflexivity|]. split; [lia|].
  split; [reflexivity|]. split; [reflexivity|]. split; [reflexivity|].
  split; [reflexivity|]. split; [lia|]. split; [simpl; lia|].
  split; [reflexivity|]. split; [reflexivity|].
  split; [by left|]. split; [by left|].
  split; [reflexivity|]. split; [reflexivity|].
  apply (proj2 (forward_training_empty_batch
                  Fixture.reduce_sum Fixture.reduce_mean Fixture.dot
                  Fixture.cross_entropy Fixture.bce_with_logits
                  (Fixture.token_encoder 4) 3 "ip" F32.one
                  Fixture.reduce_sum Fixture.reduce_sum (Fixture.phrase_model "ip")
                  Sample.no_context_ids Sample.no_query_ids Sample.no_context_ids None
                  Sample.no_start_ref Sample.no_end_ref
                  Sample.no_context_layer Sample.no_query_layer 2 1 4
                  Sample.empty_store
                  eq_refl ltac:(by left) eq_refl ltac:(lia) eq_refl eq_refl eq_refl
                  eq_refl ltac:(lia) ltac:(simpl; lia) eq_refl eq_refl
                  ltac:(by left) ltac:(by left) eq_refl eq_refl)).
Defined.
